(** * alma-tests-cacher: the repository reconciliation pass

    A shallow embedding of [alma_tests_cacher/cacher.py] (class
    [AlmaTestsCacher]) and the properties of one reconciliation pass of
    [process_repo]: rule compilation, folder discovery, self-heal, the
    create/remove diff and the bulk calls.

    Conventions of the embedding
    - Python [str] is [string], [int] is [Z], [Optional[x]] is [option x],
      a [list] is a [list]; the rule mapping read from [test_rules.json] (a
      [dict] iterated in insertion order) is an association list; the lookup
      table [test_folders_mapping] is a [gmap].
    - Effects (git, file system, HTTP) are threaded through a state and
      exception monad [M]; every effect is appended to a chronological
      [trace].  Logging is not part of the model.
    - The checkout is a tree of files and directories.  [re.search],
      [re.sub], [urljoin], the git wrapper and the API are collaborators
      the pass is parametrised by.
    - The pass comes in two layers.  The first part is the sequential
      pass: one repository's pass as it runs when every permit of the
      request pool ([asyncio.Semaphore]) is granted, [Path.glob] is given a
      relative pattern of literal characters, ["*"] and ["?"], the paths
      stay inside the checkout and no library function raises.  [Pooled]
      is the pass with the pool of lines 37, 88 and 184 and with the
      exceptions of the libraries; [granted_pass_is_the_sequential_pass]
      relates the two. *)

From Stdlib Require Import Ascii ZArith.
From stdpp Require Import base option list strings gmap.

Local Open Scope string_scope.
Local Open Scope list_scope.
Local Open Scope stdpp_scope.

(** ** Data model *)

(** Modelled from the spec: [alma_tests_cacher/models.py] is not part of the
    sources; the fields are the ones [cacher.py] reads and writes
    ([id], [folder_name], [package_name], [url], [regex]).  A freshly built
    record has no [id] and, unless given, no [regex]. *)
Module PackageTestRepository.
Record t : Type := Build {
  id : option Z;
  folder_name : string;
  package_name : string;
  url : string;
  regex : option string;
}.
End PackageTestRepository.
Module Pkg := PackageTestRepository.

(** Modelled from the spec: the repository record of [models.py], with the
    fields [process_repo] uses. *)
Module TestRepository.
Record t : Type := Build {
  id : Z;
  name : string;
  url : string;
  tests_dir : string;
  tests_prefix : option string;
  common_test_dir_name : option string;
  packages : list Pkg.t;
}.

Definition with_url (u : string) (r : t) : t :=
  Build (id r) (name r) u (tests_dir r) (tests_prefix r)
        (common_test_dir_name r) (packages r).

Definition with_packages (ps : list Pkg.t) (r : t) : t :=
  Build (id r) (name r) (url r) (tests_dir r) (tests_prefix r)
        (common_test_dir_name r) ps.
End TestRepository.
Module Repo := TestRepository.

(** Python truthiness of the values [process_repo] tests. *)
Definition truthy_str (s : option string) : bool :=
  match s with
  | Some (String _ _) => true
  | _ => false
  end.

Definition truthy_int (i : option Z) : bool :=
  match i with
  | Some z => negb (Z.eqb z 0)
  | None => false
  end.

(** The rule mapping of [test_rules.json]: pattern, then target folder, in the
    order of the file. *)
Abbreviation rule_table := (list (string * string)).

(** ** The rule compiler *)

(** [x in l] on a Python list of strings. *)
Definition py_in (x : string) (l : list string) : bool := bool_decide (x ∈ l).

(** The loop body of [get_compiled_test_rules], with the two accumulators
    [compiled_test_rules] and [missing_folders]. *)
Fixpoint compile_loop (items : rule_table) (remote_test_folders : list string)
    (compiled_test_rules : rule_table) (missing_folders : list string)
    : rule_table * list string :=
  match items with
  | [] => (compiled_test_rules, missing_folders)
  | (regex, folder_name) :: rest =>
      if negb (py_in folder_name remote_test_folders)
      then compile_loop rest remote_test_folders
             compiled_test_rules (missing_folders ++ [folder_name])
      else compile_loop rest remote_test_folders
             (compiled_test_rules ++ [(regex, folder_name)]) missing_folders
  end.

Definition get_compiled_test_rules (test_rules : rule_table)
    (remote_test_folders : list string) : rule_table * list string :=
  compile_loop test_rules remote_test_folders [] [].

(** ** The checkout on disk *)

(** A node of the working copy.  A file carries what [json.load] followed by
    [.items()] makes of it: [Some] rule mapping for a JSON object of strings,
    [None] when reading it as a rule file raises. *)
#[warnings="-register-all"]
Inductive fsnode : Type :=
  | File (rules : option rule_table)
  | Dir (entries : list (string * fsnode)).

(** Splitting a relative path or glob pattern at ["/"]. *)
Fixpoint split_slash (s : string) : list string :=
  match s with
  | EmptyString => [EmptyString]
  | String c s' =>
      if Ascii.eqb c "/"%char then EmptyString :: split_slash s'
      else match split_slash s' with
           | seg :: rest => String c seg :: rest
           | [] => [String c EmptyString]
           end
  end.

(** The parts [pathlib] keeps of a relative path or pattern: empty parts
    and ["."] are dropped.  (An absolute pattern is dealt with in
    [Pooled.glob].) *)
Definition path_parts (s : string) : list string :=
  filter (λ seg, seg ≠ "" ∧ seg ≠ ".") (split_slash s).

(** [fnmatch] on one path part, for patterns built from literal characters,
    ["*"] and ["?"].  A character class or a recursive wildcard is not
    read as such here: [Pooled.glob] leaves those patterns to the
    library. *)
Fixpoint fnmatch (pat : string) : string → bool :=
  match pat with
  | EmptyString => λ s, match s with EmptyString => true | _ => false end
  | String c pat' =>
      if Ascii.eqb c "*"%char then
        fix star (s : string) : bool :=
          fnmatch pat' s ||
          match s with
          | EmptyString => false
          | String _ s' => star s'
          end
      else
        λ s, match s with
             | EmptyString => false
             | String d s' =>
                 (Ascii.eqb c "?"%char || Ascii.eqb c d) && fnmatch pat' s'
             end
  end.

(** [Path.glob]: the paths (relative to the start, as lists of parts) matched
    by the pattern parts, with the node found there.  Only a directory is
    descended into; the last part matches files and directories alike. *)
Fixpoint glob_from (parts : list string) (here : list string) (n : fsnode)
    : list (list string * fsnode) :=
  match parts with
  | [] => [(here, n)]
  | p :: rest =>
      match n with
      | File _ => []
      | Dir es =>
          flat_map
            (λ e : string * fsnode,
               if fnmatch p e.1 then glob_from rest (here ++ [e.1]) e.2
               else [])
            es
      end
  end.

(** [Path.name]: the last part. *)
Definition path_name (p : list string) : string := default "" (last p).

(** Resolving a path of literal parts ([Path.exists] and [open]). *)
Fixpoint lookup_path (parts : list string) (n : fsnode) : option fsnode :=
  match parts with
  | [] => Some n
  | p :: rest =>
      match n with
      | File _ => None
      | Dir es =>
          match list_find (λ e : string * fsnode, e.1 = p) es with
          | Some (_, e) => lookup_path rest e.2
          | None => None
          end
      end
  end.

Definition find_on_disk (d : option fsnode) (parts : list string)
    : option fsnode :=
  match d with
  | Some root => lookup_path parts root
  | None => None
  end.

(** ** Effects *)

(** Where a request goes: [/api/v1/test_repositories/{id}/packages/...]. *)
Inductive endpoint : Type :=
  | bulk_remove_endpoint (repository_id : Z)
  | bulk_create_endpoint (repository_id : Z).

(** The [json] argument of a request. *)
Inductive payload : Type :=
  | ids_payload (test_folders_ids : list Z)
  | folders_payload (test_folders : list Pkg.t).

(** What a pass does to the outside, and the two calls the properties speak
    about.  [EvBulkCreate] and [EvBulkRemove] record that the bulk function
    was entered and with what; [EvRequest] records that [make_request] was
    entered. *)
Inductive event : Type :=
  | EvClone (url : string)      (* clone_git_repo(workdir, url) *)
  | EvPull                      (* git_pull(repo_dir) *)
  | EvRmtree                    (* shutil.rmtree(repo_dir) *)
  | EvGlob (pattern : string)   (* repo_dir.glob(pattern) *)
  | EvLoadRules                 (* json.load of test_rules.json *)
  | EvBulkCreate (test_folders : list Pkg.t) (repository_id : Z)
  | EvBulkRemove (test_folders_ids : list Z) (repository_id : Z)
  | EvRequest (method : string) (to : endpoint) (json : payload).

(** What the git collaborator does when asked: raise, or return and leave
    the repository directory in some state ([None]: still absent). *)
Inductive git_reply : Type :=
  | GitRaises
  | GitReturns (after : option fsnode).

(** The state a pass runs in: the repository directory
    [Path(workdir, repo_dirname)] if it exists, the number of git and HTTP
    calls made so far (the index into the collaborators' replies), and the
    effects so far, oldest first. *)
Record world : Type := World {
  disk : option fsnode;
  git_calls : nat;
  http_calls : nat;
  trace : list event;
}.

Definition log_event (e : event) (w : world) : world :=
  World (disk w) (git_calls w) (http_calls w) (trace w ++ [e]).

Definition set_disk (d : option fsnode) (w : world) : world :=
  World d (git_calls w) (http_calls w) (trace w).

Definition count_git (w : world) : world :=
  World (disk w) (S (git_calls w)) (http_calls w) (trace w).

Definition count_http (w : world) : world :=
  World (disk w) (git_calls w) (S (http_calls w)) (trace w).

(** A computation returns a value or lets an exception escape. *)
Inductive outcome (A : Type) : Type :=
  | Ok (a : A)
  | Exn.
Arguments Ok {A} a.
Arguments Exn {A}.

Definition M (A : Type) : Type := world → outcome A * world.

#[export] Instance M_ret : MRet M := λ A a w, (Ok a, w).

#[export] Instance M_bind : MBind M := λ A B f m w,
  match m w with
  | (Ok a, w') => f a w'
  | (Exn, w') => (Exn, w')
  end.

(** [try: m except Exception: ...] with a handler that only logs. *)
Definition try_except {A : Type} (m : M A) : M (option A) := λ w,
  match m w with
  | (Ok a, w') => (Ok (Some a), w')
  | (Exn, w') => (Ok None, w')
  end.

Definition emit (e : event) : M unit := λ w, (Ok tt, log_event e w).

(** ** Collaborators *)

(** What the pass takes from outside the class: the library functions it
    calls on strings, the URL rewriting of [utils.py], and the replies of
    the git collaborator and of the build-system API, by call number. *)
Record collaborators : Type := Collaborators {
  re_search : string → string → bool;          (* bool(re.search(pattern, s)) *)
  re_sub : string → string → string → string;  (* re.sub(pattern, repl, s) *)
  urljoin : string → string → string;          (* urllib.parse.urljoin *)
  prepare_gerrit_repo_url : string → string → string;
  git : nat → git_reply;
  http_ok : nat → bool;     (* false: the request raises *)
}.

(** [sub in s] on Python strings. *)
Fixpoint str_contains (sub s : string) : bool :=
  String.prefix sub s ||
  match s with
  | EmptyString => false
  | String _ s' => str_contains sub s'
  end.

Definition nonempty {A : Type} (l : list A) : bool :=
  match l with
  | [] => false
  | _ :: _ => true
  end.

Section AlmaTestsCacher.
Context (env : collaborators).
(** [self.gerrit_username] *)
Context (gerrit_username : string).

(** *** Primitive effects *)

Definition clone_git_repo (url : string) : M unit := λ w,
  let w' := count_git (log_event (EvClone url) w) in
  match git env (git_calls w) with
  | GitRaises => (Exn, w')
  | GitReturns after => (Ok tt, set_disk after w')
  end.

Definition git_pull : M unit := λ w,
  let w' := count_git (log_event EvPull w) in
  match git env (git_calls w) with
  | GitRaises => (Exn, w')
  | GitReturns after => (Ok tt, set_disk after w')
  end.

Definition rmtree : M unit := λ w,
  (Ok tt, set_disk None (log_event EvRmtree w)).

Definition repo_dir_exists : M bool := λ w,
  (Ok (match disk w with Some _ => true | None => false end), w).

Definition glob (pattern : string) : M (list (list string * fsnode)) := λ w,
  (Ok (match disk w with
       | Some root => glob_from (path_parts pattern) [] root
       | None => []
       end),
   log_event (EvGlob pattern) w).

(** Lines 235-241: the rule file is read when it exists; without it the
    rules are empty.  Opening a directory or loading something that is not
    a rule mapping raises. *)
Definition load_test_rules (common_dir : list string) : M rule_table := λ w,
  match find_on_disk (disk w) (common_dir ++ ["test_rules.json"]) with
  | None => (Ok [], w)
  | Some (File (Some test_rules)) => (Ok test_rules, log_event EvLoadRules w)
  | Some _ => (Exn, log_event EvLoadRules w)
  end.

(** *** The request gateway

    The request itself; the permit of line 88 is taken in
    [Pooled.make_request]. *)

Definition make_request (method : string) (to : endpoint) (json : payload)
    : M unit := λ w,
  let w' := count_http (log_event (EvRequest method to json) w) in
  if http_ok env (http_calls w) then (Ok tt, w') else (Exn, w').

Definition bulk_remove_test_folders (test_folders_ids : list Z)
    (repository_id : Z) : M unit :=
  emit (EvBulkRemove test_folders_ids repository_id) ;;
  if negb (nonempty test_folders_ids) then mret tt
  else
    try_except
      (make_request "post" (bulk_remove_endpoint repository_id)
         (ids_payload test_folders_ids)) ;;
    mret tt.

Definition bulk_create_test_folders (test_folders : list Pkg.t)
    (repository_id : Z) : M unit :=
  emit (EvBulkCreate test_folders repository_id) ;;
  if negb (nonempty test_folders) then mret tt
  else
    try_except
      (make_request "post" (bulk_create_endpoint repository_id)
         (folders_payload test_folders)) ;;
    mret tt.

(** *** Folder discovery (lines 231-234 and 258-261)

    For a pattern [glob] covers and a regular expression that compiles;
    [Pooled.discover] has the exceptions. *)

Fixpoint discover_loop (regex_pattern : string)
    (found : list (list string * fsnode))
    (remote_test_folders : list string) : list string :=
  match found with
  | [] => remote_test_folders
  | (folder, _) :: rest =>
      if negb (re_search env regex_pattern (path_name folder))
      then discover_loop regex_pattern rest remote_test_folders
      else discover_loop regex_pattern rest
             (remote_test_folders ++ [path_name folder])
  end.

Definition discover (repo : Repo.t) (regex_pattern : string)
    : M (list string) :=
  found ← glob (Repo.tests_dir repo +:+ "*");
  mret (discover_loop regex_pattern found []).

(** Line 187. *)
Definition tests_prefix_of (repo : Repo.t) : string :=
  if truthy_str (Repo.tests_prefix repo)
  then default "" (Repo.tests_prefix repo)
  else "".

(** Lines 222-226. *)
Definition regex_pattern_of (repo : Repo.t) : string :=
  if truthy_str (Repo.common_test_dir_name repo)
  then "^(" +:+ tests_prefix_of repo +:+ "|"
         +:+ default "" (Repo.common_test_dir_name repo) +:+ ")"
  else "^" +:+ tests_prefix_of repo.

(** Lines 227-229, as parts below the repository directory. *)
Definition common_dir_of (repo : Repo.t) : list string :=
  if truthy_str (Repo.common_test_dir_name repo)
  then path_parts (Repo.tests_dir repo)
         ++ path_parts (default "" (Repo.common_test_dir_name repo))
  else path_parts (Repo.tests_dir repo) ++ ["common"].

(** Lines 190-194: [repo.url] is rewritten in place. *)
Definition with_gerrit_url (repo : Repo.t) : Repo.t :=
  if str_contains "gerrit" (Repo.url repo)
  then Repo.with_url
         (prepare_gerrit_repo_url env (Repo.url repo) gerrit_username) repo
  else repo.

(** *** Acquiring the checkout (lines 197-221)

    [false] is the early [return] after a clone that raised; an exception
    of [git_pull] is not caught. *)
Definition acquire_checkout (repo : Repo.t) : M bool :=
  dir_exists ← repo_dir_exists;
  if negb dir_exists then
    cloned ← try_except (clone_git_repo (Repo.url repo));
    mret (match cloned with Some _ => true | None => false end)
  else
    git_pull ;; mret true.

(** *** Discovery, rule file and first compilation (lines 222-242)

    Returns the discovered folders, the rule mapping, and what the rule
    compiler makes of them. *)
Definition scan_checkout (repo : Repo.t)
    : M (list string * rule_table * (rule_table * list string)) :=
  remote_test_folders ← discover repo (regex_pattern_of repo);
  test_rules ← load_test_rules (common_dir_of repo);
  mret (remote_test_folders, test_rules,
        get_compiled_test_rules test_rules remote_test_folders).

(** *** Self-heal (lines 243-268)

    [None] is the early [return] after a re-clone that raised; otherwise
    the discovered folders and compiled rules the diff works on.  The rule
    mapping is the one read before the repair. *)
Definition self_heal (repo : Repo.t) (test_rules : rule_table)
    (remote_test_folders : list string) (compiled_test_rules : rule_table)
    (missing_folders : list string)
    : M (option (list string * rule_table)) :=
  if nonempty missing_folders then
    rmtree ;;
    recloned ← try_except (clone_git_repo (Repo.url repo));
    match recloned with
    | None => mret None
    | Some _ =>
        remote_test_folders ← discover repo (regex_pattern_of repo);
        let '(compiled_test_rules, missing_folders) :=
          get_compiled_test_rules test_rules remote_test_folders in
        mret (Some (remote_test_folders, compiled_test_rules))
    end
  else mret (Some (remote_test_folders, compiled_test_rules)).

(** *** Lines 196-268 together *)
Definition process_repo_checkout (repo : Repo.t)
    : M (option (list string * rule_table)) :=
  acquired ← acquire_checkout repo;
  if negb acquired then mret None
  else
    '(remote_test_folders, test_rules,
      (compiled_test_rules, missing_folders)) ← scan_checkout repo;
    self_heal repo test_rules remote_test_folders compiled_test_rules
      missing_folders.

(** *** The diff (lines 269-304) *)

(** The dict comprehension of line 269: a later package of the same folder
    name replaces an earlier one. *)
Definition test_folders_mapping_of (packages : list Pkg.t)
    : gmap string Pkg.t :=
  foldl (λ m test, <[Pkg.folder_name test := test]> m) ∅ packages.

(** Lines 276-287. *)
Definition new_test_of_folder (repo : Repo.t) (remote_test_folder : string)
    : Pkg.t :=
  Pkg.Build None remote_test_folder
    (re_sub env ("^" +:+ tests_prefix_of repo) "" remote_test_folder)
    (urljoin env (urljoin env (Repo.url repo) (Repo.tests_dir repo))
       remote_test_folder)
    None.

(** Lines 294-302. *)
Definition new_test_of_rule (repo : Repo.t) (pattern target_dir : string)
    : Pkg.t :=
  Pkg.Build None target_dir pattern
    (urljoin env (urljoin env (Repo.url repo) (Repo.tests_dir repo))
       target_dir)
    (Some pattern).

(** Lines 272-289.  A package object is always truthy, so
    [if existent_test] tests the presence of the key.  The lookup table is
    the one built before the loop; [new_test_folders] and [repo.packages]
    grow. *)
Fixpoint folders_loop (repo : Repo.t)
    (test_folders_mapping : gmap string Pkg.t)
    (remote_test_folders : list string)
    (new_test_folders packages : list Pkg.t) : list Pkg.t * list Pkg.t :=
  match remote_test_folders with
  | [] => (new_test_folders, packages)
  | remote_test_folder :: rest =>
      match test_folders_mapping !! remote_test_folder with
      | Some existent_test =>
          folders_loop repo test_folders_mapping rest
            new_test_folders packages
      | None =>
          let new_test := new_test_of_folder repo remote_test_folder in
          folders_loop repo test_folders_mapping rest
            (new_test_folders ++ [new_test]) (packages ++ [new_test])
      end
  end.

(** Lines 290-304. *)
Fixpoint rules_loop (repo : Repo.t)
    (test_folders_mapping : gmap string Pkg.t)
    (compiled_test_rules : rule_table)
    (new_test_folders packages : list Pkg.t) : list Pkg.t * list Pkg.t :=
  match compiled_test_rules with
  | [] => (new_test_folders, packages)
  | (pattern, target_dir) :: rest =>
      match test_folders_mapping !! target_dir with
      | Some existent_test =>
          rules_loop repo test_folders_mapping rest
            new_test_folders packages
      | None =>
          let new_test := new_test_of_rule repo pattern target_dir in
          rules_loop repo test_folders_mapping rest
            (new_test_folders ++ [new_test]) (packages ++ [new_test])
      end
  end.

(** The comprehension of lines 307-312. *)
Definition vanished_ids (packages : list Pkg.t)
    (remote_test_folders : list string) : list Z :=
  omap (λ existent_test,
          if negb (py_in (Pkg.folder_name existent_test) remote_test_folders)
             && truthy_int (Pkg.id existent_test)
          then Pkg.id existent_test else None)
       packages.

(** The comprehension of lines 317-321. *)
Definition all_ids (packages : list Pkg.t) : list Z :=
  omap (λ existent_test,
          if truthy_int (Pkg.id existent_test)
          then Pkg.id existent_test else None)
       packages.

(** *** Diff and apply (lines 269-324)

    Returns the repository object as the pass leaves it: the new records
    were appended to [repo.packages]. *)
Definition process_repo_sync (repo : Repo.t)
    (remote_test_folders : list string) (compiled_test_rules : rule_table)
    : M Repo.t :=
  let test_folders_mapping := test_folders_mapping_of (Repo.packages repo) in
  let '(new_test_folders, packages) :=
    folders_loop repo test_folders_mapping remote_test_folders
      [] (Repo.packages repo) in
  let '(new_test_folders, packages) :=
    rules_loop repo test_folders_mapping compiled_test_rules
      new_test_folders packages in
  let repo := Repo.with_packages packages repo in
  bulk_create_test_folders new_test_folders (Repo.id repo) ;;
  bulk_remove_test_folders
    (vanished_ids (Repo.packages repo) remote_test_folders)
    (Repo.id repo) ;;
  (if negb (nonempty remote_test_folders) && nonempty (Repo.packages repo)
   then bulk_remove_test_folders (all_ids (Repo.packages repo))
          (Repo.id repo)
   else mret tt) ;;
  mret repo.

(** *** One pass over one repository (lines 185-324)

    The body of the pass, run to its end; [Pooled.process_repo] puts it
    under the permit of line 184. *)
Definition process_repo (repo : Repo.t) : M Repo.t :=
  let repo := with_gerrit_url repo in
  checkout ← process_repo_checkout repo;
  match checkout with
  | None => mret repo
  | Some (remote_test_folders, compiled_test_rules) =>
      process_repo_sync repo remote_test_folders compiled_test_rules
  end.

End AlmaTestsCacher.

(** ** Concrete collaborators, for running the model

    Stand-ins for the Python functions, for the examples: [re.search] and
    [re.sub] on patterns [^lit] and [^(lit|lit)] whose literals hold no
    regex metacharacter, and [urljoin] on URLs and references without
    query, fragment, parameters, brackets or control characters, with a
    scheme, if any, in lower case. *)

Fixpoint strip_prefix (p s : string) : option string :=
  match p, s with
  | EmptyString, _ => Some s
  | String a p', String b s' =>
      if Ascii.eqb a b then strip_prefix p' s' else None
  | String _ _, EmptyString => None
  end.

(** The text before and after the first occurrence of [c]. *)
Fixpoint cut_at (c : ascii) (s : string) : option (string * string) :=
  match s with
  | EmptyString => None
  | String d s' =>
      if Ascii.eqb c d then Some (EmptyString, s')
      else match cut_at c s' with
           | Some (l, r) => Some (String d l, r)
           | None => None
           end
  end.

(** The alternatives of [^lit] or [^(lit|lit)]. *)
Definition literal_alternatives (pattern : string) : list string :=
  match strip_prefix "^(" pattern with
  | Some body =>
      match cut_at "|"%char body with
      | Some (l, r) =>
          match cut_at ")"%char r with
          | Some (r', _) => [l; r']
          | None => [l; r]
          end
      | None => [body]
      end
  | None => [default pattern (strip_prefix "^" pattern)]
  end.

Definition literal_search (pattern s : string) : bool :=
  existsb (λ lit, String.prefix lit s) (literal_alternatives pattern).

Definition literal_sub (pattern repl s : string) : string :=
  match strip_prefix (default pattern (strip_prefix "^" pattern)) s with
  | Some rest => repl +:+ rest
  | None => s
  end.

(** The characters of a URL scheme. *)
Definition scheme_char (c : ascii) : bool :=
  let n := nat_of_ascii c in
  ((97 <=? n) && (n <=? 122))%nat || ((65 <=? n) && (n <=? 90))%nat
  || ((48 <=? n) && (n <=? 57))%nat
  || Ascii.eqb c "+" || Ascii.eqb c "-" || Ascii.eqb c ".".

Definition letter (c : ascii) : bool :=
  let n := nat_of_ascii c in
  ((97 <=? n) && (n <=? 122))%nat || ((65 <=? n) && (n <=? 90))%nat.

(** [urlsplit]: the scheme ([default] without one), the network location
    after ["//"] and the path. *)
Definition simple_split (default url : string) : string * string * string :=
  let '(scheme, rest) :=
    match cut_at ":"%char url with
    | Some (String c pre, post) =>
        if letter c && forallb scheme_char (String.list_ascii_of_string pre)
        then (String c pre, post) else (default, url)
    | _ => (default, url)
    end in
  match strip_prefix "//" rest with
  | Some after =>
      match cut_at "/"%char after with
      | Some (netloc, path) => (scheme, netloc, "/" +:+ path)
      | None => (scheme, after, "")
      end
  | None => (scheme, "", rest)
  end.

(** The schemes [urljoin] resolves a reference against
    ([urllib.parse.uses_relative]); all of them take a network location. *)
Definition uses_relative : list string :=
  [""; "ftp"; "http"; "gopher"; "nntp"; "imap"; "wais"; "file"; "https";
   "shttp"; "mms"; "prospero"; "rtsp"; "rtspu"; "sftp"; "svn"; "svn+ssh";
   "ws"; "wss"].

(** [urlunsplit] of a scheme of [uses_relative], a location and a path. *)
Definition simple_unsplit (scheme netloc path : string) : string :=
  let url :=
    if nonempty (String.list_ascii_of_string netloc)
       || (nonempty (String.list_ascii_of_string scheme)
           && negb (String.prefix "//" path))
    then "//" +:+ netloc
         +:+ (if nonempty (String.list_ascii_of_string path)
                 && negb (String.prefix "/" path)
              then "/" +:+ path else path)
    else path in
  if nonempty (String.list_ascii_of_string scheme)
  then scheme +:+ ":" +:+ url else url.

(** [segments[1:-1] = filter(None, segments[1:-1])] *)
Definition drop_empty_inside (segments : list string) : list string :=
  match segments with
  | first :: (_ :: _) as rest =>
      first :: filter (λ seg, seg ≠ "") (removelast rest)
        ++ [default "" (last rest)]
  | _ => segments
  end.

(** The loop over the segments: [..] drops the segment before it, [.] is
    skipped. *)
Definition resolve_dots (segments : list string) : list string :=
  foldl (λ resolved seg,
           if decide (seg = "..") then removelast resolved
           else if decide (seg = ".") then resolved
           else resolved ++ [seg])
        [] segments.

Fixpoint join_slash (segments : list string) : string :=
  match segments with
  | [] => ""
  | [seg] => seg
  | seg :: rest => seg +:+ "/" +:+ join_slash rest
  end.

(** [urllib.parse.urljoin]. *)
Definition simple_urljoin (base ref : string) : string :=
  if negb (nonempty (String.list_ascii_of_string base)) then ref
  else if negb (nonempty (String.list_ascii_of_string ref)) then base
  else
    let '(bscheme, bnetloc, bpath) := simple_split "" base in
    let '(scheme, netloc, path) := simple_split bscheme ref in
    if negb (bool_decide (scheme = bscheme))
       || negb (bool_decide (scheme ∈ uses_relative))
    then ref
    else if nonempty (String.list_ascii_of_string netloc)
    then simple_unsplit scheme netloc path
    else if negb (nonempty (String.list_ascii_of_string path))
    then simple_unsplit scheme bnetloc bpath
    else
      let base_parts := split_slash bpath in
      let base_parts :=
        if decide (last base_parts = Some "") then base_parts
        else removelast base_parts in
      let segments :=
        if String.prefix "/" path then split_slash path
        else drop_empty_inside (base_parts ++ split_slash path) in
      let resolved := resolve_dots segments in
      let resolved :=
        if decide (last segments = Some "." ∨ last segments = Some "..")
        then resolved ++ [""] else resolved in
      let joined := join_slash resolved in
      simple_unsplit scheme bnetloc
        (if nonempty (String.list_ascii_of_string joined)
         then joined else "/").

(** Collaborators with these functions, a git collaborator that answers
    [replies] in turn (and raises once they are used up) and an API that
    accepts every request. *)
Definition simple_env (replies : list git_reply) : collaborators :=
  Collaborators literal_search literal_sub simple_urljoin
    (λ url username, username +:+ "@" +:+ url)
    (λ n, default GitRaises (replies !! n))
    (λ _, true).

Definition fresh_world : world := World None 0 0 [].

Definition run {A : Type} (m : M A) : outcome A * list event :=
  let r := m fresh_world in (r.1, trace r.2).

(** ** Reading a trace *)

(** The arguments of the calls of [bulk_create_test_folders], in order. *)
Definition bulk_create_calls (t : list event) : list (list Pkg.t) :=
  omap (λ e, match e with EvBulkCreate fs _ => Some fs | _ => None end) t.

(** The arguments of the calls of [bulk_remove_test_folders], in order. *)
Definition bulk_remove_calls (t : list event) : list (list Z) :=
  omap (λ e, match e with EvBulkRemove ids _ => Some ids | _ => None end) t.

(** The requests that reached [make_request]. *)
Definition requests (t : list event) : list (string * endpoint * payload) :=
  omap (λ e, match e with
             | EvRequest method to json => Some (method, to, json)
             | _ => None
             end) t.

(** How often an effect occurs. *)
Definition count_events (P : event → bool) (t : list event) : nat :=
  length (filter (λ e, P e = true) t).

Definition is_rmtree (e : event) : bool :=
  match e with EvRmtree => true | _ => false end.

Definition is_clone (e : event) : bool :=
  match e with EvClone _ => true | _ => false end.

Definition is_pull (e : event) : bool :=
  match e with EvPull => true | _ => false end.

Definition is_glob (e : event) : bool :=
  match e with EvGlob _ => true | _ => false end.

(** The effects of one bulk call, as a function of its argument. *)
Definition create_events (test_folders : list Pkg.t) (repository_id : Z)
    : list event :=
  EvBulkCreate test_folders repository_id ::
  (if nonempty test_folders
   then [EvRequest "post" (bulk_create_endpoint repository_id)
           (folders_payload test_folders)]
   else []).

Definition remove_events (test_folders_ids : list Z) (repository_id : Z)
    : list event :=
  EvBulkRemove test_folders_ids repository_id ::
  (if nonempty test_folders_ids
   then [EvRequest "post" (bulk_remove_endpoint repository_id)
           (ids_payload test_folders_ids)]
   else []).

(** The folder names of a package list. *)
Definition folder_names (packages : list Pkg.t) : list string :=
  Pkg.folder_name <$> packages.

(** ** The plan of a pass, as functions of what it sees *)

(** One new record for each discovered folder that no known package has. *)
Definition new_from_folders (env : collaborators) (repo : Repo.t)
    (known : list Pkg.t) (remote_test_folders : list string) : list Pkg.t :=
  new_test_of_folder env repo
    <$> filter (λ f, f ∉ folder_names known) remote_test_folders.

(** One new record for each compiled rule whose target no known package
    has. *)
Definition new_from_rules (env : collaborators) (repo : Repo.t)
    (known : list Pkg.t) (compiled_test_rules : rule_table) : list Pkg.t :=
  (λ r, new_test_of_rule env repo r.1 r.2)
    <$> filter (λ r, r.2 ∉ folder_names known) compiled_test_rules.

Definition new_records (env : collaborators) (repo : Repo.t)
    (remote_test_folders : list string) (compiled_test_rules : rule_table)
    : list Pkg.t :=
  new_from_folders env repo (Repo.packages repo) remote_test_folders
  ++ new_from_rules env repo (Repo.packages repo) compiled_test_rules.

(** The effects of lines 305-323. *)
Definition sync_events (env : collaborators) (repo : Repo.t)
    (remote_test_folders : list string) (compiled_test_rules : rule_table)
    : list event :=
  let new_test_folders :=
    new_records env repo remote_test_folders compiled_test_rules in
  let packages := Repo.packages repo ++ new_test_folders in
  create_events new_test_folders (Repo.id repo)
  ++ remove_events (vanished_ids packages remote_test_folders) (Repo.id repo)
  ++ (if negb (nonempty remote_test_folders) && nonempty packages
      then remove_events (all_ids packages) (Repo.id repo)
      else []).

(** What discovery finds when the repository directory is in state [d]. *)
Definition discovered_on_disk (env : collaborators) (repo : Repo.t)
    (d : option fsnode) : list string :=
  discover_loop env (regex_pattern_of repo)
    (match d with
     | Some root => glob_from (path_parts (Repo.tests_dir repo +:+ "*")) [] root
     | None => []
     end) [].

(** The effects of lines 196-268: git and the file system. *)
Definition is_checkout_event (e : event) : bool :=
  match e with
  | EvClone _ | EvPull | EvRmtree | EvGlob _ | EvLoadRules => true
  | EvBulkCreate _ _ | EvBulkRemove _ _ | EvRequest _ _ _ => false
  end.

(** A computation that only appends effects of one kind to the trace. *)
Definition only_emits (P : event → bool) {A : Type} (m : M A) : Prop :=
  ∀ w, ∃ evs, trace (m w).2 = trace w ++ evs ∧ Forall (λ e, P e = true) evs.

(** The effects a computation adds when started in [w]. *)
Definition events_of {A : Type} (m : M A) (w : world) : list event :=
  drop (length (trace w)) (trace (m w).2).

(** The records of a list that carry a given folder name. *)
Definition records_of_folder (f : string) (ps : list Pkg.t) : list Pkg.t :=
  filter (λ p, Pkg.folder_name p = f) ps.

(** "Exactly one new record per element of (D ∪ R) not already in K":
    every such folder name is carried by one record of [created], and no
    other folder name by any. *)
Definition one_record_per_new_folder (D R : list string)
    (known created : list Pkg.t) : Prop :=
  ∀ f, length (records_of_folder f created) =
       if decide ((f ∈ D ∨ f ∈ R) ∧ f ∉ folder_names known)
       then 1%nat else 0%nat.

(** "The immediate children of the tests root that are directories and
    whose name matches the pattern": the tests root is what the parts of
    [tests_dir] lead to from the checkout [root]. *)
Definition directories_matching (env : collaborators) (repo : Repo.t)
    (root : fsnode) (D : list string) : Prop :=
  ∀ name,
    name ∈ D ↔
    ∃ here es entries,
      (here, Dir es) ∈ glob_from (path_parts (Repo.tests_dir repo)) [] root
      ∧ (name, Dir entries) ∈ es
      ∧ re_search env (regex_pattern_of repo) name = true.

(** ** Example checkouts and repositories *)

(** [tests/] holds one test folder and the common folder with a rule file
    whose only rule targets that folder. *)
Definition rules_checkout : fsnode :=
  Dir [("tests",
        Dir [("test-a", Dir []);
             ("common",
              Dir [("test_rules.json",
                    File (Some [("^pkg-a.*", "test-a")]))])])].

Definition rules_repo (known : list Pkg.t) : Repo.t :=
  Repo.Build 7 "qa" "https://git.example.org/qa/tests.git" "tests/"
    (Some "test-") None known.

(** [qa/] holds two test folders, a stray file, and the configured common
    folder [shared] with two rules for [test-b]. *)
Definition shared_checkout : fsnode :=
  Dir [("qa",
        Dir [("test-a", Dir []);
             ("test-b", Dir []);
             ("test-notes.txt", File None);
             ("shared",
              Dir [("test_rules.json",
                    File (Some [("^libb-.*", "test-b");
                                ("^b-utils$", "test-b")]))])])].

Definition shared_repo (known : list Pkg.t) : Repo.t :=
  Repo.Build 12 "qa-shared" "https://git.example.org/qa/shared.git" "qa/"
    (Some "test-") (Some "shared") known.


(** Two persisted packages: [test-a] is in the example checkouts,
    [test-gamma] is not. *)
Definition known_a_gamma : list Pkg.t :=
  [Pkg.Build (Some 1%Z) "test-a" "a"
     "https://git.example.org/qa/tests/test-a" None;
   Pkg.Build (Some 2%Z) "test-gamma" "gamma"
     "https://git.example.org/qa/tests/test-gamma" None].

(** What the API knows after the first pass over [rules_checkout]: the two
    records of [test-a], now with identifiers. *)
Definition known_after_first_pass : list Pkg.t :=
  [Pkg.Build (Some 1%Z) "test-a" "a"
     "https://git.example.org/qa/tests/test-a" None;
   Pkg.Build (Some 2%Z) "test-a" "^pkg-a.*"
     "https://git.example.org/qa/tests/test-a" (Some "^pkg-a.*")].

(** A world in which the repository directory already holds a checkout. *)
Definition checked_out_world (checkout : fsnode) : world :=
  World (Some checkout) 0 0 [].

(** A checkout whose rule file names a folder, [test-z], that is not
    there. *)
Definition stale_checkout : fsnode :=
  Dir [("tests",
        Dir [("test-a", Dir []);
             ("common",
              Dir [("test_rules.json",
                    File (Some [("^zlib-.*", "test-z");
                                ("^pkg-a.*", "test-a")]))])])].


(** The scenarios of the specification: [tests/] with the given folders,
    prefix [test-], no rule file. *)
Definition scenario_checkout (folders : list string) : fsnode :=
  Dir [("tests", Dir ((λ f, (f, Dir [])) <$> folders))].

Definition scenario_repo (known : list Pkg.t) : Repo.t :=
  Repo.Build 3 "scenario" "https://git.example.org/qa/scenario.git" "tests/"
    (Some "test-") None known.

Definition known_alpha : Pkg.t :=
  Pkg.Build (Some 1%Z) "test-alpha" "alpha"
    "https://git.example.org/qa/tests/test-alpha" None.

Definition known_gamma : Pkg.t :=
  Pkg.Build (Some 2%Z) "test-gamma" "gamma"
    "https://git.example.org/qa/tests/test-gamma" None.

(** ** Further readings of a pass *)

Definition is_load_rules (e : event) : bool :=
  match e with EvLoadRules => true | _ => false end.

(** What is at the place of the rule file cannot be read as a rule
    mapping: a directory, or a file on which reading the rules raises. *)
Definition unreadable_rules (n : fsnode) : Prop :=
  match n with
  | File (Some _) => False
  | _ => True
  end.


(** A checkout without any test folder, whose rule file still names
    one. *)
Definition rules_only_checkout (rules : rule_table) : fsnode :=
  Dir [("tests",
        Dir [("common", Dir [("test_rules.json", File (Some rules))])])].

(** A repository hosted on a gerrit server. *)
Definition gerrit_repo (known : list Pkg.t) : Repo.t :=
  Repo.Build 9 "review" "ssh://gerrit.example.org:29418/qa/tests" "tests/"
    (Some "test-") None known.

(** ** The request gateway and the scheduler (lines 27-120 and 326-345)

    The session cache, [make_request] with its session, the listing of the
    repositories and the loop of [run], in explicit state-passing style.
    The pass of the sections above reaches this layer through
    [make_request] only, of which it needs no more than the request and
    whether it raises. *)
Module Gateway.

(** A JSON value, as [response.json()] returns it. *)
#[warnings="-register-all"]
Inductive json : Type :=
  | JNull
  | JBool (b : bool)
  | JNum (z : Z)
  | JStr (s : string)
  | JArr (items : list json)
  | JObj (members : list (string * json)).

(** What the API does with a request: the connection fails, or a response
    comes back with a status ([true]: success), a text and, when the text
    is JSON, its value. *)
Inductive net_reply : Type :=
  | Refused
  | Answered (status_ok : bool) (text : string) (body : option json).

(** A session is known by the number under which it was opened. *)
Inductive net_event : Type :=
  | NetOpen (session : nat) (base_url : string)
      (* aiohttp.ClientSession(base_url) *)
  | NetRequest (session : nat) (method url : string)
      (headers : option (list (string * string))) (json : option payload)
      (* session.request(method=..., url=..., headers=..., json=...) *)
  | NetClose (session : nat) (raised : bool)   (* session.close() *)
  | NetSleep (seconds : Z).                    (* asyncio.sleep(seconds) *)

(** [self.session_mapping] in insertion order, the number of sessions and
    requests so far, and the effects so far, oldest first. *)
Record net : Type := Net {
  session_mapping : list (string * nat);
  opened : nat;
  sent : nat;
  net_trace : list net_event;
}.

(** The fields [__init__] stores (lines 37-46). *)
Record cacher : Type := Cacher {
  bs_jwt_token : string;
  sleep_timeout : Z;
  bs_api_url : string;
}.

(** Line 40. *)
Definition bs_headers (self : cacher) : list (string * string) :=
  [("Authorization", "Bearer " +:+ bs_jwt_token self)].

(** What this layer takes from outside: [urlsplit] (scheme, netloc, path),
    the replies of the API by request number, whether closing a session
    raises, the validation of a record by [TestRepository], and the
    concurrent fan-out of the passes, which may do anything to the state
    and may raise. *)
Record gateway_env : Type := GatewayEnv {
  urlsplit : string → string * string * string;
  reply : nat → net_reply;
  close_raises : nat → bool;
  validate : list (string * json) → option Repo.t;
  fan_out : list Repo.t → net → outcome unit * net;
}.

Definition log_net (e : net_event) (g : net) : net :=
  Net (session_mapping g) (opened g) (sent g) (net_trace g ++ [e]).

(** [str.lower] on ASCII letters. *)
Definition lower_ascii (c : ascii) : ascii :=
  let n := nat_of_ascii c in
  if (65 <=? n)%nat && (n <=? 90)%nat then ascii_of_nat (n + 32) else c.

Fixpoint lower (s : string) : string :=
  match s with
  | EmptyString => EmptyString
  | String c s' => String (lower_ascii c) (lower s')
  end.

(** [self.session_mapping[base_url]], if the key is there. *)
Fixpoint session_of (base_url : string) (mapping : list (string * nat))
    : option nat :=
  match mapping with
  | [] => None
  | (url, session) :: rest =>
      if decide (url = base_url) then Some session
      else session_of base_url rest
  end.

(** Lines 72-77. *)
Definition get_session (base_url : string) (g : net) : nat * net :=
  match session_of base_url (session_mapping g) with
  | None =>
      let session := opened g in
      (session,
       Net (session_mapping g ++ [(base_url, session)]) (S (opened g))
         (sent g) (net_trace g ++ [NetOpen session base_url]))
  | Some session => (session, g)
  end.

Section Methods.
Context (genv : gateway_env) (env : collaborators) (self : cacher).

(** Lines 61-70: the loop over [session_mapping.items()]; a close that
    raises is logged and the loop goes on. *)
Fixpoint close_loop (items : list (string * nat)) (g : net) : net :=
  match items with
  | [] => g
  | (url, session) :: rest =>
      close_loop rest (log_net (NetClose session (close_raises genv session)) g)
  end.

Definition close_sessions (g : net) : outcome unit * net :=
  let g' := close_loop (session_mapping g) g in
  (Ok tt, Net [] (opened g') (sent g') (net_trace g')).

(** Lines 79-102, with the permit of line 88 granted: the gateway is
    followed here while no pass holds the pool. *)
Definition make_request (method endpoint : string)
    (headers : option (list (string * string))) (return_text : bool)
    (json_arg : option payload) (g : net) : outcome (string + json) * net :=
  let '(scheme, netloc, path) := urlsplit genv endpoint in
  let '(session, g1) := get_session (scheme +:+ "://" +:+ netloc) g in
  let g2 :=
    Net (session_mapping g1) (opened g1) (S (sent g1))
      (net_trace g1 ++ [NetRequest session (lower method) path headers json_arg]) in
  match reply genv (sent g1) with
  | Refused => (Exn, g2)
  | Answered status_ok text body =>
      if negb status_ok then (Exn, g2)
      else if return_text then (Ok (inl text), g2)
      else match body with
           | Some j => (Ok (inr j), g2)
           | None => (Exn, g2)
           end
  end.

(** [for test_repo in response]: what iterating a JSON value yields, if it
    can be iterated. *)
Definition iterate (j : json) : option (list json) :=
  match j with
  | JArr items => Some items
  | JObj members => Some (JStr <$> members.*1)
  | JStr s => Some ((λ c, JStr (String c EmptyString)) <$> String.list_ascii_of_string s)
  | JNull | JBool _ | JNum _ => None
  end.

(** Lines 118-119: [TestRepository] is built from each item, which must be
    a mapping and must validate; [None] is the exception raised
    otherwise. *)
Fixpoint repositories_loop (items : list json) (test_repos : list Repo.t)
    : option (list Repo.t) :=
  match items with
  | [] => Some test_repos
  | JObj members :: rest =>
      match validate genv members with
      | Some test_repo => repositories_loop rest (test_repos ++ [test_repo])
      | None => None
      end
  | _ :: _ => None
  end.

(** Lines 104-120. *)
Definition get_test_repositories (g : net) : outcome (list Repo.t) * net :=
  match make_request "get"
          (urljoin env (bs_api_url self) "/api/v1/test_repositories/")
          (Some (bs_headers self)) false None g with
  | (Exn, g1) => (Ok [], g1)
  | (Ok (inl text), g1) =>
      match iterate (JStr text) ≫= (λ items, repositories_loop items []) with
      | Some test_repos => (Ok test_repos, g1)
      | None => (Exn, g1)
      end
  | (Ok (inr response), g1) =>
      match iterate response ≫= (λ items, repositories_loop items []) with
      | Some test_repos => (Ok test_repos, g1)
      | None => (Exn, g1)
      end
  end.

(** Lines 329-343: one turn of the loop of [run].  An exception of the
    listing or of the fan-out is logged; the sessions are closed in the
    [finally]; then the loop sleeps. *)
Definition run_iteration (g : net) : net :=
  let '(repos, g1) := get_test_repositories g in
  let g2 :=
    match repos with
    | Ok repos => (fan_out genv repos g1).2
    | Exn => g1
    end in
  let g3 := (close_sessions g2).2 in
  log_net (NetSleep (sleep_timeout self)) g3.

(** Lines 326-345, with the number of turns bounded by [fuel]: [None] when
    the loop is still running once the fuel is used up. *)
Fixpoint run (fuel : nat) (dry_run : bool) (g : net) : option net :=
  match fuel with
  | O => None
  | S fuel' =>
      let g' := run_iteration g in
      if dry_run then Some g' else run fuel' dry_run g'
  end.

End Methods.

(** The cache is well formed: one entry per base URL, one session per
    entry, and only sessions that were opened. *)
Definition cache_wf (g : net) : Prop :=
  NoDup (session_mapping g).*1
  ∧ NoDup (session_mapping g).*2
  ∧ Forall (λ session, (session < opened g)%nat) (session_mapping g).*2.

Definition is_open (e : net_event) : bool :=
  match e with NetOpen _ _ => true | _ => false end.

Definition is_sleep (e : net_event) : bool :=
  match e with NetSleep _ => true | _ => false end.

(** A stand-in for [urlsplit] on URLs of the form [scheme://netloc/path]. *)
Definition simple_urlsplit (url : string) : string * string * string :=
  match cut_at ":"%char url with
  | Some (scheme, rest) =>
      let rest := default rest (strip_prefix "//" rest) in
      match cut_at "/"%char rest with
      | Some (netloc, path) => (scheme, netloc, "/" +:+ path)
      | None => (scheme, rest, "")
      end
  | None => ("", "", url)
  end.

Definition fresh : net := Net [] 0 0 [].

End Gateway.

(** ** The pass under the request pool

    The pass above is the pass as nothing outside [cacher.py] gets in its
    way: every permit of [self.requests_limit] is granted at once, the glob
    pattern is a relative pattern of literal characters, ["*"] and ["?"],
    the paths stay inside the checkout, and no library function raises.
    [Pooled] is the same pass without these assumptions:
    - the pool of lines 37, 88 and 184.  [process_repo] takes a permit for
      its whole body and [make_request] takes another one for each request;
      the pool is an [asyncio.Semaphore], which does not know its holder,
      so the pass needs two permits at once to send anything.  A pass that
      is refused a permit waits; when the permit never comes it is
      [Stalled] - it neither returns nor raises, and keeps what it holds;
    - [Path.glob] raises on an absolute pattern, and what it makes of a
      character class, a recursive wildcard or a [..] part is left to the
      library;
    - [re.search] and [re.sub] raise on a pattern that does not compile,
      [urljoin] and the URL rewriting of [utils.py] may raise;
    - a rule file whose path leaves the checkout is whatever the library
      finds there. *)
Module Pooled.

(** How a computation ends: it returns or raises ([Done]), or it waits for
    a permit that never comes. *)
Inductive course (A : Type) : Type :=
  | Done (o : outcome A)
  | Stalled.
Arguments Done {A} o.
Arguments Stalled {A}.

(** What the pass takes from outside on top of [collaborators]:
    - [permit n h]: whether acquisition number [n] of the pool by this pass,
      made while the pass holds [h] permits, is granted (at once or after a
      wait); [false]: it never is;
    - [re_error p]: [re] rejects the pattern [p] ([re.error]);
    - [urljoin_error base ref]: [urljoin(base, ref)] raises ([ValueError]);
    - [gerrit_error url user]: [prepare_gerrit_repo_url(url, user)] raises;
    - [invalid_record p]: [PackageTestRepository] refuses the field values
      of [p] (the validation of [models.py]);
    - [pathlib_glob d pattern]: [Path.glob] on a pattern with a character
      class, a recursive wildcard or a [..] part, in the checkout [d];
    - [elsewhere tests_dir common]: what is at the place of the rule file
      when [Path(repo_dir, tests_dir, common)] leaves the checkout. *)
Record library : Type := Library {
  permit : nat → nat → bool;
  re_error : string → bool;
  urljoin_error : string → string → bool;
  gerrit_error : string → string → bool;
  invalid_record : Pkg.t → bool;
  pathlib_glob :
    option fsnode → string → outcome (list (list string * fsnode));
  elsewhere : string → string → option fsnode;
}.

(** The state of the pass: the world of the sequential pass, the number of
    acquisitions of the pool the pass has made, and the permits it holds. *)
Record state : Type := State {
  world_of : world;
  pool_calls : nat;
  held : nat;
}.

Definition P (A : Type) : Type := state → course A * state.

#[global] Instance P_ret : MRet P := λ A a s, (Done (Ok a), s).

#[global] Instance P_bind : MBind P := λ A B f m s,
  match m s with
  | (Done (Ok a), s') => f a s'
  | (Done Exn, s') => (Done Exn, s')
  | (Stalled, s') => (Stalled, s')
  end.

(** A step of the sequential pass, which never waits. *)
Definition lift {A : Type} (m : M A) : P A := λ s,
  let r := m (world_of s) in
  (Done r.1, State r.2 (pool_calls s) (held s)).

Definition raise {A : Type} : P A := λ s, (Done Exn, s).

(** [try: m except Exception: ...]: a wait is no exception. *)
Definition try_except {A : Type} (m : P A) : P (option A) := λ s,
  match m s with
  | (Done (Ok a), s') => (Done (Ok (Some a)), s')
  | (Done Exn, s') => (Done (Ok None), s')
  | (Stalled, s') => (Stalled, s')
  end.

(** [Path.is_absolute] of a POSIX path or pattern. *)
Definition absolute (path : string) : bool :=
  match path with
  | String c _ => Ascii.eqb c "/"%char
  | EmptyString => false
  end.

Definition has_dotdot (path : string) : bool :=
  bool_decide (".." ∈ split_slash path).

(** A pattern [glob_from] and [fnmatch] do not cover. *)
Definition special (pattern : string) : bool :=
  str_contains "[" pattern || str_contains "**" pattern || has_dotdot pattern.

(** The name of the common folder (lines 223-229). *)
Definition common_name_of (repo : Repo.t) : string :=
  if truthy_str (Repo.common_test_dir_name repo)
  then default "" (Repo.common_test_dir_name repo)
  else "common".

(** [Path(repo_dir, tests_dir, common)] is not below [repo_dir]: a part
    is absolute (and replaces what comes before it) or climbs with [..]. *)
Definition leaves_checkout (repo : Repo.t) : bool :=
  absolute (Repo.tests_dir repo) || has_dotdot (Repo.tests_dir repo)
  || absolute (common_name_of repo) || has_dotdot (common_name_of repo).

Section Pass.
Context (env : collaborators) (lib : library).
(** [self.gerrit_username] *)
Context (gerrit_username : string).

(** *** The pool *)

(** [async with self.requests_limit: body].  The permit is given back
    however [body] ends; a body that waits keeps it. *)
Definition with_permit {A : Type} (body : P A) : P A := λ s,
  if permit lib (pool_calls s) (held s) then
    match body (State (world_of s) (S (pool_calls s)) (S (held s))) with
    | (Done o, s') =>
        (Done o, State (world_of s') (pool_calls s') (pred (held s')))
    | (Stalled, s') => (Stalled, s')
    end
  else (Stalled, s).

(** Lines 79-102: the request of the sequential pass, under a permit of
    its own.  [EvRequest] is logged once the permit is there.  (The
    endpoint is [urljoin(self.bs_api_url, path)], evaluated before the
    call; it raises only on a base URL on which the listing of line 109
    raises too, so not for a repository that came from the listing.) *)
Definition make_request (method : string) (to : endpoint) (json : payload)
    : P unit :=
  with_permit (lift (make_request env method to json)).

(** Lines 137-155. *)
Definition bulk_remove_test_folders (test_folders_ids : list Z)
    (repository_id : Z) : P unit :=
  lift (emit (EvBulkRemove test_folders_ids repository_id)) ;;
  if negb (nonempty test_folders_ids) then mret tt
  else
    try_except
      (make_request "post" (bulk_remove_endpoint repository_id)
         (ids_payload test_folders_ids)) ;;
    mret tt.

(** Lines 157-177. *)
Definition bulk_create_test_folders (test_folders : list Pkg.t)
    (repository_id : Z) : P unit :=
  lift (emit (EvBulkCreate test_folders repository_id)) ;;
  if negb (nonempty test_folders) then mret tt
  else
    try_except
      (make_request "post" (bulk_create_endpoint repository_id)
         (folders_payload test_folders)) ;;
    mret tt.

(** *** Folder discovery (lines 231-234 and 258-261) *)

(** [repo_dir.glob(pattern)], consumed by the [for] loop. *)
Definition glob (pattern : string) : P (list (list string * fsnode)) := λ s,
  let s' := State (log_event (EvGlob pattern) (world_of s))
              (pool_calls s) (held s) in
  if absolute pattern then (Done Exn, s')
  else if special pattern
  then (Done (pathlib_glob lib (disk (world_of s)) pattern), s')
  else
    (Done (Ok (match disk (world_of s) with
               | Some root => glob_from (path_parts pattern) [] root
               | None => []
               end)), s').

(** [re.search] compiles the pattern at the first entry: with nothing
    found, a pattern that does not compile goes unnoticed. *)
Definition discover (repo : Repo.t) (regex_pattern : string)
    : P (list string) :=
  found ← glob (Repo.tests_dir repo +:+ "*");
  if nonempty found && re_error lib regex_pattern then raise
  else mret (discover_loop env regex_pattern found []).

(** Lines 235-241. *)
Definition load_test_rules (repo : Repo.t) : P rule_table := λ s,
  let found :=
    if leaves_checkout repo
    then elsewhere lib (Repo.tests_dir repo) (common_name_of repo)
    else find_on_disk (disk (world_of s))
           (common_dir_of repo ++ ["test_rules.json"]) in
  match found with
  | None => (Done (Ok []), s)
  | Some (File (Some test_rules)) =>
      (Done (Ok test_rules),
       State (log_event EvLoadRules (world_of s)) (pool_calls s) (held s))
  | Some _ =>
      (Done Exn,
       State (log_event EvLoadRules (world_of s)) (pool_calls s) (held s))
  end.

(** Lines 222-242. *)
Definition scan_checkout (repo : Repo.t)
    : P (list string * rule_table * (rule_table * list string)) :=
  remote_test_folders ← discover repo (regex_pattern_of repo);
  test_rules ← load_test_rules repo;
  mret (remote_test_folders, test_rules,
        get_compiled_test_rules test_rules remote_test_folders).

(** Lines 197-221: git does not go through the pool. *)
Definition acquire_checkout (repo : Repo.t) : P bool :=
  lift (acquire_checkout env repo).

(** Lines 243-268. *)
Definition self_heal (repo : Repo.t) (test_rules : rule_table)
    (remote_test_folders : list string) (compiled_test_rules : rule_table)
    (missing_folders : list string)
    : P (option (list string * rule_table)) :=
  if nonempty missing_folders then
    lift rmtree ;;
    recloned ← try_except (lift (clone_git_repo env (Repo.url repo)));
    match recloned with
    | None => mret None
    | Some _ =>
        remote_test_folders ← discover repo (regex_pattern_of repo);
        let '(compiled_test_rules, missing_folders) :=
          get_compiled_test_rules test_rules remote_test_folders in
        mret (Some (remote_test_folders, compiled_test_rules))
    end
  else mret (Some (remote_test_folders, compiled_test_rules)).

(** Lines 196-268 together. *)
Definition process_repo_checkout (repo : Repo.t)
    : P (option (list string * rule_table)) :=
  acquired ← acquire_checkout repo;
  if negb acquired then mret None
  else
    '(remote_test_folders, test_rules,
      (compiled_test_rules, missing_folders)) ← scan_checkout repo;
    self_heal repo test_rules remote_test_folders compiled_test_rules
      missing_folders.

(** *** The diff (lines 269-304) *)

(** Building the record of a discovered folder raises (lines 276-287):
    [re.sub] on the prefix pattern, one of the two [urljoin], or the
    record itself. *)
Definition folder_record_error (repo : Repo.t) (remote_test_folder : string)
    : bool :=
  re_error lib ("^" +:+ tests_prefix_of repo)
  || urljoin_error lib (Repo.url repo) (Repo.tests_dir repo)
  || urljoin_error lib (urljoin env (Repo.url repo) (Repo.tests_dir repo))
       remote_test_folder
  || invalid_record lib (new_test_of_folder env repo remote_test_folder).

(** Building the record of a rule raises (lines 294-302). *)
Definition rule_record_error (repo : Repo.t) (pattern target_dir : string)
    : bool :=
  urljoin_error lib (Repo.url repo) (Repo.tests_dir repo)
  || urljoin_error lib (urljoin env (Repo.url repo) (Repo.tests_dir repo))
       target_dir
  || invalid_record lib (new_test_of_rule env repo pattern target_dir).

(** Lines 272-289; [None]: an exception leaves the loop. *)
Fixpoint folders_loop (repo : Repo.t)
    (test_folders_mapping : gmap string Pkg.t)
    (remote_test_folders : list string)
    (new_test_folders packages : list Pkg.t)
    : option (list Pkg.t * list Pkg.t) :=
  match remote_test_folders with
  | [] => Some (new_test_folders, packages)
  | remote_test_folder :: rest =>
      match test_folders_mapping !! remote_test_folder with
      | Some existent_test =>
          folders_loop repo test_folders_mapping rest
            new_test_folders packages
      | None =>
          if folder_record_error repo remote_test_folder then None
          else
            let new_test := new_test_of_folder env repo remote_test_folder in
            folders_loop repo test_folders_mapping rest
              (new_test_folders ++ [new_test]) (packages ++ [new_test])
      end
  end.

(** Lines 290-304. *)
Fixpoint rules_loop (repo : Repo.t)
    (test_folders_mapping : gmap string Pkg.t)
    (compiled_test_rules : rule_table)
    (new_test_folders packages : list Pkg.t)
    : option (list Pkg.t * list Pkg.t) :=
  match compiled_test_rules with
  | [] => Some (new_test_folders, packages)
  | (pattern, target_dir) :: rest =>
      match test_folders_mapping !! target_dir with
      | Some existent_test =>
          rules_loop repo test_folders_mapping rest
            new_test_folders packages
      | None =>
          if rule_record_error repo pattern target_dir then None
          else
            let new_test := new_test_of_rule env repo pattern target_dir in
            rules_loop repo test_folders_mapping rest
              (new_test_folders ++ [new_test]) (packages ++ [new_test])
      end
  end.

(** Lines 305-323, on the records and packages the loops left. *)
Definition apply_diff (repo : Repo.t) (remote_test_folders : list string)
    (new_test_folders : list Pkg.t) : P Repo.t :=
  bulk_create_test_folders new_test_folders (Repo.id repo) ;;
  bulk_remove_test_folders
    (vanished_ids (Repo.packages repo) remote_test_folders)
    (Repo.id repo) ;;
  (if negb (nonempty remote_test_folders) && nonempty (Repo.packages repo)
   then bulk_remove_test_folders (all_ids (Repo.packages repo))
          (Repo.id repo)
   else mret tt) ;;
  mret repo.

(** Lines 269-324. *)
Definition process_repo_sync (repo : Repo.t)
    (remote_test_folders : list string) (compiled_test_rules : rule_table)
    : P Repo.t :=
  let test_folders_mapping := test_folders_mapping_of (Repo.packages repo) in
  match folders_loop repo test_folders_mapping remote_test_folders
          [] (Repo.packages repo) with
  | None => raise
  | Some (new_test_folders, packages) =>
      match rules_loop repo test_folders_mapping compiled_test_rules
              new_test_folders packages with
      | None => raise
      | Some (new_test_folders, packages) =>
          apply_diff (Repo.with_packages packages repo) remote_test_folders
            new_test_folders
      end
  end.

(** Lines 185-324, the body under the permit of line 184. *)
Definition process_repo_body (repo : Repo.t) : P Repo.t :=
  if str_contains "gerrit" (Repo.url repo)
     && gerrit_error lib (Repo.url repo) gerrit_username
  then raise
  else
    let repo := with_gerrit_url env gerrit_username repo in
    checkout ← process_repo_checkout repo;
    match checkout with
    | None => mret repo
    | Some (remote_test_folders, compiled_test_rules) =>
        process_repo_sync repo remote_test_folders compiled_test_rules
    end.

(** *** One pass over one repository (lines 179-324) *)
Definition process_repo (repo : Repo.t) : P Repo.t :=
  with_permit (process_repo_body repo).

End Pass.

(** The effects a computation adds when started in [s]. *)
Definition events_of {A : Type} (m : P A) (s : state) : list event :=
  drop (length (trace (world_of s))) (trace (world_of (m s).2)).

(** The pool as a task finds it when no other task holds a permit of it:
    [asyncio.Semaphore(requests_limit)] grants while fewer than
    [requests_limit] permits are out. *)
Definition sole_task (requests_limit : nat) : nat → nat → bool :=
  λ _ held, (held <? requests_limit)%nat.

(** A pool that grants every permit. *)
Definition granting : nat → nat → bool := λ _ _, true.

(** A library in which nothing raises; what it finds outside the model
    plays no part for the repositories of the examples. *)
Definition quiet (permit : nat → nat → bool) : library :=
  Library permit (λ _, false) (λ _ _, false) (λ _ _, false) (λ _, false)
    (λ _ _, Ok []) (λ _ _, None).

Definition fresh : state := State fresh_world 0 0.

(** A pass that has the pool and the libraries on its side: the layout of
    the repository is the one the sequential pass models and nothing
    raises. *)
Definition plain_layout (repo : Repo.t) : Prop :=
  absolute (Repo.tests_dir repo +:+ "*") = false
  ∧ special (Repo.tests_dir repo +:+ "*") = false
  ∧ leaves_checkout repo = false.

Definition never_raises (lib : library) : Prop :=
  (∀ p, re_error lib p = false)
  ∧ (∀ base ref, urljoin_error lib base ref = false)
  ∧ (∀ url user, gerrit_error lib url user = false)
  ∧ (∀ p, invalid_record lib p = false).

(** The state in which the body of [process_repo] starts: the permit of
    line 184 is taken. *)
Definition entered (s : state) : state :=
  State (world_of s) (S (pool_calls s)) (S (held s)).

(** The pass gets the permit of line 184 and the URL rewriting of lines
    190-194 does not raise: the pass reaches line 195. *)
Definition enters (lib : library) (gerrit_username : string)
    (repo : Repo.t) (s : state) : Prop :=
  permit lib (pool_calls s) (held s) = true
  ∧ str_contains "gerrit" (Repo.url repo)
    && gerrit_error lib (Repo.url repo) gerrit_username = false.

(** No record that the two loops of lines 272-304 build raises. *)
Definition records_build (env : collaborators) (lib : library)
    (repo : Repo.t) (remote_test_folders : list string)
    (compiled_test_rules : rule_table) : Prop :=
  (∀ f, f ∈ remote_test_folders →
        f ∉ folder_names (Repo.packages repo) →
        folder_record_error env lib repo f = false)
  ∧ (∀ r, r ∈ compiled_test_rules →
          r.2 ∉ folder_names (Repo.packages repo) →
          rule_record_error env lib repo r.1 r.2 = false).

(** What one bulk call does: the call is recorded; when its list is not
    empty ([sends]) the request needs a permit, is sent once the permit is
    there, and its failure is swallowed. *)
Definition after_call (lib : library) (call request : event) (sends : bool)
    (s : state) : course unit * state :=
  let w := log_event call (world_of s) in
  if sends then
    if permit lib (pool_calls s) (held s)
    then (Done (Ok tt),
          State (count_http (log_event request w)) (S (pool_calls s))
            (held s))
    else (Stalled, State w (pool_calls s) (held s))
  else (Done (Ok tt), State w (pool_calls s) (held s)).

(** Bulk calls made in turn by a pass that holds [h] permits and has made
    [n] acquisitions: each call is recorded; one that sends takes the next
    permit, and the pass waits in the first call that is refused.  The
    effects, and whether the pass waits. *)
Fixpoint calls_course (lib : library) (h n : nat)
    (calls : list (event * event * bool)) : list event * bool :=
  match calls with
  | [] => ([], false)
  | (call, request, sends) :: rest =>
      if sends then
        if permit lib n h
        then let r := calls_course lib h (S n) rest in
             (call :: request :: r.1, r.2)
        else ([call], true)
      else let r := calls_course lib h n rest in (call :: r.1, r.2)
  end.

(** The bulk calls of lines 305-323, each with its request and whether it
    sends it, for the repository as the loops left it. *)
Definition sync_calls (repo : Repo.t) (remote_test_folders : list string)
    (new_test_folders : list Pkg.t) : list (event * event * bool) :=
  let id := Repo.id repo in
  let packages := Repo.packages repo in
  let remove ids :=
    (EvBulkRemove ids id,
     EvRequest "post" (bulk_remove_endpoint id) (ids_payload ids),
     nonempty ids) in
  [(EvBulkCreate new_test_folders id,
    EvRequest "post" (bulk_create_endpoint id)
      (folders_payload new_test_folders),
    nonempty new_test_folders);
   remove (vanished_ids packages remote_test_folders)]
  ++ (if negb (nonempty remote_test_folders) && nonempty packages
      then [remove (all_ids packages)] else []).

(** A step of the pooled pass does what a step of the sequential pass
    does, when started while the pass holds [h] permits. *)
Definition agrees {A : Type} (h : nat) (p : P A) (m : M A) : Prop :=
  ∀ s, held s = h →
    (p s).1 = Done (m (world_of s)).1
    ∧ world_of (p s).2 = (m (world_of s)).2
    ∧ held (p s).2 = h.

(** A computation that only touches git and the file system: it never
    waits and leaves the pool alone. *)
Definition checkout_only {A : Type} (m : P A) : Prop :=
  ∀ s, ∃ evs,
    trace (world_of (m s).2) = trace (world_of s) ++ evs
    ∧ Forall (λ e, is_checkout_event e = true) evs
    ∧ pool_calls (m s).2 = pool_calls s
    ∧ held (m s).2 = held s
    ∧ (m s).1 ≠ Stalled.

End Pooled.

(** Unfolding the monad of the pooled pass in a goal. *)
Ltac unfold_pooled :=
  unfold mbind, Pooled.P_bind, mret, Pooled.P_ret, Pooled.try_except,
    Pooled.raise, Pooled.lift in *.

(** Unfolding the monad of effects in a goal. *)
Ltac unfold_monad :=
  unfold mbind, M_bind, mret, M_ret, try_except, emit in *.

(** * Properties *)

(** ** The rule compiler *)

Lemma compile_loop_spec (items : rule_table) (remote : list string)
    (compiled : rule_table) (missing : list string) :
  compile_loop items remote compiled missing =
    (compiled ++ filter (λ r, r.2 ∈ remote) items,
     missing ++ (snd <$> filter (λ r, r.2 ∉ remote) items)).
Proof.
  revert compiled missing.
  induction items as [|[regex folder_name] rest IH]; intros compiled missing.
  - simpl. by rewrite !app_nil_r.
  - cbn [compile_loop]. unfold py_in.
    rewrite !filter_cons. cbn [snd].
    destruct (decide (folder_name ∈ remote)) as [Hin|Hout].
    + rewrite bool_decide_eq_true_2 by done. cbn [negb].
      rewrite IH, decide_False by (by intros ?).
      by rewrite <- app_assoc.
    + rewrite bool_decide_eq_false_2 by done. cbn [negb].
      rewrite IH, decide_True by done.
      by rewrite fmap_cons, <- app_assoc.
Qed.

(** C7. The rule compiler splits the rule mapping in two: [compiled] is the
    sub-list of the rules whose target is among the discovered folders, in
    the order of the mapping, and [missing] lists, in the same order, the
    targets of all the other rules.  The function is a pure function of its
    two arguments: it runs outside the effect monad, so it reads no disk,
    sends no request and returns its inputs untouched. *)
Theorem get_compiled_test_rules_partition
    (test_rules : rule_table) (remote_test_folders : list string) :
  get_compiled_test_rules test_rules remote_test_folders =
    (filter (λ r, r.2 ∈ remote_test_folders) test_rules,
     snd <$> filter (λ r, r.2 ∉ remote_test_folders) test_rules).
Proof. unfold get_compiled_test_rules. by rewrite compile_loop_spec. Qed.

(** Every compiled rule targets a discovered folder. *)
Lemma compiled_targets_discovered (test_rules : rule_table)
    (remote : list string) (pattern target : string) :
  (pattern, target) ∈ (get_compiled_test_rules test_rules remote).1 →
  target ∈ remote.
Proof.
  unfold get_compiled_test_rules. rewrite compile_loop_spec. simpl.
  by intros [? _]%list_elem_of_filter.
Qed.

(** ** The lookup table and the two loops of the diff *)

Lemma foldl_mapping_lookup (known : list Pkg.t) (m : gmap string Pkg.t)
    (f : string) :
  foldl (λ m test, <[Pkg.folder_name test := test]> m) m known !! f = None
  ↔ m !! f = None ∧ f ∉ folder_names known.
Proof.
  revert m. induction known as [|p known IH]; intros m; simpl.
  - split; [intros H; split; [done|apply not_elem_of_nil] | by intros [H _]].
  - rewrite IH, not_elem_of_cons, lookup_insert_None. intuition congruence.
Qed.

Lemma test_folders_mapping_None (known : list Pkg.t) (f : string) :
  test_folders_mapping_of known !! f = None ↔ f ∉ folder_names known.
Proof.
  unfold test_folders_mapping_of. rewrite foldl_mapping_lookup.
  rewrite lookup_empty. tauto.
Qed.

Section Loops.
Context (env : collaborators) (repo : Repo.t) (known : list Pkg.t).

Lemma folders_loop_spec (remote : list string) (acc packages : list Pkg.t) :
  folders_loop env repo (test_folders_mapping_of known) remote acc packages
  = (acc ++ new_from_folders env repo known remote,
     packages ++ new_from_folders env repo known remote).
Proof.
  unfold new_from_folders.
  revert acc packages.
  induction remote as [|f rest IH]; intros acc packages.
  - simpl. by rewrite !app_nil_r.
  - cbn [folders_loop]. rewrite filter_cons.
    destruct (test_folders_mapping_of known !! f) as [p|] eqn:Hm.
    + rewrite IH, decide_False; [done|].
      intros Hf%test_folders_mapping_None. congruence.
    + rewrite IH, decide_True by (by apply test_folders_mapping_None).
      by rewrite fmap_cons, <- !app_assoc.
Qed.

Lemma rules_loop_spec (compiled : rule_table) (acc packages : list Pkg.t) :
  rules_loop env repo (test_folders_mapping_of known) compiled acc packages
  = (acc ++ new_from_rules env repo known compiled,
     packages ++ new_from_rules env repo known compiled).
Proof.
  unfold new_from_rules.
  revert acc packages.
  induction compiled as [|[pattern target] rest IH]; intros acc packages.
  - simpl. by rewrite !app_nil_r.
  - cbn [rules_loop]. rewrite filter_cons. cbn [snd].
    destruct (test_folders_mapping_of known !! target) as [p|] eqn:Hm.
    + rewrite IH, decide_False; [done|].
      intros Hf%test_folders_mapping_None. congruence.
    + rewrite IH, decide_True by (by apply test_folders_mapping_None).
      by rewrite fmap_cons, <- !app_assoc.
Qed.
End Loops.

(** A record built during the pass has no identifier. *)
Lemma new_records_no_id (env : collaborators) (repo : Repo.t)
    (remote : list string) (compiled : rule_table) (p : Pkg.t) :
  p ∈ new_records env repo remote compiled → Pkg.id p = None.
Proof.
  unfold new_records, new_from_folders, new_from_rules.
  rewrite elem_of_app, !list_elem_of_fmap.
  intros [(f & -> & _)|(r & -> & _)]; done.
Qed.

Lemma vanished_ids_app (ps qs : list Pkg.t) (remote : list string) :
  (∀ p, p ∈ qs → Pkg.id p = None) →
  vanished_ids (ps ++ qs) remote = vanished_ids ps remote.
Proof.
  intros Hq. unfold vanished_ids. rewrite omap_app.
  rewrite <- (app_nil_r (omap _ ps)) at 2. f_equal.
  induction qs as [|q qs IH]; [done|].
  simpl. rewrite (Hq q) by left. simpl.
  rewrite andb_false_r. apply IH. intros p Hp. apply Hq. by right.
Qed.

Lemma all_ids_app (ps qs : list Pkg.t) :
  (∀ p, p ∈ qs → Pkg.id p = None) →
  all_ids (ps ++ qs) = all_ids ps.
Proof.
  intros Hq. unfold all_ids. rewrite omap_app.
  rewrite <- (app_nil_r (omap _ ps)) at 2. f_equal.
  induction qs as [|q qs IH]; [done|].
  simpl. rewrite (Hq q) by left. simpl.
  apply IH. intros p Hp. apply Hq. by right.
Qed.

(** ** The bulk calls and the apply step *)

Section Apply.
Context (env : collaborators).

Lemma bulk_create_test_folders_run (test_folders : list Pkg.t)
    (repository_id : Z) (w : world) :
  ∃ n, bulk_create_test_folders env test_folders repository_id w =
    (Ok tt, World (disk w) (git_calls w) n
              (trace w ++ create_events test_folders repository_id)).
Proof.
  unfold bulk_create_test_folders, create_events, mbind, M_bind, emit,
    try_except, make_request, mret, M_ret.
  destruct test_folders as [|p ps]; simpl.
  - by eexists.
  - destruct (http_ok env (http_calls w)); simpl; eexists;
      unfold count_http, log_event; simpl; by rewrite <- app_assoc.
Qed.

Lemma bulk_remove_test_folders_run (test_folders_ids : list Z)
    (repository_id : Z) (w : world) :
  ∃ n, bulk_remove_test_folders env test_folders_ids repository_id w =
    (Ok tt, World (disk w) (git_calls w) n
              (trace w ++ remove_events test_folders_ids repository_id)).
Proof.
  unfold bulk_remove_test_folders, remove_events, mbind, M_bind, emit,
    try_except, make_request, mret, M_ret.
  destruct test_folders_ids as [|i ids]; simpl.
  - by eexists.
  - destruct (http_ok env (http_calls w)); simpl; eexists;
      unfold count_http, log_event; simpl; by rewrite <- app_assoc.
Qed.

(** Lines 269-324 always run to their end: they return the repository with
    the new records appended and leave the disk alone; their effects are
    [sync_events]. *)
Lemma process_repo_sync_run (repo : Repo.t) (remote : list string)
    (compiled : rule_table) (w : world) :
  ∃ n, process_repo_sync env repo remote compiled w =
    (Ok (Repo.with_packages
           (Repo.packages repo ++ new_records env repo remote compiled) repo),
     World (disk w) (git_calls w) n
       (trace w ++ sync_events env repo remote compiled)).
Proof.
  unfold process_repo_sync, sync_events, new_records.
  rewrite folders_loop_spec, rules_loop_spec. cbn [app].
  rewrite <- app_assoc.
  set (news := new_from_folders env repo (Repo.packages repo) remote
               ++ new_from_rules env repo (Repo.packages repo) compiled).
  set (repo' := Repo.with_packages (Repo.packages repo ++ news) repo).
  change (Repo.packages repo') with (Repo.packages repo ++ news).
  change (Repo.id repo') with (Repo.id repo).
  unfold mbind, M_bind.
  destruct (bulk_create_test_folders_run news (Repo.id repo) w)
    as [n1 ->].
  match goal with |- context [bulk_remove_test_folders env ?ids ?i ?w1] =>
    destruct (bulk_remove_test_folders_run ids i w1) as [n2 ->] end.
  cbn [disk git_calls trace].
  destruct (negb (nonempty remote) && nonempty (Repo.packages repo ++ news)).
  - match goal with |- context [bulk_remove_test_folders env ?ids ?i ?w1] =>
      destruct (bulk_remove_test_folders_run ids i w1) as [n3 ->] end.
    cbn [disk git_calls trace]. exists n3. unfold mret, M_ret.
    by rewrite <- !app_assoc.
  - exists n2. unfold mret, M_ret. by rewrite app_nil_r, <- !app_assoc.
Qed.
End Apply.

(** ** Reading the effects of the apply step *)

Lemma events_of_trace {A : Type} (m : M A) (w : world) (evs : list event) :
  trace (m w).2 = trace w ++ evs → events_of m w = evs.
Proof. unfold events_of. intros ->. by rewrite drop_app_length. Qed.


Lemma bulk_create_calls_app (t1 t2 : list event) :
  bulk_create_calls (t1 ++ t2) = bulk_create_calls t1 ++ bulk_create_calls t2.
Proof. apply omap_app. Qed.

Lemma bulk_remove_calls_app (t1 t2 : list event) :
  bulk_remove_calls (t1 ++ t2) = bulk_remove_calls t1 ++ bulk_remove_calls t2.
Proof. apply omap_app. Qed.

Lemma requests_app (t1 t2 : list event) :
  requests (t1 ++ t2) = requests t1 ++ requests t2.
Proof. apply omap_app. Qed.

Lemma bulk_create_calls_create_events (fs : list Pkg.t) (i : Z) :
  bulk_create_calls (create_events fs i) = [fs].
Proof. by destruct fs. Qed.

Lemma bulk_create_calls_remove_events (ids : list Z) (i : Z) :
  bulk_create_calls (remove_events ids i) = [].
Proof. by destruct ids. Qed.

Lemma bulk_remove_calls_create_events (fs : list Pkg.t) (i : Z) :
  bulk_remove_calls (create_events fs i) = [].
Proof. by destruct fs. Qed.

Lemma bulk_remove_calls_remove_events (ids : list Z) (i : Z) :
  bulk_remove_calls (remove_events ids i) = [ids].
Proof. by destruct ids. Qed.

Lemma requests_create_events (fs : list Pkg.t) (i : Z) :
  requests (create_events fs i) =
    if nonempty fs
    then [("post", bulk_create_endpoint i, folders_payload fs)] else [].
Proof. by destruct fs. Qed.

Lemma requests_remove_events (ids : list Z) (i : Z) :
  requests (remove_events ids i) =
    if nonempty ids
    then [("post", bulk_remove_endpoint i, ids_payload ids)] else [].
Proof. by destruct ids. Qed.

(** The calls of the apply step: one create call, the diff-driven remove
    call, and the safeguard's remove call when nothing was discovered. *)
Lemma sync_events_calls (env : collaborators) (repo : Repo.t)
    (remote : list string) (compiled : rule_table) :
  let known := Repo.packages repo in
  let news := new_records env repo remote compiled in
  bulk_create_calls (sync_events env repo remote compiled) = [news]
  ∧ bulk_remove_calls (sync_events env repo remote compiled) =
      vanished_ids known remote ::
      (if negb (nonempty remote) && nonempty (known ++ news)
       then [all_ids known] else []).
Proof.
  intros known news. unfold sync_events. fold news. fold known.
  assert (Hnew : ∀ p, p ∈ news → Pkg.id p = None)
    by (intros p; apply new_records_no_id).
  rewrite !bulk_create_calls_app, !bulk_remove_calls_app.
  rewrite bulk_create_calls_create_events, bulk_create_calls_remove_events.
  rewrite bulk_remove_calls_create_events, bulk_remove_calls_remove_events.
  rewrite (vanished_ids_app known news remote Hnew).
  rewrite (all_ids_app known news Hnew).
  destruct (negb (nonempty remote) && nonempty (known ++ news)).
  - by rewrite bulk_create_calls_remove_events,
      bulk_remove_calls_remove_events.
  - done.
Qed.

Lemma elem_of_vanished_ids (known : list Pkg.t) (remote : list string)
    (z : Z) :
  z ∈ vanished_ids known remote ↔
  ∃ p, p ∈ known ∧ (Pkg.folder_name p ∉ remote)
       ∧ Pkg.id p = Some z ∧ z ≠ 0%Z.
Proof.
  unfold vanished_ids. rewrite list_elem_of_omap. unfold py_in, truthy_int.
  split.
  - intros (p & Hp & Hz). exists p. split; [done|].
    destruct (decide (Pkg.folder_name p ∈ remote)) as [Hin|Hout].
    + by rewrite bool_decide_eq_true_2 in Hz.
    + rewrite bool_decide_eq_false_2 in Hz by done. simpl in Hz.
      destruct (Pkg.id p) as [i|] eqn:Hi; [|done].
      destruct (Z.eqb_spec i 0); simpl in Hz; [done|].
      by simplify_eq.
  - intros (p & Hp & Hout & Hi & Hz). exists p. split; [done|].
    rewrite bool_decide_eq_false_2, Hi by done. simpl.
    by destruct (Z.eqb_spec z 0).
Qed.

Lemma elem_of_all_ids (known : list Pkg.t) (z : Z) :
  z ∈ all_ids known ↔
  ∃ p, p ∈ known ∧ Pkg.id p = Some z ∧ z ≠ 0%Z.
Proof.
  unfold all_ids. rewrite list_elem_of_omap. unfold truthy_int.
  split.
  - intros (p & Hp & Hz). exists p. split; [done|].
    destruct (Pkg.id p) as [i|] eqn:Hi; [|done].
    destruct (Z.eqb_spec i 0); simpl in Hz; [done|].
    by simplify_eq.
  - intros (p & Hp & Hi & Hz). exists p. split; [done|].
    rewrite Hi. simpl. by destruct (Z.eqb_spec z 0).
Qed.

Lemma new_records_unknown (env : collaborators) (repo : Repo.t)
    (remote : list string) (compiled : rule_table) (p : Pkg.t) :
  p ∈ new_records env repo remote compiled →
  Pkg.folder_name p ∉ folder_names (Repo.packages repo).
Proof.
  unfold new_records, new_from_folders, new_from_rules.
  rewrite elem_of_app, !list_elem_of_fmap.
  intros [(f & -> & Hf)|(r & -> & Hr)].
  - by apply list_elem_of_filter in Hf as [? _].
  - by apply list_elem_of_filter in Hr as [? _].
Qed.

(** ** Bulk calls on an empty list *)

(** C6. Called with an empty list, [bulk_create_test_folders] and
    [bulk_remove_test_folders] return at once, for every repository id and
    in every state: the call returns normally, no request reaches
    [make_request] (the requests of the trace and the count of HTTP calls
    are what they were) and the disk is untouched. *)
Theorem bulk_calls_on_empty_list_make_no_request
    (env : collaborators) (repository_id : Z) (w : world) :
  let created := bulk_create_test_folders env [] repository_id w in
  let removed := bulk_remove_test_folders env [] repository_id w in
  (created.1 = Ok tt
   ∧ requests (trace created.2) = requests (trace w)
   ∧ http_calls created.2 = http_calls w
   ∧ disk created.2 = disk w)
  ∧ (removed.1 = Ok tt
     ∧ requests (trace removed.2) = requests (trace w)
     ∧ http_calls removed.2 = http_calls w
     ∧ disk removed.2 = disk w).
Proof.
  simpl. unfold bulk_create_test_folders, bulk_remove_test_folders.
  unfold mbind, M_bind, emit, mret, M_ret. simpl.
  rewrite !requests_app. simpl. by rewrite app_nil_r.
Qed.

(** ** The diff of one pass *)

(** C1 as stated fails: in a checkout whose rule file targets the discovered
    folder [test-a], with no known package, the pass discovers [test-a],
    compiles the rule, and sends two new records for [test-a], not one. *)
Lemma rule_target_gets_two_records :
  let env := simple_env [GitReturns (Some rules_checkout)] in
  (run (process_repo_checkout env (rules_repo []))).1
    = Ok (Some (["test-a"], [("^pkg-a.*", "test-a")]))
  ∧ ∃ created,
      bulk_create_calls (run (process_repo env "" (rules_repo []))).2
        = [created]
      ∧ ¬ one_record_per_new_folder ["test-a"] ["test-a"] [] created.
Proof.
  split; [reflexivity|].
  eexists. split; [reflexivity|].
  intros H. specialize (H "test-a"). vm_compute in H. discriminate.
Qed.

(** ** Records per folder name *)

Section RecordsOfFolder.
Context (env : collaborators) (repo : Repo.t) (known : list Pkg.t).




End RecordsOfFolder.




(** ** The checkout steps only touch git and the file system *)

Section OnlyEmits.
Context (P : event → bool).

Lemma only_emits_ret {A : Type} (a : A) : only_emits P (mret a).
Proof. intros w. exists []. by rewrite app_nil_r. Qed.

Lemma only_emits_bind {A B : Type} (m : M A) (k : A → M B) :
  only_emits P m → (∀ a, only_emits P (k a)) → only_emits P (m ≫= k).
Proof.
  intros Hm Hk w. unfold mbind, M_bind.
  destruct (Hm w) as (e1 & Ht1 & HP1).
  destruct (m w) as [[a|] w1]; simpl in Ht1.
  - destruct (Hk a w1) as (e2 & Ht2 & HP2).
    exists (e1 ++ e2). split; [|by apply Forall_app].
    by rewrite Ht2, Ht1, app_assoc.
  - by exists e1.
Qed.

Lemma only_emits_try_except {A : Type} (m : M A) :
  only_emits P m → only_emits P (try_except m).
Proof.
  intros Hm w. unfold try_except.
  destruct (Hm w) as (e1 & Ht1 & HP1).
  destruct (m w) as [[a|] w1]; by exists e1.
Qed.
End OnlyEmits.

Section CheckoutEffects.
Context (env : collaborators).

Lemma only_emits_one (e : event) {A : Type} (m : M A) :
  is_checkout_event e = true →
  (∀ w, trace (m w).2 = trace w ++ [e]) →
  only_emits is_checkout_event m.
Proof. intros He Hm w. exists [e]. split; [done|]. by apply Forall_singleton. Qed.

Lemma clone_git_repo_effects (url : string) :
  only_emits is_checkout_event (clone_git_repo env url).
Proof.
  apply (only_emits_one (EvClone url)); [done|].
  intros w. unfold clone_git_repo. by destruct (git env (git_calls w)).
Qed.

Lemma git_pull_effects : only_emits is_checkout_event (git_pull env).
Proof.
  apply (only_emits_one EvPull); [done|].
  intros w. unfold git_pull. by destruct (git env (git_calls w)).
Qed.

Lemma rmtree_effects : only_emits is_checkout_event rmtree.
Proof. by apply (only_emits_one EvRmtree). Qed.

Lemma discover_effects (repo : Repo.t) (regex_pattern : string) :
  only_emits is_checkout_event (discover env repo regex_pattern).
Proof. by apply (only_emits_one (EvGlob (Repo.tests_dir repo +:+ "*"))). Qed.

Lemma load_test_rules_effects (common_dir : list string) :
  only_emits is_checkout_event (load_test_rules common_dir).
Proof.
  intros w. unfold load_test_rules.
  destruct (find_on_disk (disk w) (common_dir ++ ["test_rules.json"]))
    as [[[rules|]|es]|]; simpl.
  - exists [EvLoadRules]. split; [done|]. by apply Forall_singleton.
  - exists [EvLoadRules]. split; [done|]. by apply Forall_singleton.
  - exists [EvLoadRules]. split; [done|]. by apply Forall_singleton.
  - exists []. by rewrite app_nil_r.
Qed.

Lemma acquire_checkout_effects (repo : Repo.t) :
  only_emits is_checkout_event (acquire_checkout env repo).
Proof.
  unfold acquire_checkout. apply only_emits_bind.
  - intros w. exists []. by rewrite app_nil_r.
  - intros [|]; simpl.
    + apply only_emits_bind; [apply git_pull_effects|].
      intros _. apply only_emits_ret.
    + apply only_emits_bind.
      * apply only_emits_try_except, clone_git_repo_effects.
      * intros r. apply only_emits_ret.
Qed.

Lemma scan_checkout_effects (repo : Repo.t) :
  only_emits is_checkout_event (scan_checkout env repo).
Proof.
  unfold scan_checkout. apply only_emits_bind; [apply discover_effects|].
  intros D. apply only_emits_bind; [apply load_test_rules_effects|].
  intros rules. apply only_emits_ret.
Qed.

Lemma self_heal_effects (repo : Repo.t) (test_rules : rule_table)
    (remote : list string) (compiled : rule_table) (missing : list string) :
  only_emits is_checkout_event
    (self_heal env repo test_rules remote compiled missing).
Proof.
  unfold self_heal. destruct (nonempty missing); [|apply only_emits_ret].
  apply only_emits_bind; [apply rmtree_effects|]. intros _.
  apply only_emits_bind;
    [apply only_emits_try_except, clone_git_repo_effects|].
  intros [[]|]; [|apply only_emits_ret].
  apply only_emits_bind; [apply discover_effects|]. intros D.
  destruct (get_compiled_test_rules test_rules D). apply only_emits_ret.
Qed.

Lemma process_repo_checkout_effects (repo : Repo.t) :
  only_emits is_checkout_event (process_repo_checkout env repo).
Proof.
  unfold process_repo_checkout.
  apply only_emits_bind; [apply acquire_checkout_effects|].
  intros [|]; simpl; [|apply only_emits_ret].
  apply only_emits_bind; [apply scan_checkout_effects|].
  intros [[D rules] [compiled missing]]. apply self_heal_effects.
Qed.
End CheckoutEffects.

(** ** A whole pass: checkout effects, then the apply step *)

Lemma with_gerrit_url_packages (env : collaborators) (user : string)
    (repo : Repo.t) :
  Repo.packages (with_gerrit_url env user repo) = Repo.packages repo.
Proof. unfold with_gerrit_url. by destruct (str_contains _ _). Qed.

Lemma with_gerrit_url_id (env : collaborators) (user : string)
    (repo : Repo.t) :
  Repo.id (with_gerrit_url env user repo) = Repo.id repo.
Proof. unfold with_gerrit_url. by destruct (str_contains _ _). Qed.

Lemma checkout_events_no_calls (evs : list event) :
  Forall (λ e, is_checkout_event e = true) evs →
  bulk_create_calls evs = [] ∧ bulk_remove_calls evs = []
  ∧ requests evs = [].
Proof.
  induction 1 as [|e evs He _ (IHc & IHr & IHq)]; [done|].
  destruct e; try discriminate He; simpl;
    by rewrite ?IHc, ?IHr, ?IHq.
Qed.

(** What a pass does, by the outcome of lines 196-268. *)
Lemma process_repo_events (env : collaborators) (user : string)
    (repo : Repo.t) (w : world) :
  let repo' := with_gerrit_url env user repo in
  ∃ evs,
    Forall (λ e, is_checkout_event e = true) evs
    ∧ events_of (process_repo_checkout env repo') w = evs
    ∧ match (process_repo_checkout env repo' w).1 with
      | Ok (Some (D, compiled)) =>
          events_of (process_repo env user repo) w
            = evs ++ sync_events env repo' D compiled
          ∧ (process_repo env user repo w).1
            = Ok (Repo.with_packages
                    (Repo.packages repo'
                     ++ new_records env repo' D compiled) repo')
      | Ok None =>
          events_of (process_repo env user repo) w = evs
          ∧ (process_repo env user repo w).1 = Ok repo'
      | Exn =>
          events_of (process_repo env user repo) w = evs
          ∧ (process_repo env user repo w).1 = Exn
      end.
Proof.
  intros repo'.
  destruct (process_repo_checkout_effects env repo' w) as (evs & Ht & Hevs).
  exists evs. split; [done|]. split; [by apply events_of_trace|].
  destruct (process_repo_checkout env repo' w) as [r w1] eqn:Hc.
  simpl in Ht.
  assert (Hrun : process_repo env user repo w =
                 match r with
                 | Ok (Some (D, compiled)) =>
                     process_repo_sync env repo' D compiled w1
                 | Ok None => (Ok repo', w1)
                 | Exn => (Exn, w1)
                 end).
  { unfold process_repo, mbind, M_bind. fold repo'. rewrite Hc.
    by destruct r as [[[D compiled]|]|]. }
  destruct r as [[[D compiled]|]|]; simpl.
  - destruct (process_repo_sync_run env repo' D compiled w1) as [n Hsync].
    rewrite Hsync in Hrun. split; [|by rewrite Hrun].
    apply events_of_trace. rewrite Hrun. simpl. by rewrite Ht, app_assoc.
  - split; [|by rewrite Hrun]. apply events_of_trace. by rewrite Hrun.
  - split; [|by rewrite Hrun]. apply events_of_trace. by rewrite Hrun.
Qed.

(** ** The compiled rules of a pass target discovered folders *)

Lemma scan_checkout_result (env : collaborators) (repo : Repo.t)
    (w w' : world) (D : list string) (rules : rule_table)
    (cm : rule_table * list string) :
  scan_checkout env repo w = (Ok (D, rules, cm), w') →
  cm = get_compiled_test_rules rules D.
Proof.
  unfold scan_checkout, discover, glob, load_test_rules. unfold_monad.
  intros H. repeat case_match; by simplify_eq.
Qed.

Lemma self_heal_result (env : collaborators) (repo : Repo.t)
    (rules : rule_table) (D1 : list string) (c1 : rule_table)
    (m1 : list string) (w w' : world) (D : list string) (C : rule_table) :
  (c1, m1) = get_compiled_test_rules rules D1 →
  self_heal env repo rules D1 c1 m1 w = (Ok (Some (D, C)), w') →
  C = (get_compiled_test_rules rules D).1.
Proof.
  intros Hc1. unfold self_heal, rmtree, clone_git_repo, discover, glob.
  unfold_monad. intros H.
  repeat case_match; simplify_eq; try done.
  all: try (match goal with
            | Hg : get_compiled_test_rules _ _ = (_, _) |- _ =>
                simpl in Hg; rewrite Hg; reflexivity
            end).
  by rewrite <- Hc1.
Qed.

Lemma process_repo_checkout_compiled (env : collaborators) (repo : Repo.t)
    (w : world) (D : list string) (C : rule_table) :
  (process_repo_checkout env repo w).1 = Ok (Some (D, C)) →
  ∃ rules, C = filter (λ r, r.2 ∈ D) rules.
Proof.
  unfold process_repo_checkout. unfold mbind at 1, M_bind at 1.
  destruct (acquire_checkout env repo w) as [[[|]|] w1]; simpl; try done.
  unfold mbind, M_bind.
  destruct (scan_checkout env repo w1) as [[[[D1 rules] [c1 m1]]|] w2] eqn:Hs;
    simpl; [|done].
  apply scan_checkout_result in Hs.
  destruct (self_heal env repo rules D1 c1 m1 w2) as [r w3] eqn:Hh.
  simpl. intros ->. apply self_heal_result in Hh; [|done].
  exists rules. subst C. unfold get_compiled_test_rules.
  by rewrite compile_loop_spec.
Qed.

Lemma process_repo_checkout_targets (env : collaborators) (repo : Repo.t)
    (w : world) (D : list string) (C : rule_table) (f : string) :
  (process_repo_checkout env repo w).1 = Ok (Some (D, C)) →
  f ∈ C.*2 → f ∈ D.
Proof.
  intros [rules ->]%process_repo_checkout_compiled.
  intros ([pattern target] & -> & Hr)%list_elem_of_fmap.
  by apply list_elem_of_filter in Hr as [? _].
Qed.

Lemma process_repo_calls (env : collaborators) (user : string)
    (repo : Repo.t) (w : world) (D : list string) (C : rule_table) :
  let repo' := with_gerrit_url env user repo in
  let evs := events_of (process_repo env user repo) w in
  (process_repo_checkout env repo' w).1 = Ok (Some (D, C)) →
  bulk_create_calls evs = bulk_create_calls (sync_events env repo' D C)
  ∧ bulk_remove_calls evs = bulk_remove_calls (sync_events env repo' D C)
  ∧ requests evs = requests (sync_events env repo' D C).
Proof.
  intros repo' evs Hc. subst evs.
  destruct (process_repo_events env user repo w) as (ck & Hck & _ & Hcase).
  fold repo' in Hcase. rewrite Hc in Hcase. destruct Hcase as [-> _].
  apply checkout_events_no_calls in Hck as (Hc1 & Hc2 & Hc3).
  rewrite bulk_create_calls_app, bulk_remove_calls_app, requests_app.
  by rewrite Hc1, Hc2, Hc3.
Qed.


(** ** Identifiers sent for removal *)



(** ** Nothing discovered *)

Lemma vanished_ids_nil (known : list Pkg.t) :
  vanished_ids known [] = all_ids known.
Proof. done. Qed.

Lemma all_ids_truthy (known : list Pkg.t) :
  Forall (λ p, truthy_int (Pkg.id p) = true) known →
  Some <$> all_ids known = Pkg.id <$> known.
Proof.
  unfold all_ids. induction 1 as [|p known Hp _ IH]; [done|].
  cbn [omap list_omap fmap list_fmap] in *. rewrite Hp.
  destruct (Pkg.id p) as [z|]; [|done].
  cbn [fmap list_fmap]. by rewrite IH.
Qed.

Lemma all_ids_nonempty (known news : list Pkg.t) :
  all_ids known ≠ [] → nonempty (known ++ news) = true.
Proof. by destruct known. Qed.

Lemma process_repo_checkout_nothing (env : collaborators) (repo : Repo.t)
    (w : world) (C : rule_table) :
  (process_repo_checkout env repo w).1 = Ok (Some ([], C)) → C = [].
Proof.
  intros Hc. destruct C as [|[pattern target] C]; [done|].
  assert (target ∈ @nil string) as []%elem_of_nil.
  apply (process_repo_checkout_targets env repo w [] ((pattern, target) :: C));
    [done|]. simpl. left.
Qed.

(** The calls of a pass that discovered nothing. *)
Lemma process_repo_nothing_discovered (env : collaborators) (user : string)
    (repo : Repo.t) (w : world) (C : rule_table) :
  let evs := events_of (process_repo env user repo) w in
  let K := Repo.packages repo in
  (process_repo_checkout env (with_gerrit_url env user repo) w).1
    = Ok (Some ([], C)) →
  bulk_create_calls evs = [[]]
  ∧ bulk_remove_calls evs =
      all_ids K :: (if nonempty K then [all_ids K] else [])
  ∧ requests evs =
      (if nonempty (all_ids K)
       then [("post", bulk_remove_endpoint (Repo.id repo),
              ids_payload (all_ids K));
             ("post", bulk_remove_endpoint (Repo.id repo),
              ids_payload (all_ids K))]
       else []).
Proof.
  intros evs K Hc. subst evs.
  pose proof (process_repo_checkout_nothing _ _ _ _ Hc) as ->.
  destruct (process_repo_calls env user repo w [] [] Hc) as (-> & -> & ->).
  set (repo' := with_gerrit_url env user repo).
  destruct (sync_events_calls env repo' [] []) as [-> ->].
  unfold sync_events.
  change (new_records env repo' [] []) with (@nil Pkg.t).
  rewrite app_nil_r, vanished_ids_nil.
  unfold repo'. rewrite with_gerrit_url_packages, with_gerrit_url_id.
  fold K. cbn [nonempty negb andb].
  split; [done|]. split; [done|].
  rewrite !requests_app, requests_create_events, requests_remove_events.
  cbn [nonempty app].
  destruct (nonempty K) eqn:HK.
  - rewrite requests_remove_events. by destruct (nonempty (all_ids K)).
  - destruct K; [done|discriminate].
Qed.

(** ** A second pass over an unchanged checkout *)

Lemma filter_none {A : Type} (P : A → Prop) `{∀ x, Decision (P x)}
    (l : list A) :
  (∀ x, x ∈ l → ¬ P x) → filter P l = [].
Proof.
  induction l as [|x l IH]; intros Hl; [done|].
  rewrite filter_cons_False by (apply Hl; left).
  apply IH. intros y Hy. apply Hl. by right.
Qed.

Lemma vanished_ids_none (known : list Pkg.t) (remote : list string) :
  (∀ f, f ∈ folder_names known → f ∈ remote) →
  vanished_ids known remote = [].
Proof.
  unfold vanished_ids, folder_names, py_in.
  induction known as [|p known IH]; intros Hk; [done|].
  cbn [omap list_omap].
  rewrite bool_decide_eq_true_2 by (apply Hk; left).
  cbn [negb andb]. apply IH. intros f Hf. apply Hk. by right.
Qed.

(** C3. Take a pass over a checkout and rule file in which every discovered
    folder and every compiled rule target already belongs to a known
    package, and every known package belongs to one of them - the state the
    previous pass leaves once its creates and removes are applied.  That
    pass builds an empty create list and an empty remove list, the
    safeguard does not fire, and no request is sent. *)
Theorem second_pass_sends_nothing (env : collaborators) (user : string)
    (repo : Repo.t) (D : list string) (compiled : rule_table) (w : world) :
  let evs := events_of (process_repo env user repo) w in
  (process_repo_checkout env (with_gerrit_url env user repo) w).1
    = Ok (Some (D, compiled)) →
  (∀ f, f ∈ folder_names (Repo.packages repo) ↔ f ∈ D ∨ f ∈ compiled.*2) →
  bulk_create_calls evs = [[]]
  ∧ bulk_remove_calls evs = [[]]
  ∧ requests evs = [].
Proof.
  intros evs Hc HK. subst evs.
  set (repo' := with_gerrit_url env user repo) in *.
  set (K := Repo.packages repo) in *.
  assert (HK' : Repo.packages repo' = K)
    by apply with_gerrit_url_packages.
  assert (Hnew : new_records env repo' D compiled = []).
  { unfold new_records, new_from_folders, new_from_rules. rewrite HK'.
    rewrite !filter_none; [done| |].
    - intros [pattern target] Hr Hn. apply Hn, HK. right.
      apply list_elem_of_fmap. by exists (pattern, target).
    - intros f Hf Hn. apply Hn, HK. by left. }
  assert (Hsub : ∀ f, f ∈ folder_names K → f ∈ D).
  { intros f [Hf|Hf]%HK; [done|].
    by apply (process_repo_checkout_targets env repo' w D compiled). }
  assert (Hsafe : negb (nonempty D) && nonempty K = false).
  { destruct D as [|d D]; [|done]. destruct K as [|p K'] eqn:HKeq; [done|].
    exfalso. apply (not_elem_of_nil (Pkg.folder_name p)), Hsub. left. }
  destruct (process_repo_calls env user repo w D compiled Hc)
    as (-> & -> & ->). fold repo'.
  destruct (sync_events_calls env repo' D compiled) as [-> ->].
  unfold sync_events. rewrite Hnew, HK', app_nil_r, Hsafe.
  rewrite vanished_ids_none by done.
  done.
Qed.

Lemma second_pass_sends_nothing_witness :
  let env := simple_env [GitReturns (Some rules_checkout)] in
  let repo := rules_repo known_after_first_pass in
  let evs :=
    events_of (process_repo env "" repo) (checked_out_world rules_checkout) in
  bulk_create_calls evs = [[]]
  ∧ bulk_remove_calls evs = [[]]
  ∧ requests evs = [].
Proof.
  apply (second_pass_sends_nothing
           (simple_env [GitReturns (Some rules_checkout)]) ""
           (rules_repo known_after_first_pass)
           ["test-a"] [("^pkg-a.*", "test-a")]
           (checked_out_world rules_checkout)).
  - reflexivity.
  - intros f. simpl. rewrite !elem_of_cons, !elem_of_nil. tauto.
Defined.

(** ** Self-heal *)

Lemma events_of_extends (P : event → bool) {A : Type} (m : M A) (w : world) :
  only_emits P m → trace (m w).2 = trace w ++ events_of m w.
Proof.
  intros Hm. destruct (Hm w) as (evs & Ht & _).
  by rewrite (events_of_trace m w evs Ht).
Qed.

Lemma count_events_app (P : event → bool) (t1 t2 : list event) :
  count_events P (t1 ++ t2) = (count_events P t1 + count_events P t2)%nat.
Proof. unfold count_events. by rewrite filter_app, length_app. Qed.

Lemma count_events_none (P : event → bool) (t : list event) :
  Forall (λ e, P e = false) t → count_events P t = 0%nat.
Proof.
  intros Ht. unfold count_events. rewrite filter_none; [done|].
  intros e He. rewrite Forall_forall in Ht. rewrite (Ht e He). discriminate.
Qed.

Lemma sync_events_not_checkout (env : collaborators) (repo : Repo.t)
    (D : list string) (C : rule_table) :
  Forall (λ e, is_checkout_event e = false) (sync_events env repo D C).
Proof.
  unfold sync_events, create_events, remove_events.
  repeat (apply Forall_app; split);
    repeat case_match; repeat constructor.
Qed.

Section SelfHeal.
Context (env : collaborators).

(** The acquiring step is one git call. *)
Lemma acquire_checkout_events (repo : Repo.t) (w : world) :
  events_of (acquire_checkout env repo) w = [EvClone (Repo.url repo)]
  ∨ events_of (acquire_checkout env repo) w = [EvPull].
Proof.
  unfold acquire_checkout, repo_dir_exists, clone_git_repo, git_pull.
  unfold_monad.
  destruct (disk w) eqn:Hd; [right|left]; apply events_of_trace;
    rewrite Hd; simpl; by destruct (git env (git_calls w)).
Qed.

(** The scanning step globs once and may read the rule file. *)
Lemma scan_checkout_events (repo : Repo.t) (w : world) :
  ∃ rest,
    events_of (scan_checkout env repo) w
      = EvGlob (Repo.tests_dir repo +:+ "*") :: rest
    ∧ (rest = [] ∨ rest = [EvLoadRules]).
Proof.
  unfold scan_checkout, discover, glob, load_test_rules. unfold_monad.
  destruct (find_on_disk (disk w) (common_dir_of repo ++ ["test_rules.json"]))
    as [[[rules|]|es]|] eqn:Hl.
  1-3: exists [EvLoadRules]; split; [|by right]; apply events_of_trace;
       simpl; rewrite Hl; simpl; by rewrite <- app_assoc.
  exists []. split; [|by left]. apply events_of_trace.
  simpl. by rewrite Hl.
Qed.

(** With a missing folder reported, the repair is: remove the checkout,
    clone again, and - when the clone returns - discover and compile once
    more.  Nothing loops back. *)
Lemma self_heal_run (repo : Repo.t) (rules : rule_table) (D1 : list string)
    (c1 : rule_table) (m1 : list string) (w : world) :
  m1 ≠ [] →
  self_heal env repo rules D1 c1 m1 w =
    let w' := count_git (log_event (EvClone (Repo.url repo))
                           (set_disk None (log_event EvRmtree w))) in
    match git env (git_calls w) with
    | GitRaises => (Ok None, w')
    | GitReturns after =>
        let D2 := discovered_on_disk env repo after in
        (Ok (Some (D2, filter (λ r, r.2 ∈ D2) rules)),
         log_event (EvGlob (Repo.tests_dir repo +:+ "*")) (set_disk after w'))
    end.
Proof.
  intros Hm. unfold self_heal, rmtree, clone_git_repo, discover, glob.
  unfold_monad. destruct m1 as [|m m1]; [done|]. simpl.
  destruct (git env (git_calls w)) as [|after]; [done|]. simpl.
  unfold discovered_on_disk, get_compiled_test_rules.
  rewrite compile_loop_spec. by destruct after.
Qed.
End SelfHeal.





(** The other way out of the repair: when the re-clone raises, the pass
    ends after it, with no discovery, no compilation and no bulk call. *)
Lemma self_heal_reclone_raises (env : collaborators) (repo : Repo.t)
    (rules c1 : rule_table) (D1 m1 : list string) (w : world) :
  m1 ≠ [] → git env (git_calls w) = GitRaises →
  (self_heal env repo rules D1 c1 m1 w).1 = Ok None
  ∧ events_of (self_heal env repo rules D1 c1 m1) w
    = [EvRmtree; EvClone (Repo.url repo)].
Proof.
  intros Hm Hgit. rewrite (self_heal_run env repo rules D1 c1 m1 w Hm).
  rewrite Hgit. split; [done|]. apply events_of_trace.
  rewrite (self_heal_run env repo rules D1 c1 m1 w Hm), Hgit. simpl.
  by rewrite <- app_assoc.
Qed.

(** The pass over [stale_checkout], start to end: one repair, the record of
    the discovered folder and the record of the rule that still has its
    target; nothing for [test-z]. *)
Example stale_checkout_pass :
  let env := simple_env [GitReturns (Some stale_checkout);
                         GitReturns (Some stale_checkout)] in
  (run (process_repo env "" (rules_repo []))).2 =
    [EvClone "https://git.example.org/qa/tests.git";
     EvGlob "tests/*"; EvLoadRules;
     EvRmtree; EvClone "https://git.example.org/qa/tests.git";
     EvGlob "tests/*"]
    ++ create_events
         [Pkg.Build None "test-a" "a"
            "https://git.example.org/qa/tests/test-a" None;
          Pkg.Build None "test-a" "^pkg-a.*"
            "https://git.example.org/qa/tests/test-a" (Some "^pkg-a.*")] 7
    ++ remove_events [] 7.
Proof. reflexivity. Qed.

(** ** Folder discovery *)

Lemma elem_of_flat_map {A B : Type} (f : A → list B) (l : list A) (y : B) :
  y ∈ flat_map f l ↔ ∃ x, x ∈ l ∧ y ∈ f x.
Proof.
  rewrite list_elem_of_In, in_flat_map.
  split; intros (x & Hx & Hy); exists x;
    by rewrite ?list_elem_of_In in *.
Qed.

Lemma split_slash_nonempty (s : string) : split_slash s ≠ [].
Proof.
  destruct s as [|c s]; [done|]. simpl.
  destruct (Ascii.eqb c "/"); [done|]. by destruct (split_slash s).
Qed.

Lemma split_slash_app (t s : string) :
  split_slash (t +:+ String "/" s) = split_slash t ++ split_slash s.
Proof.
  induction t as [|c t IH]; [done|].
  change (String c t +:+ String "/" s) with (String c (t +:+ String "/" s)).
  cbn [split_slash].
  destruct (Ascii.eqb c "/"); [by rewrite IH|].
  rewrite IH. pose proof (split_slash_nonempty t).
  by destruct (split_slash t).
Qed.

Lemma append_slash (t s : string) :
  (t +:+ "/") +:+ s = t +:+ String "/" s.
Proof.
  induction t as [|c t IH]; [done|].
  change (String c ((t +:+ "/") +:+ s) = String c (t +:+ String "/" s)).
  by rewrite IH.
Qed.

Lemma path_parts_slash_star (t : string) :
  path_parts ((t +:+ "/") +:+ "*") = path_parts (t +:+ "/") ++ ["*"].
Proof.
  unfold path_parts. rewrite append_slash.
  change (t +:+ "/") with (t +:+ String "/" "").
  rewrite !split_slash_app, !filter_app.
  change (split_slash "*") with ["*"].
  change (split_slash "") with [""].
  rewrite filter_cons_True by done.
  rewrite (filter_cons_False _ "") by (by intros [? _]).
  by rewrite !filter_nil, app_nil_r.
Qed.

Lemma fnmatch_star (name : string) : fnmatch "*" name = true.
Proof. induction name as [|c name IH]; [done|]. simpl in *. by rewrite IH. Qed.

Lemma glob_from_app (ps qs here : list string) (n : fsnode) :
  glob_from (ps ++ qs) here n
  = flat_map (λ x, glob_from qs x.1 x.2) (glob_from ps here n).
Proof.
  revert here n. induction ps as [|p ps IH]; intros here n.
  - simpl. by rewrite app_nil_r.
  - cbn [app glob_from]. destruct n as [rules|es]; [done|].
    induction es as [|e es IHes]; [done|].
    cbn [flat_map]. rewrite flat_map_app, IHes. f_equal.
    destruct (fnmatch p e.1); [apply IH|done].
Qed.

Lemma elem_of_glob_children (ps : list string) (root : fsnode)
    (path : list string) (node : fsnode) :
  (path, node) ∈ glob_from (ps ++ ["*"]) [] root ↔
  ∃ here es name,
    (here, Dir es) ∈ glob_from ps [] root
    ∧ (name, node) ∈ es ∧ path = here ++ [name].
Proof.
  rewrite glob_from_app, elem_of_flat_map. split.
  - intros ([here n] & Hn & Hx). simpl in Hx.
    destruct n as [rules|es]; [by apply elem_of_nil in Hx|].
    apply elem_of_flat_map in Hx as ([name m] & He & Hx).
    simpl in Hx. rewrite fnmatch_star in Hx.
    apply list_elem_of_singleton in Hx. simplify_eq.
    by exists here, es, name.
  - intros (here & es & name & Hn & He & ->).
    exists (here, Dir es). split; [done|]. simpl.
    apply elem_of_flat_map. exists (name, node). split; [done|].
    simpl. rewrite fnmatch_star. by apply list_elem_of_singleton.
Qed.

Lemma discover_loop_spec (env : collaborators) (pat : string)
    (found : list (list string * fsnode)) (acc : list string) :
  discover_loop env pat found acc
  = acc ++ ((λ x, path_name x.1)
              <$> filter (λ x, re_search env pat (path_name x.1) = true)
                    found).
Proof.
  revert acc. induction found as [|[folder n] found IH]; intros acc.
  - simpl. by rewrite app_nil_r.
  - cbn [discover_loop]. rewrite filter_cons. cbn [fst].
    destruct (re_search env pat (path_name folder)) eqn:Hm; cbn [negb].
    + rewrite IH, decide_True by done.
      by rewrite fmap_cons, <- app_assoc.
    + rewrite IH, decide_False by done. done.
Qed.

Lemma path_name_snoc (here : list string) (name : string) :
  path_name (here ++ [name]) = name.
Proof. unfold path_name. by rewrite last_snoc. Qed.

(** C8 as stated fails: [qa/test-notes.txt] is a regular file whose name
    starts with the prefix, and discovery returns it with the folders. *)
Lemma discovery_returns_regular_file :
  let env := simple_env [] in
  let repo := shared_repo [] in
  ∃ D,
    (discover env repo (regex_pattern_of repo)
       (checked_out_world shared_checkout)).1 = Ok D
    ∧ D = ["test-a"; "test-b"; "test-notes.txt"; "shared"]
    ∧ lookup_path ["qa"; "test-notes.txt"] shared_checkout = Some (File None)
    ∧ ¬ directories_matching env repo shared_checkout D.
Proof.
  eexists. split; [reflexivity|]. split; [reflexivity|].
  split; [reflexivity|].
  intros H. destruct (H "test-notes.txt") as [Hfile _].
  destruct Hfile as (here & es & entries & Hroot & Hchild & _);
    [compute_done|].
  vm_compute in Hroot. apply list_elem_of_singleton in Hroot.
  injection Hroot as _ ->.
  repeat (apply elem_of_cons in Hchild as [Hchild|Hchild];
          [discriminate Hchild|]).
  by apply elem_of_nil in Hchild.
Qed.

(** ** The scenarios of the specification, run *)

(** Folders [test-alpha] and [test-beta], [test-alpha] known: one record is
    created, for [test-beta] with package name [beta]; nothing is removed. *)
Example scenario_new_folder :
  let env :=
    simple_env
      [GitReturns (Some (scenario_checkout ["test-alpha"; "test-beta"]))] in
  let evs := (run (process_repo env "" (scenario_repo [known_alpha]))).2 in
  bulk_create_calls evs =
    [[Pkg.Build None "test-beta" "beta"
        "https://git.example.org/qa/tests/test-beta" None]]
  ∧ bulk_remove_calls evs = [[]].
Proof. split; reflexivity. Qed.

(** Only [test-alpha] on disk, [test-alpha] and [test-gamma] known: nothing
    is created and the identifier of [test-gamma] is removed. *)
Example scenario_vanished_folder :
  let env := simple_env [GitReturns (Some (scenario_checkout ["test-alpha"]))] in
  let evs :=
    (run (process_repo env "" (scenario_repo [known_alpha; known_gamma]))).2 in
  bulk_create_calls evs = [[]]
  ∧ bulk_remove_calls evs = [[2%Z]]
  ∧ requests evs = [("post", bulk_remove_endpoint 3, ids_payload [2%Z])].
Proof. repeat split; reflexivity. Qed.

(** The first pass over [rules_checkout] creates the two records that the
    second pass then finds known. *)
Example first_pass_over_rules_checkout :
  let env := simple_env [GitReturns (Some rules_checkout)] in
  bulk_create_calls (run (process_repo env "" (rules_repo []))).2 =
    [(λ p, Pkg.Build None (Pkg.folder_name p) (Pkg.package_name p)
             (Pkg.url p) (Pkg.regex p)) <$> known_after_first_pass].
Proof. reflexivity. Qed.

(** Without a missing folder there is no repair: the first discovery and
    compilation stand. *)
Lemma self_heal_not_needed (env : collaborators) (repo : Repo.t)
    (rules c1 : rule_table) (D1 : list string) (w : world) :
  self_heal env repo rules D1 c1 [] w = (Ok (Some (D1, c1)), w).
Proof. done. Qed.

(** A tests root configured without the final ["/"] makes the glob pattern
    [qa*], which matches entries of the repository directory itself: the
    children of [qa/] are not looked at, and nothing is discovered. *)
Example discovery_without_final_slash :
  let env := simple_env [] in
  let repo :=
    Repo.Build 12 "qa-shared" "https://git.example.org/qa/shared.git" "qa"
      (Some "test-") (Some "shared") [] in
  run (λ w, discover env repo (regex_pattern_of repo)
              (set_disk (Some shared_checkout) w))
  = (Ok [], [EvGlob "qa*"]).
Proof. reflexivity. Qed.

(** * Further properties of the pass *)

(** ** More on the rule compiler *)

Lemma filter_filter_same {A : Type} (P : A → Prop) `{∀ x, Decision (P x)}
    (l : list A) :
  filter P (filter P l) = filter P l.
Proof.
  induction l as [|x l IH]; [done|].
  rewrite filter_cons. destruct (decide (P x)); [|done].
  by rewrite filter_cons_True, IH.
Qed.

(** X1. Compiling the compiled rules again, against the same folders, changes
    nothing and reports nothing missing. *)
Theorem get_compiled_test_rules_idempotent
    (test_rules : rule_table) (remote_test_folders : list string) :
  let compiled := (get_compiled_test_rules test_rules remote_test_folders).1 in
  get_compiled_test_rules compiled remote_test_folders = (compiled, []).
Proof.
  unfold get_compiled_test_rules. rewrite !compile_loop_spec. simpl.
  rewrite filter_filter_same. f_equal.
  rewrite filter_none; [done|].
  intros r [Hr _]%list_elem_of_filter Hn. by apply Hn.
Qed.

(** X2. Every rule ends up on exactly one side: the two lists together are as
    long as the mapping, and nothing is missing exactly when every target
    is among the folders. *)
Theorem get_compiled_test_rules_accounts_for_every_rule
    (test_rules : rule_table) (remote_test_folders : list string) :
  let r := get_compiled_test_rules test_rules remote_test_folders in
  (length r.1 + length r.2 = length test_rules)%nat
  ∧ (r.2 = [] ↔ ∀ f, f ∈ test_rules.*2 → f ∈ remote_test_folders)
  ∧ (r.2 = [] ↔ r.1 = test_rules).
Proof.
  unfold get_compiled_test_rules. rewrite compile_loop_spec.
  cbn [fst snd app].
  induction test_rules as [|[pattern target] rules (IHlen & IHm & IHc)].
  - split; [done|]. split; [|done].
    split; [|done]. intros _ f Hf. by apply elem_of_nil in Hf.
  - rewrite !filter_cons. cbn [snd].
    destruct (decide (target ∈ remote_test_folders)) as [Hin|Hout].
    + rewrite decide_False by (by intros ?).
      split; [cbn [length]; lia|]. split; split.
      * intros Hm f Hf. rewrite fmap_cons in Hf. cbn [snd] in Hf.
        apply elem_of_cons in Hf as [->|Hf]; [done|]. by apply IHm.
      * intros Hall. apply IHm. intros f Hf. apply Hall.
        rewrite fmap_cons. by right.
      * intros Hm%IHc. by rewrite Hm.
      * intros Heq. apply IHc. by simplify_eq.
    + rewrite decide_True by done. rewrite fmap_cons.
      split; [cbn [length] in *; lia|]. split; split.
      * done.
      * intros Hall. exfalso. apply Hout, Hall. rewrite fmap_cons. left.
      * done.
      * intros Heq. exfalso.
        assert (Hlen : (length (filter (λ r, r.2 ∈ remote_test_folders) rules)
                        ≤ length rules)%nat) by apply length_filter.
        rewrite Heq in Hlen. cbn [length] in Hlen. lia.
Qed.

Lemma filter_sublist_impl {A : Type} (P Q : A → Prop)
    `{∀ x, Decision (P x)} `{∀ x, Decision (Q x)} (l : list A) :
  (∀ x, P x → Q x) → filter P l `sublist_of` filter Q l.
Proof.
  intros HPQ. induction l as [|x l IH]; [done|].
  rewrite !filter_cons.
  destruct (decide (P x)) as [HP|HP].
  - rewrite decide_True by auto. by apply sublist_skip.
  - destruct (decide (Q x)); [by apply sublist_cons|done].
Qed.

(** X3. More folders never cost a rule: when every folder of [D] is also in
    [D'], the rules compiled against [D] are a sub-list of those compiled
    against [D'], and what is missing against [D'] was already missing
    against [D]. *)
Theorem get_compiled_test_rules_monotone
    (test_rules : rule_table) (D D' : list string) :
  (∀ f, f ∈ D → f ∈ D') →
  (get_compiled_test_rules test_rules D).1
    `sublist_of` (get_compiled_test_rules test_rules D').1
  ∧ (get_compiled_test_rules test_rules D').2
      `sublist_of` (get_compiled_test_rules test_rules D).2.
Proof.
  intros Hsub. unfold get_compiled_test_rules.
  rewrite !compile_loop_spec. simpl. split.
  - apply filter_sublist_impl. intros r. apply Hsub.
  - apply fmap_sublist, filter_sublist_impl. intros r Hr Hn.
    by apply Hr, Hsub.
Qed.

Lemma get_compiled_test_rules_monotone_witness :
  let rules := [("^zlib-.*", "test-z"); ("^pkg-a.*", "test-a")] in
  (get_compiled_test_rules rules ["test-a"]).1
    `sublist_of` (get_compiled_test_rules rules ["test-a"; "test-z"]).1
  ∧ (get_compiled_test_rules rules ["test-a"; "test-z"]).2
      `sublist_of` (get_compiled_test_rules rules ["test-a"]).2.
Proof.
  apply (get_compiled_test_rules_monotone
           [("^zlib-.*", "test-z"); ("^pkg-a.*", "test-a")]
           ["test-a"] ["test-a"; "test-z"]).
  intros f Hf. apply elem_of_cons. by left; apply list_elem_of_singleton.
Defined.

(** ** The lookup table *)

Lemma foldl_mapping_last (known : list Pkg.t) (m : gmap string Pkg.t)
    (f : string) :
  foldl (λ m test, <[Pkg.folder_name test := test]> m) m known !! f
  = match last (records_of_folder f known) with
    | Some p => Some p
    | None => m !! f
    end.
Proof.
  revert m. induction known as [|p known IH]; intros m; [done|].
  cbn [foldl]. rewrite IH. unfold records_of_folder.
  destruct (decide (Pkg.folder_name p = f)) as [Heq|Hne].
  - rewrite (filter_cons_True _ p) by done. subst f.
    rewrite lookup_insert_eq.
    destruct (filter (λ q, Pkg.folder_name q = Pkg.folder_name p) known)
      as [|q qs]; [done|].
    change (last (p :: q :: qs)) with (last (q :: qs)).
    destruct (last (q :: qs)) eqn:Hl; [done|]. by apply last_None in Hl.
  - rewrite (filter_cons_False _ p) by done. by rewrite lookup_insert_ne.
Qed.

(** X4. The table of line 269 maps a folder name to the last known package
    that carries it (earlier ones of the same name are overwritten), and
    has no entry for a folder name no known package carries. *)
Theorem test_folders_mapping_keeps_last (known : list Pkg.t) (f : string) :
  test_folders_mapping_of known !! f = last (records_of_folder f known).
Proof.
  unfold test_folders_mapping_of. rewrite foldl_mapping_last, lookup_empty.
  by destruct (last _).
Qed.

(** ** The steps of the checkout stage, run *)

Section CheckoutRuns.
Context (env : collaborators).

Lemma acquire_checkout_run (repo : Repo.t) (w : world) :
  acquire_checkout env repo w =
    match disk w, git env (git_calls w) with
    | None, GitRaises =>
        (Ok false, count_git (log_event (EvClone (Repo.url repo)) w))
    | None, GitReturns after =>
        (Ok true,
         set_disk after (count_git (log_event (EvClone (Repo.url repo)) w)))
    | Some _, GitRaises => (Exn, count_git (log_event EvPull w))
    | Some _, GitReturns after =>
        (Ok true, set_disk after (count_git (log_event EvPull w)))
    end.
Proof.
  unfold acquire_checkout, repo_dir_exists, clone_git_repo, git_pull.
  unfold_monad.
  destruct (disk w) eqn:Hd, (git env (git_calls w)) eqn:Hg;
    simpl; rewrite ?Hd, ?Hg; simpl; by rewrite ?Hg.
Qed.

Lemma scan_checkout_run (repo : Repo.t) (w : world) :
  scan_checkout env repo w =
    let D := discovered_on_disk env repo (disk w) in
    let w1 := log_event (EvGlob (Repo.tests_dir repo +:+ "*")) w in
    match find_on_disk (disk w) (common_dir_of repo ++ ["test_rules.json"]) with
    | None => (Ok (D, [], get_compiled_test_rules [] D), w1)
    | Some (File (Some rules)) =>
        (Ok (D, rules, get_compiled_test_rules rules D),
         log_event EvLoadRules w1)
    | Some _ => (Exn, log_event EvLoadRules w1)
    end.
Proof.
  unfold scan_checkout, discover, glob, load_test_rules, discovered_on_disk.
  unfold_monad. simpl.
  by destruct (find_on_disk (disk w) _) as [[[rules|]|es]|].
Qed.

Lemma process_repo_checkout_steps (repo : Repo.t) (w : world) :
  process_repo_checkout env repo w =
    match acquire_checkout env repo w with
    | (Ok true, w1) =>
        match scan_checkout env repo w1 with
        | (Ok (D1, rules, (c1, m1)), w2) =>
            self_heal env repo rules D1 c1 m1 w2
        | (Exn, w2) => (Exn, w2)
        end
    | (Ok false, w1) => (Ok None, w1)
    | (Exn, w1) => (Exn, w1)
    end.
Proof.
  unfold process_repo_checkout. unfold mbind at 1, M_bind at 1.
  destruct (acquire_checkout env repo w) as [[[|]|] w1]; try done.
  cbn [negb]. unfold mbind, M_bind.
  by destruct (scan_checkout env repo w1) as [[[[D1 rules] [c1 m1]]|] w2].
Qed.

Lemma process_repo_run (user : string) (repo : Repo.t) (w : world) :
  let repo' := with_gerrit_url env user repo in
  process_repo env user repo w =
    match process_repo_checkout env repo' w with
    | (Ok (Some (D, compiled)), w1) => process_repo_sync env repo' D compiled w1
    | (Ok None, w1) => (Ok repo', w1)
    | (Exn, w1) => (Exn, w1)
    end.
Proof.
  intros repo'. unfold process_repo. fold repo'. unfold mbind, M_bind.
  by destruct (process_repo_checkout env repo' w) as [[[[D C]|]|] w1].
Qed.
End CheckoutRuns.

(** ** Ways a pass ends early *)

(** X5. When there is no checkout yet and the clone raises, the pass returns at
    once: the only effect is that one clone call, on the (rewritten) URL;
    nothing is discovered, created or removed, and the repository object
    keeps its packages. *)
Theorem first_clone_raises_ends_pass (env : collaborators) (user : string)
    (repo : Repo.t) (w : world) :
  let repo' := with_gerrit_url env user repo in
  disk w = None →
  git env (git_calls w) = GitRaises →
  (process_repo env user repo w).1 = Ok repo'
  ∧ events_of (process_repo env user repo) w = [EvClone (Repo.url repo')]
  ∧ Repo.packages repo' = Repo.packages repo.
Proof.
  intros repo' Hd Hg.
  assert (Hrun : process_repo env user repo w
                 = (Ok repo', count_git (log_event (EvClone (Repo.url repo')) w))).
  { rewrite process_repo_run. fold repo'.
    by rewrite process_repo_checkout_steps, acquire_checkout_run, Hd, Hg. }
  split; [by rewrite Hrun|]. split; [|apply with_gerrit_url_packages].
  apply events_of_trace. by rewrite Hrun.
Qed.

Lemma first_clone_raises_ends_pass_witness :
  let env := simple_env [GitRaises] in
  let repo := rules_repo known_a_gamma in
  (process_repo env "" repo fresh_world).1 = Ok repo
  ∧ events_of (process_repo env "" repo) fresh_world
    = [EvClone "https://git.example.org/qa/tests.git"]
  ∧ Repo.packages repo = known_a_gamma.
Proof.
  apply (first_clone_raises_ends_pass (simple_env [GitRaises]) ""
           (rules_repo known_a_gamma) fresh_world); reflexivity.
Defined.

(** X6. When a checkout exists and [git_pull] raises, nothing catches it: the
    exception leaves [process_repo] after that one call, before any
    discovery or request. *)
Theorem pull_exception_escapes (env : collaborators) (user : string)
    (repo : Repo.t) (w : world) (checkout : fsnode) :
  disk w = Some checkout →
  git env (git_calls w) = GitRaises →
  (process_repo env user repo w).1 = Exn
  ∧ events_of (process_repo env user repo) w = [EvPull]
  ∧ disk (process_repo env user repo w).2 = Some checkout.
Proof.
  intros Hd Hg.
  assert (Hrun : process_repo env user repo w
                 = (Exn, count_git (log_event EvPull w))).
  { rewrite process_repo_run.
    by rewrite process_repo_checkout_steps, acquire_checkout_run, Hd, Hg. }
  rewrite Hrun. split; [done|]. split; [|done].
  apply events_of_trace. by rewrite Hrun.
Qed.

Lemma pull_exception_escapes_witness :
  let env := simple_env [GitRaises] in
  let repo := rules_repo known_a_gamma in
  let w := checked_out_world rules_checkout in
  (process_repo env "" repo w).1 = Exn
  ∧ events_of (process_repo env "" repo) w = [EvPull]
  ∧ disk (process_repo env "" repo w).2 = Some rules_checkout.
Proof.
  apply (pull_exception_escapes (simple_env [GitRaises]) ""
           (rules_repo known_a_gamma) (checked_out_world rules_checkout)
           rules_checkout); reflexivity.
Defined.

(** X7. When something is at the place of the rule file and cannot be read as a
    rule mapping, the exception leaves [process_repo] right after the first
    discovery: no repair, no bulk call, no request. *)
Theorem unreadable_rule_file_aborts_pass (env : collaborators) (user : string)
    (repo : Repo.t) (w w1 : world) (n : fsnode) :
  let repo' := with_gerrit_url env user repo in
  let evs := events_of (process_repo env user repo) w in
  acquire_checkout env repo' w = (Ok true, w1) →
  find_on_disk (disk w1) (common_dir_of repo' ++ ["test_rules.json"])
    = Some n →
  unreadable_rules n →
  (process_repo env user repo w).1 = Exn
  ∧ evs = events_of (acquire_checkout env repo') w
          ++ [EvGlob (Repo.tests_dir repo' +:+ "*"); EvLoadRules]
  ∧ count_events is_rmtree evs = 0%nat
  ∧ bulk_create_calls evs = [] ∧ bulk_remove_calls evs = []
  ∧ requests evs = [].
Proof.
  intros repo' evs Hacq Hfind Hn.
  set (w2 := log_event EvLoadRules
               (log_event (EvGlob (Repo.tests_dir repo' +:+ "*")) w1)).
  assert (Hck : process_repo_checkout env repo' w = (Exn, w2)).
  { rewrite process_repo_checkout_steps, Hacq, scan_checkout_run.
    cbv zeta. rewrite Hfind. by destruct n as [[rules|]|es]. }
  assert (Hrun : process_repo env user repo w = (Exn, w2)).
  { rewrite process_repo_run. fold repo'. by rewrite Hck. }
  assert (Hev : evs = events_of (acquire_checkout env repo') w
                      ++ [EvGlob (Repo.tests_dir repo' +:+ "*"); EvLoadRules]).
  { subst evs. apply events_of_trace. rewrite Hrun. subst w2. simpl.
    pose proof (events_of_extends _ (acquire_checkout env repo') w
                  (acquire_checkout_effects env repo')) as Ha.
    rewrite Hacq in Ha. simpl in Ha. rewrite Ha.
    by rewrite <- !app_assoc. }
  split; [by rewrite Hrun|]. split; [done|].
  rewrite Hev.
  rewrite count_events_app, bulk_create_calls_app, bulk_remove_calls_app,
    requests_app.
  by destruct (acquire_checkout_events env repo' w) as [-> | ->].
Qed.

Lemma unreadable_rule_file_aborts_pass_witness :
  let env :=
    simple_env
      [GitReturns
         (Some (Dir [("tests",
                      Dir [("test-a", Dir []);
                           ("common",
                            Dir [("test_rules.json", File None)])])]))] in
  let repo := rules_repo known_a_gamma in
  let evs := events_of (process_repo env "" repo) fresh_world in
  (process_repo env "" repo fresh_world).1 = Exn
  ∧ evs = events_of (acquire_checkout env repo) fresh_world
          ++ [EvGlob "tests/*"; EvLoadRules]
  ∧ count_events is_rmtree evs = 0%nat
  ∧ bulk_create_calls evs = [] ∧ bulk_remove_calls evs = []
  ∧ requests evs = [].
Proof.
  intros env repo.
  exact (unreadable_rule_file_aborts_pass env "" repo fresh_world
           (acquire_checkout env repo fresh_world).2 (File None)
           eq_refl eq_refl I).
Defined.



(** ** Request failures *)

(** X10. Whether the API accepts or refuses the requests changes nothing in the
    pass: with the same checkout and git replies, the result, the effects -
    calls, requests and their order - and the disk are the same under any
    two behaviours of the API.  In particular a create request that fails
    does not keep the remove requests from being sent, and no request
    failure leaves [process_repo]. *)
Theorem request_failures_do_not_change_the_pass
    (re_search : string → string → bool)
    (re_sub : string → string → string → string)
    (urljoin : string → string → string)
    (prepare_gerrit_repo_url : string → string → string)
    (git : nat → git_reply) (http_ok http_ok' : nat → bool)
    (user : string) (repo : Repo.t) (w : world) :
  let env := Collaborators re_search re_sub urljoin prepare_gerrit_repo_url
               git http_ok in
  let env' := Collaborators re_search re_sub urljoin prepare_gerrit_repo_url
                git http_ok' in
  (process_repo env user repo w).1 = (process_repo env' user repo w).1
  ∧ events_of (process_repo env user repo) w
    = events_of (process_repo env' user repo) w
  ∧ disk (process_repo env user repo w).2
    = disk (process_repo env' user repo w).2.
Proof.
  intros env env'.
  set (repo' := with_gerrit_url env user repo).
  assert (Hrepo : with_gerrit_url env' user repo = repo') by reflexivity.
  assert (Hck : process_repo_checkout env' repo'
                = process_repo_checkout env repo') by reflexivity.
  destruct (process_repo_events env user repo w) as (ck & _ & Hckev & Hcase).
  destruct (process_repo_events env' user repo w)
    as (ck' & _ & Hckev' & Hcase').
  fold repo' in Hckev, Hcase. rewrite Hrepo, Hck in Hckev', Hcase'.
  rewrite Hckev in Hckev'. subst ck'.
  assert (Hdisk : ∀ e : collaborators,
            disk (process_repo e user repo w).2
            = disk (process_repo_checkout e (with_gerrit_url e user repo) w).2).
  { intros e. rewrite process_repo_run.
    destruct (process_repo_checkout e (with_gerrit_url e user repo) w)
      as [[[[D C]|]|] w1]; [|done..].
    by destruct (process_repo_sync_run e (with_gerrit_url e user repo) D C w1)
      as [n ->]. }
  rewrite !Hdisk, Hrepo, Hck. fold repo'.
  destruct (process_repo_checkout env repo' w).1 as [[[D C]|]|].
  - destruct Hcase as [-> ->], Hcase' as [-> ->]. done.
  - destruct Hcase as [-> ->], Hcase' as [-> ->]. done.
  - destruct Hcase as [-> ->], Hcase' as [-> ->]. done.
Qed.

(** ** What a pass sends *)

Lemma requests_sync_events (env : collaborators) (repo : Repo.t)
    (D : list string) (C : rule_table) (m : string) (e : endpoint)
    (j : payload) :
  (m, e, j) ∈ requests (sync_events env repo D C) →
  m = "post"
  ∧ ((∃ fs, fs ≠ [] ∧ e = bulk_create_endpoint (Repo.id repo)
            ∧ j = folders_payload fs
            ∧ fs ∈ bulk_create_calls (sync_events env repo D C))
     ∨ (∃ ids, ids ≠ [] ∧ e = bulk_remove_endpoint (Repo.id repo)
               ∧ j = ids_payload ids
               ∧ ids ∈ bulk_remove_calls (sync_events env repo D C))).
Proof.
  unfold sync_events.
  set (news := new_records env repo D C).
  set (pk := Repo.packages repo ++ news).
  rewrite !requests_app, !bulk_create_calls_app, !bulk_remove_calls_app.
  rewrite requests_create_events, requests_remove_events.
  rewrite bulk_create_calls_create_events, bulk_remove_calls_remove_events.
  rewrite bulk_create_calls_remove_events, bulk_remove_calls_create_events.
  rewrite !elem_of_app. intros [Hr|[Hr|Hr]].
  - destruct news as [|p ps] eqn:Hn; [by apply elem_of_nil in Hr|].
    apply list_elem_of_singleton in Hr. simplify_eq.
    split; [done|]. left. exists (p :: ps). repeat split; [done|].
    apply elem_of_app. left. left.
  - destruct (vanished_ids pk D) as [|i ids] eqn:Hv;
      [by apply elem_of_nil in Hr|].
    apply list_elem_of_singleton in Hr. simplify_eq.
    split; [done|]. right. exists (i :: ids). repeat split; [done|].
    apply elem_of_app. right. apply elem_of_app. left. left.
  - destruct (negb (nonempty D) && nonempty pk);
      [|by apply elem_of_nil in Hr].
    rewrite requests_remove_events in Hr.
    rewrite bulk_create_calls_remove_events, bulk_remove_calls_remove_events.
    destruct (all_ids pk) as [|i ids] eqn:Hv;
      [by apply elem_of_nil in Hr|].
    apply list_elem_of_singleton in Hr. simplify_eq.
    split; [done|]. right. exists (i :: ids). repeat split; [done|].
    apply elem_of_app. right. apply elem_of_app. right. left.
Qed.

(** X11. Every request of a pass is a POST to the bulk-create or bulk-remove
    endpoint of the repository being processed - never of another
    repository - and carries the non-empty list one of the bulk calls of
    that pass was given. *)
Theorem pass_requests_are_bulk_posts (env : collaborators) (user : string)
    (repo : Repo.t) (w : world) (m : string) (e : endpoint) (j : payload) :
  let evs := events_of (process_repo env user repo) w in
  (m, e, j) ∈ requests evs →
  m = "post"
  ∧ ((∃ fs, fs ≠ [] ∧ e = bulk_create_endpoint (Repo.id repo)
            ∧ j = folders_payload fs ∧ fs ∈ bulk_create_calls evs)
     ∨ (∃ ids, ids ≠ [] ∧ e = bulk_remove_endpoint (Repo.id repo)
               ∧ j = ids_payload ids ∧ ids ∈ bulk_remove_calls evs)).
Proof.
  intros evs Hreq. subst evs.
  destruct (process_repo_events env user repo w) as (ck & Hall & _ & Hcase).
  apply checkout_events_no_calls in Hall as (Hc & Hr & Hq).
  set (repo' := with_gerrit_url env user repo) in *.
  destruct (process_repo_checkout env repo' w).1 as [[[D C]|]|].
  - destruct Hcase as [Hev _]. rewrite Hev in *.
    rewrite requests_app, Hq in Hreq.
    rewrite bulk_create_calls_app, bulk_remove_calls_app, Hc, Hr.
    apply requests_sync_events in Hreq.
    assert (Hid : Repo.id repo' = Repo.id repo) by apply with_gerrit_url_id.
    by rewrite Hid in Hreq.
  - destruct Hcase as [Hev _]. rewrite Hev, Hq in Hreq.
    by apply elem_of_nil in Hreq.
  - destruct Hcase as [Hev _]. rewrite Hev, Hq in Hreq.
    by apply elem_of_nil in Hreq.
Qed.

Lemma pass_requests_are_bulk_posts_witness :
  let env := simple_env [GitReturns (Some (scenario_checkout ["test-alpha"]))] in
  let repo := scenario_repo [known_alpha; known_gamma] in
  let evs := events_of (process_repo env "" repo) fresh_world in
  "post" = "post"
  ∧ ((∃ fs, fs ≠ [] ∧ bulk_remove_endpoint 3 = bulk_create_endpoint (Repo.id repo)
            ∧ ids_payload [2%Z] = folders_payload fs
            ∧ fs ∈ bulk_create_calls evs)
     ∨ (∃ ids, ids ≠ [] ∧ bulk_remove_endpoint 3 = bulk_remove_endpoint (Repo.id repo)
               ∧ ids_payload [2%Z] = ids_payload ids
               ∧ ids ∈ bulk_remove_calls evs)).
Proof.
  apply (pass_requests_are_bulk_posts
           (simple_env [GitReturns (Some (scenario_checkout ["test-alpha"]))])
           "" (scenario_repo [known_alpha; known_gamma]) fresh_world
           "post" (bulk_remove_endpoint 3) (ids_payload [2%Z])).
  vm_compute. apply list_elem_of_here.
Defined.

(** ** How much a pass can do *)

Lemma self_heal_events_shape (env : collaborators) (repo : Repo.t)
    (rules c1 : rule_table) (D1 m1 : list string) (w : world) :
  let heal := events_of (self_heal env repo rules D1 c1 m1) w in
  heal = []
  ∨ heal = [EvRmtree; EvClone (Repo.url repo)]
  ∨ heal = [EvRmtree; EvClone (Repo.url repo);
            EvGlob (Repo.tests_dir repo +:+ "*")].
Proof.
  destruct m1 as [|m m1].
  - left. apply events_of_trace. rewrite self_heal_not_needed.
    by rewrite app_nil_r.
  - right. assert (Hm : m :: m1 ≠ []) by done.
    pose proof (self_heal_run env repo rules D1 c1 (m :: m1) w Hm) as Hrun.
    cbv zeta in Hrun.
    destruct (git env (git_calls w)) as [|after]; [left|right];
      apply events_of_trace; rewrite Hrun; simpl; by rewrite <- !app_assoc.
Qed.

Lemma process_repo_checkout_events_shape (env : collaborators)
    (repo : Repo.t) (w : world) :
  ∃ acq sc heal,
    events_of (process_repo_checkout env repo) w = acq ++ sc ++ heal
    ∧ (acq = [EvClone (Repo.url repo)] ∨ acq = [EvPull])
    ∧ (sc = [] ∨ sc = [EvGlob (Repo.tests_dir repo +:+ "*")]
       ∨ sc = [EvGlob (Repo.tests_dir repo +:+ "*"); EvLoadRules])
    ∧ (heal = [] ∨ heal = [EvRmtree; EvClone (Repo.url repo)]
       ∨ heal = [EvRmtree; EvClone (Repo.url repo);
                 EvGlob (Repo.tests_dir repo +:+ "*")]).
Proof.
  pose proof (acquire_checkout_events env repo w) as Hacq.
  pose proof (events_of_extends _ (acquire_checkout env repo) w
                (acquire_checkout_effects env repo)) as Ha.
  pose proof (process_repo_checkout_steps env repo w) as Hsteps.
  destruct (acquire_checkout env repo w) as [[[|]|] w1] eqn:Hacqr;
    simpl in Ha.
  - destruct (scan_checkout_events env repo w1) as (rest & Hsc & Hrest).
    pose proof (events_of_extends _ (scan_checkout env repo) w1
                  (scan_checkout_effects env repo)) as Hs.
    destruct (scan_checkout env repo w1) as [[[[D1 rules] [c1 m1]]|] w2]
      eqn:Hscr; simpl in Hs.
    + pose proof (events_of_extends _ (self_heal env repo rules D1 c1 m1) w2
                    (self_heal_effects env repo rules D1 c1 m1)) as Hh.
      exists (events_of (acquire_checkout env repo) w),
        (events_of (scan_checkout env repo) w1),
        (events_of (self_heal env repo rules D1 c1 m1) w2).
      split; [|split; [done|split]].
      * apply events_of_trace. rewrite Hsteps, Hh, Hs, Ha.
        by rewrite <- !app_assoc.
      * rewrite Hsc. destruct Hrest as [-> | ->]; auto.
      * apply self_heal_events_shape.
    + exists (events_of (acquire_checkout env repo) w),
        (events_of (scan_checkout env repo) w1), [].
      split; [|split; [done|split; [|by left]]].
      * apply events_of_trace. rewrite Hsteps. simpl. rewrite Hs, Ha.
        by rewrite <- !app_assoc, app_nil_r.
      * rewrite Hsc. destruct Hrest as [-> | ->]; auto.
  - exists (events_of (acquire_checkout env repo) w), [], [].
    split; [|split; [done|split; by left]].
    apply events_of_trace. rewrite Hsteps. simpl. by rewrite Ha, !app_nil_r.
  - exists (events_of (acquire_checkout env repo) w), [], [].
    split; [|split; [done|split; by left]].
    apply events_of_trace. rewrite Hsteps. simpl. by rewrite Ha, !app_nil_r.
Qed.

(** X12. Whatever the checkout, the rule file, git and the API do, one pass
    removes the checkout at most once, calls git at most twice (at most one
    pull), globs at most twice, reads the rule file at most once, calls
    [bulk_create_test_folders] at most once and
    [bulk_remove_test_folders] at most twice, and sends at most three
    requests. *)
Theorem pass_effect_bounds (env : collaborators) (user : string)
    (repo : Repo.t) (w : world) :
  let evs := events_of (process_repo env user repo) w in
  (count_events is_rmtree evs ≤ 1)%nat
  ∧ (count_events is_clone evs + count_events is_pull evs ≤ 2)%nat
  ∧ (count_events is_pull evs ≤ 1)%nat
  ∧ (count_events is_glob evs ≤ 2)%nat
  ∧ (count_events is_load_rules evs ≤ 1)%nat
  ∧ (length (bulk_create_calls evs) ≤ 1)%nat
  ∧ (length (bulk_remove_calls evs) ≤ 2)%nat
  ∧ (length (requests evs) ≤ 3)%nat.
Proof.
  intros evs. subst evs.
  set (repo' := with_gerrit_url env user repo).
  destruct (process_repo_events env user repo w) as (ck & Hall & Hckev & Hcase).
  fold repo' in Hckev, Hcase.
  destruct (process_repo_checkout_events_shape env repo' w)
    as (acq & sc & heal & Hshape & Hacq & Hsc & Hheal).
  rewrite Hckev in Hshape.
  assert (Hck : (count_events is_rmtree ck ≤ 1)%nat
                ∧ (count_events is_clone ck + count_events is_pull ck ≤ 2)%nat
                ∧ (count_events is_pull ck ≤ 1)%nat
                ∧ (count_events is_glob ck ≤ 2)%nat
                ∧ (count_events is_load_rules ck ≤ 1)%nat).
  { rewrite Hshape.
    destruct Hacq as [-> | ->]; destruct Hsc as [-> | [-> | ->]];
      destruct Hheal as [-> | [-> | ->]]; vm_compute; repeat split; lia. }
  apply checkout_events_no_calls in Hall as (Hc & Hr & Hq).
  assert (Hsync : ∀ D C,
            let s := sync_events env repo' D C in
            count_events is_rmtree s = 0%nat
            ∧ count_events is_clone s = 0%nat
            ∧ count_events is_pull s = 0%nat
            ∧ count_events is_glob s = 0%nat
            ∧ count_events is_load_rules s = 0%nat
            ∧ (length (bulk_create_calls s) ≤ 1)%nat
            ∧ (length (bulk_remove_calls s) ≤ 2)%nat
            ∧ (length (requests s) ≤ 3)%nat).
  { intros D C s. subst s.
    pose proof (sync_events_not_checkout env repo' D C) as Hs.
    do 5 (split; [apply count_events_none;
                  eapply Forall_impl; [exact Hs|]; by intros []|]).
    destruct (sync_events_calls env repo' D C) as [-> ->].
    split; [done|].
    split; [destruct (_ && _); simpl; lia|].
    unfold sync_events. rewrite !requests_app, !length_app.
    rewrite requests_create_events, requests_remove_events.
    destruct (_ && _); rewrite ?requests_remove_events;
      repeat (destruct (nonempty _)); simpl; lia. }
  destruct Hck as (? & ? & ? & ? & ?).
  destruct (process_repo_checkout env repo' w).1 as [[[D C]|]|].
  - destruct Hcase as [-> _].
    destruct (Hsync D C) as (? & ? & ? & ? & ? & ? & ? & ?).
    rewrite !count_events_app, bulk_create_calls_app, bulk_remove_calls_app,
      requests_app, !length_app, Hc, Hr, Hq.
    cbn [length]. repeat split; lia.
  - destruct Hcase as [-> _]. rewrite Hc, Hr, Hq. simpl.
    repeat split; lia.
  - destruct Hcase as [-> _]. rewrite Hc, Hr, Hq. simpl.
    repeat split; lia.
Qed.

(** ** The repository object after a pass *)

(** X13. When a pass returns, the repository object is the one it was given,
    with the (rewritten) URL and with exactly the records that were handed
    to [bulk_create_test_folders] appended to its packages, in that order:
    the known packages are kept as they were, in place. *)
Theorem packages_grow_by_created_records (env : collaborators)
    (user : string) (repo r : Repo.t) (w : world) :
  let evs := events_of (process_repo env user repo) w in
  (process_repo env user repo w).1 = Ok r →
  r = Repo.with_packages
        (Repo.packages repo ++ concat (bulk_create_calls evs))
        (with_gerrit_url env user repo).
Proof.
  intros evs Hres. subst evs.
  set (repo' := with_gerrit_url env user repo).
  assert (HK : Repo.packages repo' = Repo.packages repo)
    by apply with_gerrit_url_packages.
  destruct (process_repo_events env user repo w) as (ck & Hall & _ & Hcase).
  fold repo' in Hcase.
  apply checkout_events_no_calls in Hall as (Hc & _ & _).
  destruct (process_repo_checkout env repo' w).1 as [[[D C]|]|].
  - destruct Hcase as [-> Hr]. rewrite Hr in Hres. injection Hres as <-.
    rewrite bulk_create_calls_app, Hc.
    destruct (sync_events_calls env repo' D C) as [-> _].
    simpl. by rewrite app_nil_r, HK.
  - destruct Hcase as [-> Hr]. rewrite Hr in Hres. injection Hres as <-.
    rewrite Hc. simpl. rewrite app_nil_r, <- HK. by destruct repo'.
  - destruct Hcase as [_ Hr]. by rewrite Hr in Hres.
Qed.

Lemma packages_grow_by_created_records_witness :
  let env :=
    simple_env
      [GitReturns (Some (scenario_checkout ["test-alpha"; "test-beta"]))] in
  let repo := scenario_repo [known_alpha] in
  let evs := events_of (process_repo env "" repo) fresh_world in
  Repo.with_packages
    [known_alpha;
     Pkg.Build None "test-beta" "beta"
       "https://git.example.org/qa/tests/test-beta" None] repo
  = Repo.with_packages
      (Repo.packages repo ++ concat (bulk_create_calls evs))
      (with_gerrit_url env "" repo).
Proof.
  apply (packages_grow_by_created_records
           (simple_env
              [GitReturns
                 (Some (scenario_checkout ["test-alpha"; "test-beta"]))])
           "" (scenario_repo [known_alpha]) _ fresh_world).
  reflexivity.
Defined.

(** ** The records a pass creates *)

Lemma with_gerrit_url_fields (env : collaborators) (user : string)
    (repo : Repo.t) :
  Repo.tests_dir (with_gerrit_url env user repo) = Repo.tests_dir repo
  ∧ tests_prefix_of (with_gerrit_url env user repo) = tests_prefix_of repo.
Proof. unfold with_gerrit_url. by destruct (str_contains _ _). Qed.

Lemma process_repo_create_call (env : collaborators) (user : string)
    (repo : Repo.t) (w : world) (created : list Pkg.t) :
  let repo' := with_gerrit_url env user repo in
  created ∈ bulk_create_calls (events_of (process_repo env user repo) w) →
  ∃ D C, (process_repo_checkout env repo' w).1 = Ok (Some (D, C))
         ∧ created = new_records env repo' D C.
Proof.
  intros repo' Hcr.
  destruct (process_repo_events env user repo w) as (ck & Hck & _ & Hcase).
  fold repo' in Hcase.
  apply checkout_events_no_calls in Hck as (Hck & _ & _).
  destruct (process_repo_checkout env repo' w).1 as [[[D C]|]|] eqn:Hc.
  - exists D, C. split; [done|].
    destruct Hcase as [Hev _]. rewrite Hev in Hcr.
    rewrite bulk_create_calls_app, Hck in Hcr.
    destruct (sync_events_calls env repo' D C) as [Hs _].
    rewrite Hs in Hcr. by apply list_elem_of_singleton in Hcr.
  - destruct Hcase as [Hev _]. rewrite Hev, Hck in Hcr.
    by apply elem_of_nil in Hcr.
  - destruct Hcase as [Hev _]. rewrite Hev, Hck in Hcr.
    by apply elem_of_nil in Hcr.
Qed.

(** X14. Every record handed to [bulk_create_test_folders] has no identifier
    and a URL built by joining the repository URL, the tests root and the
    folder name.  A record without [regex] is named by the folder name with
    the prefix substituted away; a record with a [regex] is named by that
    same pattern. *)
Theorem created_record_fields (env : collaborators) (user : string)
    (repo : Repo.t) (w : world) (created : list Pkg.t) (p : Pkg.t) :
  let repo' := with_gerrit_url env user repo in
  created ∈ bulk_create_calls (events_of (process_repo env user repo) w) →
  p ∈ created →
  Pkg.id p = None
  ∧ Pkg.url p = urljoin env (urljoin env (Repo.url repo') (Repo.tests_dir repo))
                  (Pkg.folder_name p)
  ∧ match Pkg.regex p with
    | None =>
        Pkg.package_name p
        = re_sub env ("^" +:+ tests_prefix_of repo) "" (Pkg.folder_name p)
    | Some pattern => Pkg.package_name p = pattern
    end.
Proof.
  intros repo' Hcr Hp.
  apply process_repo_create_call in Hcr as (D & C & _ & ->). fold repo' in Hp.
  destruct (with_gerrit_url_fields env user repo) as [Hdir Hpre].
  fold repo' in Hdir, Hpre.
  unfold new_records, new_from_folders, new_from_rules in Hp.
  rewrite elem_of_app, !list_elem_of_fmap in Hp.
  destruct Hp as [(f & -> & _)|([pattern target] & -> & _)]; simpl.
  - by rewrite Hdir, Hpre.
  - by rewrite Hdir.
Qed.

Lemma created_record_fields_witness :
  let env := simple_env [GitReturns (Some rules_checkout)] in
  let repo := rules_repo [] in
  let p := Pkg.Build None "test-a" "^pkg-a.*"
             "https://git.example.org/qa/tests/test-a" (Some "^pkg-a.*") in
  Pkg.id p = None
  ∧ Pkg.url p = urljoin env (urljoin env (Repo.url repo) (Repo.tests_dir repo))
                  (Pkg.folder_name p)
  ∧ Pkg.package_name p = "^pkg-a.*".
Proof.
  apply (created_record_fields (simple_env [GitReturns (Some rules_checkout)])
           "" (rules_repo []) fresh_world
           [Pkg.Build None "test-a" "a"
              "https://git.example.org/qa/tests/test-a" None;
            Pkg.Build None "test-a" "^pkg-a.*"
              "https://git.example.org/qa/tests/test-a" (Some "^pkg-a.*")]).
  - vm_compute. apply list_elem_of_here.
  - apply list_elem_of_further, list_elem_of_here.
Defined.

Lemma clone_events_url (env : collaborators) (user : string)
    (repo : Repo.t) (w : world) (u : string) :
  EvClone u ∈ events_of (process_repo env user repo) w →
  u = Repo.url (with_gerrit_url env user repo).
Proof.
  set (repo' := with_gerrit_url env user repo).
  destruct (process_repo_events env user repo w) as (ck & _ & Hckev & Hcase).
  fold repo' in Hckev, Hcase.
  destruct (process_repo_checkout_events_shape env repo' w)
    as (acq & sc & heal & Hshape & Hacq & Hsc & Hheal).
  rewrite Hckev in Hshape.
  assert (Hck : EvClone u ∈ ck → u = Repo.url repo').
  { rewrite Hshape, !elem_of_app.
    destruct Hacq as [-> | ->]; destruct Hsc as [-> | [-> | ->]];
      destruct Hheal as [-> | [-> | ->]];
      rewrite ?elem_of_cons, ?elem_of_nil; intuition congruence. }
  intros Hin.
  destruct (process_repo_checkout env repo' w).1 as [[[D C]|]|].
  - destruct Hcase as [Hev _]. rewrite Hev in Hin.
    apply elem_of_app in Hin as [Hin|Hin]; [by apply Hck|].
    pose proof (sync_events_not_checkout env repo' D C) as Hs.
    rewrite Forall_forall in Hs. by specialize (Hs _ Hin).
  - destruct Hcase as [Hev _]. rewrite Hev in Hin. by apply Hck.
  - destruct Hcase as [Hev _]. rewrite Hev in Hin. by apply Hck.
Qed.

(** X15. For a repository whose URL contains [gerrit], the URL rewritten with
    the user name is the only URL the pass clones, the URL the created
    records' URLs are built on, and the URL the repository object carries
    when the pass returns. *)
Theorem gerrit_url_is_used_throughout (env : collaborators) (user : string)
    (repo : Repo.t) (w : world) :
  let evs := events_of (process_repo env user repo) w in
  let url := prepare_gerrit_repo_url env (Repo.url repo) user in
  str_contains "gerrit" (Repo.url repo) = true →
  (∀ u, EvClone u ∈ evs → u = url)
  ∧ (∀ created p, created ∈ bulk_create_calls evs → p ∈ created →
       Pkg.url p = urljoin env (urljoin env url (Repo.tests_dir repo))
                     (Pkg.folder_name p))
  ∧ (∀ r, (process_repo env user repo w).1 = Ok r → Repo.url r = url).
Proof.
  intros evs url Hg.
  assert (Hurl : Repo.url (with_gerrit_url env user repo) = url)
    by (unfold with_gerrit_url; by rewrite Hg).
  split; [|split].
  - intros u Hu%clone_events_url. by rewrite Hu.
  - intros created p Hcr Hp.
    apply process_repo_create_call in Hcr as (D & C & _ & ->).
    destruct (with_gerrit_url_fields env user repo) as [Hdir _].
    unfold new_records, new_from_folders, new_from_rules in Hp.
    rewrite elem_of_app, !list_elem_of_fmap in Hp.
    destruct Hp as [(f & -> & _)|([pattern target] & -> & _)]; simpl;
      by rewrite Hdir, Hurl.
  - intros r Hr.
    destruct (process_repo_events env user repo w) as (ck & _ & _ & Hcase).
    destruct (process_repo_checkout env _ w).1 as [[[D C]|]|];
      destruct Hcase as [_ Hres]; rewrite Hres in Hr; [| |done];
      by injection Hr as <-.
Qed.

Lemma gerrit_url_is_used_throughout_witness :
  let env := simple_env [GitReturns (Some rules_checkout)] in
  let repo := gerrit_repo [] in
  let evs := events_of (process_repo env "builder" repo) fresh_world in
  let url := "builder@ssh://gerrit.example.org:29418/qa/tests" in
  (∀ u, EvClone u ∈ evs → u = url)
  ∧ (∀ created p, created ∈ bulk_create_calls evs → p ∈ created →
       Pkg.url p = urljoin env (urljoin env url (Repo.tests_dir repo))
                     (Pkg.folder_name p))
  ∧ (∀ r, (process_repo env "builder" repo fresh_world).1 = Ok r →
          Repo.url r = url).
Proof.
  apply (gerrit_url_is_used_throughout
           (simple_env [GitReturns (Some rules_checkout)]) "builder"
           (gerrit_repo []) fresh_world).
  reflexivity.
Defined.

(** ** A repair that works *)



(** * The request gateway and the scheduler *)

(** ** The session cache *)

Lemma session_of_app_new (u : string) (s : nat) (m : list (string * nat)) :
  Gateway.session_of u m = None →
  Gateway.session_of u (m ++ [(u, s)]) = Some s.
Proof.
  induction m as [|[url t] m IH]; simpl.
  - intros _. by rewrite decide_True.
  - destruct (decide (url = u)); [done|]. apply IH.
Qed.

Lemma session_of_None (u : string) (m : list (string * nat)) :
  Gateway.session_of u m = None ↔ u ∉ m.*1.
Proof.
  induction m as [|[url t] m IH]; simpl.
  - split; [intros _; apply not_elem_of_nil|done].
  - rewrite not_elem_of_cons. destruct (decide (url = u)) as [->|Hne].
    + split; [done|]. by intros [? _].
    + rewrite IH. split; [by intros ?|by intros [_ ?]].
Qed.

Lemma session_of_Some (u : string) (s : nat) (m : list (string * nat)) :
  Gateway.session_of u m = Some s → (u, s) ∈ m.
Proof.
  induction m as [|[url t] m IH]; simpl; [done|].
  destruct (decide (url = u)) as [->|Hne].
  - intros [= ->]. left.
  - intros H. right. by apply IH.
Qed.

Lemma get_session_caches (base_url : string) (g : Gateway.net) :
  Gateway.session_of base_url
    (Gateway.session_mapping (Gateway.get_session base_url g).2)
  = Some (Gateway.get_session base_url g).1.
Proof.
  unfold Gateway.get_session.
  destruct (Gateway.session_of base_url (Gateway.session_mapping g))
    as [s|] eqn:Hs; simpl; [done|].
  by apply session_of_app_new.
Qed.

(** X17. Asking twice for the session of a base URL gives the same session, and
    the second call changes nothing: a base URL has one session for as long
    as the cache is not cleared. *)
Theorem get_session_is_cached (base_url : string) (g : Gateway.net) :
  let r := Gateway.get_session base_url g in
  Gateway.get_session base_url r.2 = r
  ∧ Gateway.session_of base_url (Gateway.session_mapping r.2) = Some r.1.
Proof.
  intros r. split; [|apply get_session_caches].
  unfold Gateway.get_session at 1. subst r.
  rewrite get_session_caches. by destruct (Gateway.get_session base_url g).
Qed.

Section GatewayFacts.
Context (genv : Gateway.gateway_env) (env : collaborators)
  (self : Gateway.cacher).

Lemma get_session_wf (u : string) (g : Gateway.net) :
  Gateway.cache_wf g → Gateway.cache_wf (Gateway.get_session u g).2.
Proof.
  intros (Hk & Hs & Hlt). unfold Gateway.get_session.
  destruct (Gateway.session_of u (Gateway.session_mapping g)) as [s|] eqn:Hu;
    [done|].
  unfold Gateway.cache_wf. simpl. rewrite !fmap_app. simpl.
  split; [|split].
  - apply NoDup_app. split; [done|]. split; [|apply NoDup_singleton].
    intros x Hx ->%list_elem_of_singleton. by apply session_of_None in Hu.
  - apply NoDup_app. split; [done|]. split; [|apply NoDup_singleton].
    intros x Hx ->%list_elem_of_singleton.
    rewrite Forall_forall in Hlt. specialize (Hlt _ Hx). lia.
  - apply Forall_app. split.
    + eapply Forall_impl; [exact Hlt|]. simpl. lia.
    + apply Forall_singleton. lia.
Qed.

Lemma make_request_state (method endpoint : string)
    (headers : option (list (string * string))) (return_text : bool)
    (json_arg : option payload) (g : Gateway.net) :
  let '(scheme, netloc, path) := Gateway.urlsplit genv endpoint in
  let r := Gateway.get_session (scheme +:+ "://" +:+ netloc) g in
  (Gateway.make_request genv method endpoint headers return_text json_arg g).2
  = Gateway.Net (Gateway.session_mapping r.2) (Gateway.opened r.2)
      (S (Gateway.sent r.2))
      (Gateway.net_trace r.2
       ++ [Gateway.NetRequest r.1 (Gateway.lower method) path headers
             json_arg]).
Proof.
  unfold Gateway.make_request.
  destruct (Gateway.urlsplit genv endpoint) as [[scheme netloc] path].
  destruct (Gateway.get_session (scheme +:+ "://" +:+ netloc) g) as [s g1].
  simpl.
  destruct (Gateway.reply genv (Gateway.sent g1)) as [|[|] text [j|]];
    simpl; by destruct return_text.
Qed.

Lemma make_request_wf (method endpoint : string)
    (headers : option (list (string * string))) (return_text : bool)
    (json_arg : option payload) (g : Gateway.net) :
  Gateway.cache_wf g →
  Gateway.cache_wf
    (Gateway.make_request genv method endpoint headers return_text
       json_arg g).2.
Proof.
  intros Hwf.
  pose proof (make_request_state method endpoint headers return_text
                json_arg g) as Hst.
  destruct (Gateway.urlsplit genv endpoint) as [[scheme netloc] path].
  rewrite Hst.
  by apply (get_session_wf (scheme +:+ "://" +:+ netloc)) in Hwf.
Qed.

Lemma close_loop_spec (items : list (string * nat)) (g : Gateway.net) :
  Gateway.close_loop genv items g
  = Gateway.Net (Gateway.session_mapping g) (Gateway.opened g)
      (Gateway.sent g)
      (Gateway.net_trace g
       ++ ((λ s, Gateway.NetClose s (Gateway.close_raises genv s))
             <$> items.*2)).
Proof.
  revert g. induction items as [|[url s] items IH]; intros g; simpl.
  - rewrite app_nil_r. by destruct g.
  - rewrite IH. simpl. by rewrite <- app_assoc.
Qed.
End GatewayFacts.

Lemma shared_session_same_url (m : list (string * nat)) (u1 u2 : string)
    (s : nat) :
  NoDup m.*2 → (u1, s) ∈ m → (u2, s) ∈ m → u1 = u2.
Proof.
  induction m as [|[u t] m IH]; simpl; [by intros _ ?%elem_of_nil|].
  intros [Hnotin Hnd]%NoDup_cons H1 H2.
  apply elem_of_cons in H1 as [H1|H1]; apply elem_of_cons in H2 as [H2|H2].
  - congruence.
  - simplify_eq. exfalso. apply Hnotin.
    apply list_elem_of_fmap. by exists (u2, t).
  - simplify_eq. exfalso. apply Hnotin.
    apply list_elem_of_fmap. by exists (u1, t).
  - by apply IH.
Qed.

(** X18. The cache stays well formed - one entry per base URL, one session per
    entry, only opened sessions - through [get_session], [make_request],
    the listing and [close_sessions]; so two base URLs never share a
    session. *)
Theorem session_cache_stays_well_formed (genv : Gateway.gateway_env)
    (env : collaborators) (self : Gateway.cacher) (g : Gateway.net)
    (base_url method endpoint : string)
    (headers : option (list (string * string))) (return_text : bool)
    (json_arg : option payload) :
  Gateway.cache_wf g →
  Gateway.cache_wf (Gateway.get_session base_url g).2
  ∧ Gateway.cache_wf
      (Gateway.make_request genv method endpoint headers return_text
         json_arg g).2
  ∧ Gateway.cache_wf (Gateway.get_test_repositories genv env self g).2
  ∧ Gateway.cache_wf (Gateway.close_sessions genv g).2
  ∧ (∀ u1 u2 s,
       (u1, s) ∈ Gateway.session_mapping g →
       (u2, s) ∈ Gateway.session_mapping g → u1 = u2).
Proof.
  intros Hwf. split; [by apply get_session_wf|].
  split; [by apply make_request_wf|]. split; [|split].
  - unfold Gateway.get_test_repositories.
    pose proof (make_request_wf genv "get"
                  (urljoin env (Gateway.bs_api_url self)
                     "/api/v1/test_repositories/")
                  (Some (Gateway.bs_headers self)) false None g Hwf) as Hm.
    destruct (Gateway.make_request _ _ _ _ _ _ g) as [[[text|j]|] g1];
      simpl in *; [| |done].
    + by case_match.
    + by case_match.
  - unfold Gateway.close_sessions, Gateway.cache_wf. simpl.
    split; [apply NoDup_nil_2|]. split; [apply NoDup_nil_2|done].
  - intros u1 u2 s. apply shared_session_same_url. by destruct Hwf as (_ & ? & _).
Qed.

Lemma session_cache_stays_well_formed_witness :
  let genv :=
    Gateway.GatewayEnv Gateway.simple_urlsplit (λ _, Gateway.Refused)
      (λ _, false) (λ _, None) (λ _ g, (Ok tt, g)) in
  let env := simple_env [] in
  let self := Gateway.Cacher "token" 600 "https://build.example.org" in
  let g := (Gateway.get_session "https://build.example.org" Gateway.fresh).2 in
  Gateway.cache_wf (Gateway.get_session "https://other.example.org" g).2
  ∧ Gateway.cache_wf
      (Gateway.make_request genv "POST" "https://other.example.org/x" None
         false None g).2
  ∧ Gateway.cache_wf (Gateway.get_test_repositories genv env self g).2
  ∧ Gateway.cache_wf (Gateway.close_sessions genv g).2
  ∧ (∀ u1 u2 s,
       (u1, s) ∈ Gateway.session_mapping g →
       (u2, s) ∈ Gateway.session_mapping g → u1 = u2).
Proof.
  intros genv env self g.
  apply (session_cache_stays_well_formed genv env self g).
  unfold Gateway.cache_wf. simpl.
  split; [apply NoDup_singleton|]. split; [apply NoDup_singleton|].
  apply Forall_singleton. lia.
Defined.

(** X19. [close_sessions] never raises and leaves the cache empty; it closes
    every cached session once, in the order they were opened for their
    base URLs, going on after a close that raised. *)
Theorem close_sessions_closes_every_session (genv : Gateway.gateway_env)
    (g : Gateway.net) :
  Gateway.close_sessions genv g
  = (Ok tt,
     Gateway.Net [] (Gateway.opened g) (Gateway.sent g)
       (Gateway.net_trace g
        ++ ((λ s, Gateway.NetClose s (Gateway.close_raises genv s))
              <$> (Gateway.session_mapping g).*2))).
Proof. unfold Gateway.close_sessions. by rewrite close_loop_spec. Qed.

(** X20. Two requests to endpoints of the same scheme and host go through the
    same session, however the first one ended: the second request opens
    nothing and leaves the cache as it was. *)
Theorem requests_to_one_host_share_a_session (genv : Gateway.gateway_env)
    (g : Gateway.net) (method1 endpoint1 method2 endpoint2 : string)
    (headers1 headers2 : option (list (string * string)))
    (return_text1 return_text2 : bool) (json1 json2 : option payload) :
  let g1 := (Gateway.make_request genv method1 endpoint1 headers1
               return_text1 json1 g).2 in
  let g2 := (Gateway.make_request genv method2 endpoint2 headers2
               return_text2 json2 g1).2 in
  (Gateway.urlsplit genv endpoint1).1 = (Gateway.urlsplit genv endpoint2).1 →
  ∃ session,
    last (Gateway.net_trace g1)
    = Some (Gateway.NetRequest session (Gateway.lower method1)
              (Gateway.urlsplit genv endpoint1).2 headers1 json1)
    ∧ Gateway.net_trace g2
      = Gateway.net_trace g1
        ++ [Gateway.NetRequest session (Gateway.lower method2)
              (Gateway.urlsplit genv endpoint2).2 headers2 json2]
    ∧ Gateway.session_mapping g2 = Gateway.session_mapping g1
    ∧ Gateway.opened g2 = Gateway.opened g1.
Proof.
  intros g1 g2 Hhost. subst g1 g2.
  pose proof (make_request_state genv method1 endpoint1 headers1 return_text1
                json1 g) as H1.
  destruct (Gateway.urlsplit genv endpoint1) as [[scheme netloc] path1].
  rewrite H1. clear H1.
  set (u := scheme +:+ "://" +:+ netloc) in *.
  set (r := Gateway.get_session u g).
  set (g1 := Gateway.Net _ _ _ _).
  pose proof (make_request_state genv method2 endpoint2 headers2 return_text2
                json2 g1) as H2.
  destruct (Gateway.urlsplit genv endpoint2) as [[scheme2 netloc2] path2].
  simpl in Hhost. injection Hhost as <- <-. fold u in H2.
  rewrite H2. clear H2.
  pose proof (get_session_caches u g) as Hcached. fold r in Hcached.
  assert (Hr : Gateway.get_session u g1 = (r.1, g1)).
  { unfold Gateway.get_session. subst g1. simpl. by rewrite Hcached. }
  rewrite Hr. exists r.1. simpl. by rewrite last_snoc.
Qed.

Lemma requests_to_one_host_share_a_session_witness :
  let genv :=
    Gateway.GatewayEnv Gateway.simple_urlsplit (λ _, Gateway.Refused)
      (λ _, false) (λ _, None) (λ _ g, (Ok tt, g)) in
  let e1 := "https://build.example.org/api/v1/test_repositories/" in
  let e2 :=
    "https://build.example.org/api/v1/test_repositories/7/packages/bulk_remove/" in
  let g1 := (Gateway.make_request genv "get" e1 None false None
               Gateway.fresh).2 in
  let g2 := (Gateway.make_request genv "POST" e2 None false
               (Some (ids_payload [2%Z])) g1).2 in
  ∃ session,
    last (Gateway.net_trace g1)
    = Some (Gateway.NetRequest session "get"
              "/api/v1/test_repositories/" None None)
    ∧ Gateway.net_trace g2
      = Gateway.net_trace g1
        ++ [Gateway.NetRequest session "post"
              "/api/v1/test_repositories/7/packages/bulk_remove/" None
              (Some (ids_payload [2%Z]))]
    ∧ Gateway.session_mapping g2 = Gateway.session_mapping g1
    ∧ Gateway.opened g2 = Gateway.opened g1.
Proof.
  intros genv e1 e2.
  exact (requests_to_one_host_share_a_session genv Gateway.fresh
           "get" e1 "POST" e2 None None false false None
           (Some (ids_payload [2%Z])) eq_refl).
Defined.

(** ** Listing the repositories *)

Section Listing.
Context (genv : Gateway.gateway_env) (env : collaborators)
  (self : Gateway.cacher).

Lemma get_session_sent (u : string) (g : Gateway.net) :
  Gateway.sent (Gateway.get_session u g).2 = Gateway.sent g.
Proof.
  unfold Gateway.get_session.
  by destruct (Gateway.session_of u (Gateway.session_mapping g)).
Qed.

Lemma make_request_result (method endpoint : string)
    (headers : option (list (string * string))) (return_text : bool)
    (json_arg : option payload) (g : Gateway.net) :
  (Gateway.make_request genv method endpoint headers return_text json_arg g).1
  = match Gateway.reply genv (Gateway.sent g) with
    | Gateway.Refused => Exn
    | Gateway.Answered status_ok text body =>
        if negb status_ok then Exn
        else if return_text then Ok (inl text)
        else match body with
             | Some j => Ok (inr j)
             | None => Exn
             end
    end.
Proof.
  unfold Gateway.make_request.
  destruct (Gateway.urlsplit genv endpoint) as [[scheme netloc] path].
  pose proof (get_session_sent (scheme +:+ "://" +:+ netloc) g) as Hs.
  destruct (Gateway.get_session (scheme +:+ "://" +:+ netloc) g) as [s g1].
  simpl in Hs. rewrite Hs.
  destruct (Gateway.reply genv (Gateway.sent g)) as [|[|] text [j|]];
    simpl; by destruct return_text.
Qed.

Lemma repositories_loop_spec (items : list Gateway.json)
    (test_repos : list Repo.t) :
  Gateway.repositories_loop genv items test_repos
  = (test_repos ++.)
      <$> mapM (λ j, match j with
                     | Gateway.JObj members => Gateway.validate genv members
                     | _ => None
                     end) items.
Proof.
  revert test_repos. induction items as [|j items IH]; intros test_repos.
  - simpl. by rewrite app_nil_r.
  - destruct j as [| | | | |members]; try done.
    cbn [Gateway.repositories_loop mapM].
    destruct (Gateway.validate genv members) as [repo|]; [|done].
    rewrite IH. simpl.
    destruct (mapM _ items) as [repos|]; [|done].
    simpl. by rewrite <- app_assoc.
Qed.
End Listing.

(** X21. The listing never fails because of the request: when the connection
    fails, the status is not a success or the body is not JSON, the request
    has been sent, the exception is swallowed and the listing is empty. *)
Theorem listing_failure_yields_no_repositories (genv : Gateway.gateway_env)
    (env : collaborators) (self : Gateway.cacher) (g : Gateway.net) :
  match Gateway.reply genv (Gateway.sent g) with
  | Gateway.Answered true _ (Some _) => False
  | _ => True
  end →
  (Gateway.get_test_repositories genv env self g).1 = Ok []
  ∧ Gateway.sent (Gateway.get_test_repositories genv env self g).2
    = S (Gateway.sent g).
Proof.
  intros Hfail. unfold Gateway.get_test_repositories.
  set (endpoint := urljoin env (Gateway.bs_api_url self)
                     "/api/v1/test_repositories/").
  pose proof (make_request_result genv "get" endpoint
                (Some (Gateway.bs_headers self)) false None g) as Hres.
  pose proof (make_request_state genv "get" endpoint
                (Some (Gateway.bs_headers self)) false None g) as Hst.
  destruct (Gateway.urlsplit genv endpoint) as [[scheme netloc] path].
  pose proof (get_session_sent (scheme +:+ "://" +:+ netloc) g) as Hsent.
  destruct (Gateway.make_request genv "get" endpoint _ false None g)
    as [r g1]. simpl in Hres, Hst. subst g1 r.
  destruct (Gateway.reply genv (Gateway.sent g)) as [|[|] text [j|]];
    simpl in *; try done; by rewrite Hsent.
Qed.

Lemma listing_failure_yields_no_repositories_witness :
  let genv :=
    Gateway.GatewayEnv Gateway.simple_urlsplit
      (λ _, Gateway.Answered false "Service Unavailable" None)
      (λ _, false) (λ _, None) (λ _ g, (Ok tt, g)) in
  let env := simple_env [] in
  let self := Gateway.Cacher "token" 600 "https://build.example.org" in
  (Gateway.get_test_repositories genv env self Gateway.fresh).1 = Ok []
  ∧ Gateway.sent (Gateway.get_test_repositories genv env self Gateway.fresh).2
    = 1%nat.
Proof.
  intros genv env self.
  exact (listing_failure_yields_no_repositories genv env self Gateway.fresh I).
Defined.


(** X23. What the listing makes of a successful JSON response: a list yields
    the validated repositories in the order of the list, and raises if an
    item is no mapping or does not validate; an empty object or an empty
    string yields no repository; any other value raises. *)
Theorem listing_result (genv : Gateway.gateway_env) (env : collaborators)
    (self : Gateway.cacher) (g : Gateway.net) (text : string)
    (response : Gateway.json) :
  Gateway.reply genv (Gateway.sent g)
    = Gateway.Answered true text (Some response) →
  (Gateway.get_test_repositories genv env self g).1
  = match response with
    | Gateway.JArr items =>
        match mapM (λ j, match j with
                         | Gateway.JObj members =>
                             Gateway.validate genv members
                         | _ => None
                         end) items with
        | Some test_repos => Ok test_repos
        | None => Exn
        end
    | Gateway.JObj [] | Gateway.JStr EmptyString => Ok []
    | _ => Exn
    end.
Proof.
  intros Hreply. unfold Gateway.get_test_repositories.
  set (endpoint := urljoin env (Gateway.bs_api_url self)
                     "/api/v1/test_repositories/").
  pose proof (make_request_result genv "get" endpoint
                (Some (Gateway.bs_headers self)) false None g) as Hres.
  rewrite Hreply in Hres. simpl in Hres.
  destruct (Gateway.make_request genv "get" endpoint _ false None g)
    as [r g1]. simpl in Hres. subst r.
  destruct response as [| | |s|items|members]; simpl; try done.
  - by destruct s.
  - rewrite repositories_loop_spec. by destruct (mapM _ items).
  - by destruct members as [|[k v] members].
Qed.

Lemma listing_result_witness :
  let record := [("name", Gateway.JStr "qa")] in
  let genv :=
    Gateway.GatewayEnv Gateway.simple_urlsplit
      (λ _, Gateway.Answered true "[...]"
              (Some (Gateway.JArr [Gateway.JObj record; Gateway.JObj record])))
      (λ _, false) (λ _, Some (rules_repo [])) (λ _ g, (Ok tt, g)) in
  let env := simple_env [] in
  let self := Gateway.Cacher "token" 600 "https://build.example.org" in
  (Gateway.get_test_repositories genv env self Gateway.fresh).1
  = Ok [rules_repo []; rules_repo []].
Proof.
  intros record genv env self.
  exact (listing_result genv env self Gateway.fresh "[...]"
           (Gateway.JArr [Gateway.JObj record; Gateway.JObj record]) eq_refl).
Defined.

(** ** The loop of [run] *)

(** X24. One turn of the loop always ends the same way, whether the listing or
    the fan-out raised or not: every session cached at that point is
    closed, the cache is emptied, and the loop sleeps [sleep_timeout]
    once. *)
Theorem run_iteration_closes_sessions_and_sleeps
    (genv : Gateway.gateway_env) (env : collaborators)
    (self : Gateway.cacher) (g : Gateway.net) :
  let listing := Gateway.get_test_repositories genv env self g in
  let g2 :=
    match listing.1 with
    | Ok repos => (Gateway.fan_out genv repos listing.2).2
    | Exn => listing.2
    end in
  Gateway.run_iteration genv env self g
  = Gateway.Net [] (Gateway.opened g2) (Gateway.sent g2)
      (Gateway.net_trace g2
       ++ ((λ s, Gateway.NetClose s (Gateway.close_raises genv s))
             <$> (Gateway.session_mapping g2).*2)
       ++ [Gateway.NetSleep (Gateway.sleep_timeout self)]).
Proof.
  unfold Gateway.run_iteration.
  destruct (Gateway.get_test_repositories genv env self g) as [[repos|] g1];
    simpl; unfold Gateway.close_sessions; rewrite close_loop_spec;
    unfold Gateway.log_net; simpl; by rewrite <- app_assoc.
Qed.


(** * The pass under the request pool *)

(** ** The pool and the bulk calls *)

Lemma pooled_events_of_trace {A : Type} (m : Pooled.P A) (s : Pooled.state)
    (evs : list event) :
  trace (Pooled.world_of (m s).2) = trace (Pooled.world_of s) ++ evs →
  Pooled.events_of m s = evs.
Proof. unfold Pooled.events_of. intros ->. by rewrite drop_app_length. Qed.

Section PooledCalls.
Context (env : collaborators) (lib : Pooled.library).

Lemma pooled_make_request_run (method : string) (to : endpoint)
    (json : payload) (s : Pooled.state) :
  Pooled.make_request env lib method to json s =
    if Pooled.permit lib (Pooled.pool_calls s) (Pooled.held s) then
      (Pooled.Done
         (if http_ok env (http_calls (Pooled.world_of s))
          then Ok tt else Exn),
       Pooled.State
         (count_http (log_event (EvRequest method to json)
                        (Pooled.world_of s)))
         (S (Pooled.pool_calls s)) (Pooled.held s))
    else (Pooled.Stalled, s).
Proof.
  unfold Pooled.make_request, Pooled.with_permit, Pooled.lift, make_request.
  destruct (Pooled.permit lib _ _); [|done]. simpl.
  by destruct (http_ok env _).
Qed.

Lemma pooled_bulk_remove_run (ids : list Z) (rid : Z) (s : Pooled.state) :
  Pooled.bulk_remove_test_folders env lib ids rid s =
    Pooled.after_call lib (EvBulkRemove ids rid)
      (EvRequest "post" (bulk_remove_endpoint rid) (ids_payload ids))
      (nonempty ids) s.
Proof.
  unfold Pooled.bulk_remove_test_folders, Pooled.after_call.
  unfold_pooled. unfold emit. simpl.
  destruct ids as [|i ids]; simpl; [done|].
  rewrite pooled_make_request_run. simpl.
  destruct (Pooled.permit lib _ _); [|done].
  by destruct (http_ok env _).
Qed.

Lemma pooled_bulk_create_run (fs : list Pkg.t) (rid : Z) (s : Pooled.state) :
  Pooled.bulk_create_test_folders env lib fs rid s =
    Pooled.after_call lib (EvBulkCreate fs rid)
      (EvRequest "post" (bulk_create_endpoint rid) (folders_payload fs))
      (nonempty fs) s.
Proof.
  unfold Pooled.bulk_create_test_folders, Pooled.after_call.
  unfold_pooled. unfold emit. simpl.
  destruct fs as [|p fs]; simpl; [done|].
  rewrite pooled_make_request_run. simpl.
  destruct (Pooled.permit lib _ _); [|done].
  by destruct (http_ok env _).
Qed.

End PooledCalls.

(** ** The two loops and the apply step *)

Section PooledDiff.
Context (env : collaborators) (lib : Pooled.library) (repo : Repo.t).

Lemma pooled_folders_loop_spec (known : list Pkg.t) (remote : list string)
    (acc packages : list Pkg.t) :
  (∀ f, f ∈ remote → f ∉ folder_names known →
        Pooled.folder_record_error env lib repo f = false) →
  Pooled.folders_loop env lib repo (test_folders_mapping_of known) remote
    acc packages
  = Some (folders_loop env repo (test_folders_mapping_of known) remote
            acc packages).
Proof.
  revert acc packages.
  induction remote as [|f rest IH]; intros acc packages Hok; [done|].
  cbn [Pooled.folders_loop folders_loop].
  destruct (test_folders_mapping_of known !! f) as [p|] eqn:Hm.
  - apply IH. intros g Hg. apply Hok. by right.
  - rewrite Hok; [|by left|by apply test_folders_mapping_None].
    apply IH. intros g Hg. apply Hok. by right.
Qed.

Lemma pooled_rules_loop_spec (known : list Pkg.t) (compiled : rule_table)
    (acc packages : list Pkg.t) :
  (∀ r, r ∈ compiled → r.2 ∉ folder_names known →
        Pooled.rule_record_error env lib repo r.1 r.2 = false) →
  Pooled.rules_loop env lib repo (test_folders_mapping_of known) compiled
    acc packages
  = Some (rules_loop env repo (test_folders_mapping_of known) compiled
            acc packages).
Proof.
  revert acc packages.
  induction compiled as [|[pattern target] rest IH]; intros acc packages Hok;
    [done|].
  cbn [Pooled.rules_loop rules_loop].
  destruct (test_folders_mapping_of known !! target) as [p|] eqn:Hm.
  - apply IH. intros g Hg. apply Hok. by right.
  - pose proof (Hok (pattern, target)) as Hr. cbn [fst snd] in Hr.
    rewrite Hr; [|by left|by apply test_folders_mapping_None].
    apply IH. intros g Hg. apply Hok. by right.
Qed.

(** When the records can be built, lines 269-304 leave the records of
    [new_records] and the apply step runs on them. *)
Lemma pooled_process_repo_sync_steps (D : list string) (C : rule_table)
    (s : Pooled.state) :
  Pooled.records_build env lib repo D C →
  Pooled.process_repo_sync env lib repo D C s
  = Pooled.apply_diff env lib
      (Repo.with_packages
         (Repo.packages repo ++ new_records env repo D C) repo)
      D (new_records env repo D C) s.
Proof.
  intros [HD HC]. unfold Pooled.process_repo_sync.
  rewrite pooled_folders_loop_spec by done.
  rewrite folders_loop_spec.
  rewrite pooled_rules_loop_spec by done.
  rewrite rules_loop_spec. cbn [app].
  unfold new_records. by rewrite <- app_assoc.
Qed.

End PooledDiff.

(** The apply step: its effects are those of [calls_course], it waits when
    a call is refused its permit and returns the repository otherwise; it
    leaves the disk alone and holds what it held. *)
Lemma pooled_apply_diff_run (env : collaborators) (lib : Pooled.library)
    (repo : Repo.t) (D : list string) (news : list Pkg.t)
    (s : Pooled.state) :
  let r := Pooled.apply_diff env lib repo D news s in
  let c := Pooled.calls_course lib (Pooled.held s) (Pooled.pool_calls s)
             (Pooled.sync_calls repo D news) in
  r.1 = (if c.2 then Pooled.Stalled else Pooled.Done (Ok repo))
  ∧ trace (Pooled.world_of r.2) = trace (Pooled.world_of s) ++ c.1
  ∧ disk (Pooled.world_of r.2) = disk (Pooled.world_of s)
  ∧ Pooled.held r.2 = Pooled.held s.
Proof.
  intros r c. subst r c.
  destruct (Pooled.apply_diff env lib repo D news s) as [c1 s1] eqn:Hrun.
  unfold Pooled.apply_diff, Pooled.sync_calls in *. unfold_pooled.
  cbn [fst snd].
  destruct (negb (nonempty D) && nonempty (Repo.packages repo));
    cbn [app Pooled.calls_course];
    rewrite pooled_bulk_create_run in Hrun; unfold Pooled.after_call in Hrun;
    (destruct (nonempty news);
      [destruct (Pooled.permit lib (Pooled.pool_calls s) (Pooled.held s))|]);
    cbn [Pooled.world_of Pooled.pool_calls Pooled.held] in Hrun;
    try (injection Hrun as <- <-; cbn; by rewrite <- ?app_assoc).
  all: rewrite pooled_bulk_remove_run in Hrun; unfold Pooled.after_call in Hrun;
    cbn [Pooled.world_of Pooled.pool_calls Pooled.held] in Hrun;
    (destruct (nonempty (vanished_ids _ _));
      [destruct (Pooled.permit lib _ (Pooled.held s))|]);
    cbn [Pooled.world_of Pooled.pool_calls Pooled.held] in Hrun;
    try (injection Hrun as <- <-; cbn; by rewrite <- ?app_assoc).
  all: rewrite pooled_bulk_remove_run in Hrun; unfold Pooled.after_call in Hrun;
    cbn [Pooled.world_of Pooled.pool_calls Pooled.held] in Hrun;
    (destruct (nonempty (all_ids _));
      [destruct (Pooled.permit lib _ (Pooled.held s))|]);
    cbn [Pooled.world_of Pooled.pool_calls Pooled.held] in Hrun;
    try (injection Hrun as <- <-; cbn; by rewrite <- ?app_assoc).
Qed.

Lemma pooled_events_of_process_repo_sync (env : collaborators)
    (lib : Pooled.library) (repo : Repo.t) (D : list string)
    (C : rule_table) (s : Pooled.state) :
  let news := new_records env repo D C in
  let repo' := Repo.with_packages (Repo.packages repo ++ news) repo in
  let c := Pooled.calls_course lib (Pooled.held s) (Pooled.pool_calls s)
             (Pooled.sync_calls repo' D news) in
  Pooled.records_build env lib repo D C →
  Pooled.events_of (Pooled.process_repo_sync env lib repo D C) s = c.1
  ∧ (Pooled.process_repo_sync env lib repo D C s).1
    = (if c.2 then Pooled.Stalled else Pooled.Done (Ok repo'))
  ∧ disk (Pooled.world_of (Pooled.process_repo_sync env lib repo D C s).2)
    = disk (Pooled.world_of s)
  ∧ Pooled.held (Pooled.process_repo_sync env lib repo D C s).2
    = Pooled.held s.
Proof.
  intros news repo' c Hb.
  pose proof (pooled_process_repo_sync_steps env lib repo D C s Hb) as Hs.
  destruct (pooled_apply_diff_run env lib repo' D news s)
    as (Hr & Ht & Hd & Hh).
  fold news repo' in Hs.
  split; [|by rewrite Hs].
  apply pooled_events_of_trace. by rewrite Hs.
Qed.

(** The calls of the apply step, read off [calls_course]. *)
Lemma pooled_sync_calls_create (lib : Pooled.library) (h n : nat)
    (repo : Repo.t) (D : list string) (news : list Pkg.t) :
  bulk_create_calls
    (Pooled.calls_course lib h n (Pooled.sync_calls repo D news)).1
  = [news].
Proof.
  unfold Pooled.sync_calls.
  destruct (negb (nonempty D) && nonempty (Repo.packages repo));
    cbn [app Pooled.calls_course];
    repeat (destruct (nonempty _); [destruct (Pooled.permit lib _ _)|]);
    done.
Qed.

Lemma pooled_sync_calls_remove (lib : Pooled.library) (h n : nat)
    (repo : Repo.t) (D : list string) (news : list Pkg.t) :
  let calls :=
    bulk_remove_calls
      (Pooled.calls_course lib h n (Pooled.sync_calls repo D news)).1 in
  let vanished := vanished_ids (Repo.packages repo) D in
  let m := if nonempty news then S n else n in
  (calls = [] ∨ head calls = Some vanished)
  ∧ (nonempty news = false ∨ Pooled.permit lib n h = true →
     head calls = Some vanished)
  ∧ (nonempty news = true → Pooled.permit lib n h = false → calls = [])
  ∧ (nonempty news = false ∨ Pooled.permit lib n h = true →
     nonempty vanished = false ∨ Pooled.permit lib m h = true →
     calls = vanished ::
             (if negb (nonempty D) && nonempty (Repo.packages repo)
              then [all_ids (Repo.packages repo)] else [])).
Proof.
  unfold Pooled.sync_calls.
  destruct (negb (nonempty D) && nonempty (Repo.packages repo));
    cbn [app Pooled.calls_course];
    repeat (destruct (nonempty _); [destruct (Pooled.permit lib _ _)|]);
    cbn; intuition congruence.
Qed.

(** ** The diff of one pass *)

(** C1, as the code has it by design.  For any discovered folders [D],
    compiled rules and known packages [K], when the records of the two
    loops can be built (no pattern or URL is rejected by the libraries),
    the apply step makes one call of [bulk_create_test_folders]; its
    argument is one new record for each discovered folder not in [K],
    followed by one new record for each compiled rule whose target is not
    in [K] (a folder that is discovered and also a rule target gets a
    record of each kind).  The diff-driven call of
    [bulk_remove_test_folders] carries exactly the identifiers of the known
    packages whose folder name is not in [D] and whose [id] is truthy; it
    is made once the create request, if there is one, has had its permit
    from the pool.  No new record carries a folder name of [K], whatever
    the other fields of the known package are. *)
Theorem process_repo_sync_diff (env : collaborators) (lib : Pooled.library)
    (repo : Repo.t) (D : list string) (compiled : rule_table)
    (s : Pooled.state) :
  let K := Repo.packages repo in
  let news :=
    (new_test_of_folder env repo <$> filter (λ f, f ∉ folder_names K) D)
    ++ ((λ r, new_test_of_rule env repo r.1 r.2)
          <$> filter (λ r, r.2 ∉ folder_names K) compiled) in
  let evs :=
    Pooled.events_of (Pooled.process_repo_sync env lib repo D compiled) s in
  Pooled.records_build env lib repo D compiled →
  bulk_create_calls evs = [news]
  ∧ (news = []
     ∨ Pooled.permit lib (Pooled.pool_calls s) (Pooled.held s) = true →
     head (bulk_remove_calls evs) = Some (vanished_ids K D))
  ∧ (∀ ids, head (bulk_remove_calls evs) = Some ids →
            ids = vanished_ids K D)
  ∧ (∀ z, z ∈ vanished_ids K D ↔
          ∃ p, p ∈ K ∧ (Pkg.folder_name p ∉ D)
               ∧ Pkg.id p = Some z ∧ z ≠ 0%Z)
  ∧ (∀ p, p ∈ news → Pkg.folder_name p ∉ folder_names K).
Proof.
  intros K news evs Hb. subst evs.
  destruct (pooled_events_of_process_repo_sync env lib repo D compiled s Hb)
    as (-> & _).
  change news with (new_records env repo D compiled).
  set (repo' := Repo.with_packages _ repo).
  assert (Hv : vanished_ids (Repo.packages repo') D = vanished_ids K D).
  { apply vanished_ids_app. intros p. apply new_records_no_id. }
  destruct (pooled_sync_calls_remove lib (Pooled.held s) (Pooled.pool_calls s)
              repo' D (new_records env repo D compiled))
    as (Hsafe & Hhead & _).
  rewrite Hv in Hsafe, Hhead.
  split; [apply pooled_sync_calls_create|]. split; [|split; [|split]].
  - intros [Hn|Hp]; apply Hhead; [left; by rewrite Hn|by right].
  - intros ids Hids. destruct Hsafe as [Hs|Hs]; rewrite Hs in Hids;
      by simplify_eq.
  - apply elem_of_vanished_ids.
  - intros p. apply new_records_unknown.
Qed.

Lemma process_repo_sync_diff_witness :
  let env := simple_env [] in
  let lib := Pooled.quiet (Pooled.sole_task 2) in
  let repo := rules_repo known_a_gamma in
  let D := ["test-a"; "test-b"] in
  let compiled := [("^pkg-b.*", "test-b")] in
  let s := Pooled.entered Pooled.fresh in
  let news :=
    [Pkg.Build None "test-b" "b"
       "https://git.example.org/qa/tests/test-b" None;
     Pkg.Build None "test-b" "^pkg-b.*"
       "https://git.example.org/qa/tests/test-b" (Some "^pkg-b.*")] in
  let evs :=
    Pooled.events_of (Pooled.process_repo_sync env lib repo D compiled) s in
  bulk_create_calls evs = [news]
  ∧ (news = []
     ∨ Pooled.permit lib (Pooled.pool_calls s) (Pooled.held s) = true →
     head (bulk_remove_calls evs) = Some [2%Z])
  ∧ (∀ ids, head (bulk_remove_calls evs) = Some ids → ids = [2%Z])
  ∧ (∀ z, z ∈ [2%Z] ↔
          ∃ p, p ∈ known_a_gamma ∧ (Pkg.folder_name p ∉ D)
               ∧ Pkg.id p = Some z ∧ z ≠ 0%Z)
  ∧ (∀ p, p ∈ news → Pkg.folder_name p ∉ folder_names known_a_gamma).
Proof.
  intros env lib repo D compiled s.
  apply (process_repo_sync_diff env lib repo D compiled s).
  split; intros; reflexivity.
Defined.

(** ** The checkout stage leaves the pool alone *)

Section PooledCheckout.
Context (env : collaborators) (lib : Pooled.library).

Lemma pooled_checkout_only_ret {A : Type} (a : A) :
  Pooled.checkout_only (mret a : Pooled.P A).
Proof. intros s. exists []. by rewrite app_nil_r. Qed.

Lemma pooled_checkout_only_raise {A : Type} :
  Pooled.checkout_only (Pooled.raise : Pooled.P A).
Proof. intros s. exists []. by rewrite app_nil_r. Qed.

Lemma pooled_checkout_only_bind {A B : Type} (m : Pooled.P A)
    (k : A → Pooled.P B) :
  Pooled.checkout_only m → (∀ a, Pooled.checkout_only (k a)) →
  Pooled.checkout_only (m ≫= k).
Proof.
  intros Hm Hk s. unfold mbind, Pooled.P_bind.
  destruct (Hm s) as (e1 & Ht1 & He1 & Hp1 & Hh1 & Hs1).
  destruct (m s) as [[[a|]|] s1]; simpl in *; [| |done].
  - destruct (Hk a s1) as (e2 & Ht2 & He2 & Hp2 & Hh2 & Hs2).
    exists (e1 ++ e2). rewrite Ht2, Ht1, Hp2, Hh2, app_assoc.
    repeat split; try done. by apply Forall_app.
  - by exists e1.
Qed.

Lemma pooled_checkout_only_try {A : Type} (m : Pooled.P A) :
  Pooled.checkout_only m → Pooled.checkout_only (Pooled.try_except m).
Proof.
  intros Hm s. unfold Pooled.try_except.
  destruct (Hm s) as (e1 & Ht1 & He1 & Hp1 & Hh1 & Hs1).
  destruct (m s) as [[[a|]|] s1]; simpl in *; [| |done]; by exists e1.
Qed.

Lemma pooled_checkout_only_lift {A : Type} (m : M A) :
  only_emits is_checkout_event m → Pooled.checkout_only (Pooled.lift m).
Proof.
  intros Hm s. destruct (Hm (Pooled.world_of s)) as (evs & Ht & He).
  exists evs. unfold Pooled.lift. by simpl.
Qed.

Lemma pooled_glob_effects (pattern : string) :
  Pooled.checkout_only (Pooled.glob lib pattern).
Proof.
  intros s. exists [EvGlob pattern]. unfold Pooled.glob.
  destruct (Pooled.absolute pattern), (Pooled.special pattern); simpl;
    (split; [done|]); (split; [by apply Forall_singleton|]); done.
Qed.

Lemma pooled_discover_effects (repo : Repo.t) (regex_pattern : string) :
  Pooled.checkout_only (Pooled.discover env lib repo regex_pattern).
Proof.
  unfold Pooled.discover.
  apply pooled_checkout_only_bind; [apply pooled_glob_effects|].
  intros found. destruct (_ && _);
    [apply pooled_checkout_only_raise|apply pooled_checkout_only_ret].
Qed.

Lemma pooled_load_test_rules_effects (repo : Repo.t) :
  Pooled.checkout_only (Pooled.load_test_rules lib repo).
Proof.
  intros s. unfold Pooled.load_test_rules.
  destruct (if Pooled.leaves_checkout repo then _ else _)
    as [[[rules|]|es]|]; simpl.
  - exists [EvLoadRules]. split; [done|].
    split; [by apply Forall_singleton|done].
  - exists [EvLoadRules]. split; [done|].
    split; [by apply Forall_singleton|done].
  - exists [EvLoadRules]. split; [done|].
    split; [by apply Forall_singleton|done].
  - exists []. by rewrite app_nil_r.
Qed.

Lemma pooled_scan_checkout_effects (repo : Repo.t) :
  Pooled.checkout_only (Pooled.scan_checkout env lib repo).
Proof.
  unfold Pooled.scan_checkout.
  apply pooled_checkout_only_bind; [apply pooled_discover_effects|].
  intros D. apply pooled_checkout_only_bind;
    [apply pooled_load_test_rules_effects|].
  intros rules. apply pooled_checkout_only_ret.
Qed.

Lemma pooled_self_heal_effects (repo : Repo.t) (test_rules : rule_table)
    (D : list string) (compiled : rule_table) (missing : list string) :
  Pooled.checkout_only
    (Pooled.self_heal env lib repo test_rules D compiled missing).
Proof.
  unfold Pooled.self_heal.
  destruct (nonempty missing); [|apply pooled_checkout_only_ret].
  apply pooled_checkout_only_bind;
    [apply pooled_checkout_only_lift, rmtree_effects|].
  intros _. apply pooled_checkout_only_bind.
  - apply pooled_checkout_only_try, pooled_checkout_only_lift,
      clone_git_repo_effects.
  - intros [[]|]; [|apply pooled_checkout_only_ret].
    apply pooled_checkout_only_bind; [apply pooled_discover_effects|].
    intros D2. destruct (get_compiled_test_rules test_rules D2).
    apply pooled_checkout_only_ret.
Qed.

Lemma pooled_process_repo_checkout_effects (repo : Repo.t) :
  Pooled.checkout_only (Pooled.process_repo_checkout env lib repo).
Proof.
  unfold Pooled.process_repo_checkout.
  apply pooled_checkout_only_bind.
  - apply pooled_checkout_only_lift, acquire_checkout_effects.
  - intros [|]; simpl; [|apply pooled_checkout_only_ret].
    apply pooled_checkout_only_bind; [apply pooled_scan_checkout_effects|].
    intros [[D rules] [c m]]. apply pooled_self_heal_effects.
Qed.

End PooledCheckout.

(** ** A whole pass under the pool *)

Lemma pooled_process_repo_sync_extends (env : collaborators)
    (lib : Pooled.library) (repo : Repo.t) (D : list string)
    (C : rule_table) (s : Pooled.state) :
  ∃ evs,
    trace (Pooled.world_of (Pooled.process_repo_sync env lib repo D C s).2)
    = trace (Pooled.world_of s) ++ evs.
Proof.
  unfold Pooled.process_repo_sync.
  destruct (Pooled.folders_loop env lib repo _ D [] _) as [[n1 p1]|];
    [|exists []; by rewrite app_nil_r].
  destruct (Pooled.rules_loop env lib repo _ C n1 p1) as [[n2 p2]|];
    [|exists []; by rewrite app_nil_r].
  destruct (pooled_apply_diff_run env lib (Repo.with_packages p2 repo) D n2 s)
    as (_ & Ht & _).
  by eexists.
Qed.

Section PooledPass.
Context (env : collaborators) (lib : Pooled.library) (user : string).

(** A pass that is refused the permit of line 184 waits before it has done
    anything. *)
Lemma pooled_process_repo_refused (repo : Repo.t) (s : Pooled.state) :
  Pooled.permit lib (Pooled.pool_calls s) (Pooled.held s) = false →
  Pooled.process_repo env lib user repo s = (Pooled.Stalled, s).
Proof.
  intros Hp. unfold Pooled.process_repo, Pooled.with_permit. by rewrite Hp.
Qed.

(** A pass that has entered: the checkout stage, then the apply step,
    then the permit of line 184 goes back - unless the pass waits. *)
Lemma pooled_process_repo_run (repo : Repo.t) (s : Pooled.state) :
  let repo' := with_gerrit_url env user repo in
  let ck := Pooled.process_repo_checkout env lib repo' (Pooled.entered s) in
  let leave (s' : Pooled.state) :=
    Pooled.State (Pooled.world_of s') (Pooled.pool_calls s')
      (pred (Pooled.held s')) in
  Pooled.enters lib user repo s →
  Pooled.process_repo env lib user repo s =
    match ck.1 with
    | Pooled.Done (Ok (Some (D, C))) =>
        match Pooled.process_repo_sync env lib repo' D C ck.2 with
        | (Pooled.Done o, s') => (Pooled.Done o, leave s')
        | (Pooled.Stalled, s') => (Pooled.Stalled, s')
        end
    | Pooled.Done (Ok None) => (Pooled.Done (Ok repo'), leave ck.2)
    | Pooled.Done Exn => (Pooled.Done Exn, leave ck.2)
    | Pooled.Stalled => (Pooled.Stalled, ck.2)
    end.
Proof.
  intros repo' ck leave [Hp Hg]. subst ck.
  unfold Pooled.process_repo, Pooled.with_permit, Pooled.process_repo_body.
  rewrite Hp, Hg. fold repo'. unfold mbind, Pooled.P_bind, Pooled.entered.
  by destruct (Pooled.process_repo_checkout env lib repo' _)
    as [[[[[D C]|]|]|] s2].
Qed.

(** The effects of a pass that has entered: those of the checkout
    stage, which are git and file system effects, then those of lines
    269-324. *)
Lemma pooled_process_repo_events (repo : Repo.t) (s : Pooled.state) :
  let repo' := with_gerrit_url env user repo in
  let ck := Pooled.process_repo_checkout env lib repo' (Pooled.entered s) in
  let evs := Pooled.events_of (Pooled.process_repo env lib user repo) s in
  Pooled.enters lib user repo s →
  ∃ cks,
    Forall (λ e, is_checkout_event e = true) cks
    ∧ Pooled.events_of (Pooled.process_repo_checkout env lib repo')
        (Pooled.entered s) = cks
    ∧ Pooled.pool_calls ck.2 = S (Pooled.pool_calls s)
    ∧ Pooled.held ck.2 = S (Pooled.held s)
    ∧ match ck.1 with
      | Pooled.Done (Ok (Some (D, C))) =>
          evs = cks
                ++ Pooled.events_of
                     (Pooled.process_repo_sync env lib repo' D C) ck.2
      | Pooled.Done (Ok None) =>
          evs = cks
          ∧ (Pooled.process_repo env lib user repo s).1
            = Pooled.Done (Ok repo')
      | Pooled.Done Exn =>
          evs = cks
          ∧ (Pooled.process_repo env lib user repo s).1 = Pooled.Done Exn
      | Pooled.Stalled => False
      end.
Proof.
  intros repo' ck evs Hadm. subst evs.
  pose proof (pooled_process_repo_run repo s Hadm) as Hrun.
  cbv zeta in Hrun. fold repo' ck in Hrun.
  destruct (pooled_process_repo_checkout_effects env lib repo'
              (Pooled.entered s)) as (cks & Ht & Hck & Hp & Hh & Hs).
  fold ck in Ht, Hp, Hh, Hs. exists cks.
  split; [done|]. split; [by apply pooled_events_of_trace|].
  split; [done|]. split; [done|].
  change (trace (Pooled.world_of (Pooled.entered s)))
    with (trace (Pooled.world_of s)) in Ht.
  destruct ck.1 as [[[[D C]|]|]|]; [| | |done].
  - destruct (pooled_process_repo_sync_extends env lib repo' D C ck.2)
      as (sy & Hsy).
    rewrite (pooled_events_of_trace _ ck.2 sy Hsy).
    apply pooled_events_of_trace. rewrite Hrun.
    destruct (Pooled.process_repo_sync env lib repo' D C ck.2) as [[o|] s3];
      simpl in *; by rewrite Hsy, Ht, app_assoc.
  - rewrite Hrun. split; [|done].
    apply pooled_events_of_trace. by rewrite Hrun.
  - rewrite Hrun. split; [|done].
    apply pooled_events_of_trace. by rewrite Hrun.
Qed.

End PooledPass.

(** ** The compiled rules of a pass target discovered folders *)

Section PooledCompiled.
Context (env : collaborators) (lib : Pooled.library).

Lemma pooled_scan_checkout_result (repo : Repo.t) (s : Pooled.state)
    (D : list string) (rules : rule_table)
    (cm : rule_table * list string) :
  (Pooled.scan_checkout env lib repo s).1 = Pooled.Done (Ok (D, rules, cm)) →
  cm = get_compiled_test_rules rules D.
Proof.
  unfold Pooled.scan_checkout. unfold_pooled.
  destruct (Pooled.discover env lib repo _ s) as [[[D1|]|] s1]; try done.
  destruct (Pooled.load_test_rules lib repo s1) as [[[r1|]|] s2]; try done.
  simpl. by intros [= <- <- <-].
Qed.

Lemma pooled_self_heal_result (repo : Repo.t) (rules c1 : rule_table)
    (D1 m1 : list string) (s : Pooled.state) (D : list string)
    (C : rule_table) :
  (Pooled.self_heal env lib repo rules D1 c1 m1 s).1
    = Pooled.Done (Ok (Some (D, C))) →
  (D = D1 ∧ C = c1) ∨ C = (get_compiled_test_rules rules D).1.
Proof.
  unfold Pooled.self_heal. destruct (nonempty m1).
  - unfold_pooled. simpl.
    destruct (clone_git_repo env (Repo.url repo) _) as [[[]|] w1]; simpl;
      try done.
    destruct (Pooled.discover env lib repo _ _) as [[[D2|]|] s2]; try done.
    destruct (get_compiled_test_rules rules D2) as [c2 m2] eqn:Hc.
    simpl. intros [= <- <-]. right. by rewrite Hc.
  - unfold_pooled. simpl. intros [= <- <-]. by left.
Qed.

Lemma pooled_checkout_compiled (repo : Repo.t) (s : Pooled.state)
    (D : list string) (C : rule_table) :
  (Pooled.process_repo_checkout env lib repo s).1
    = Pooled.Done (Ok (Some (D, C))) →
  ∃ rules, C = (get_compiled_test_rules rules D).1.
Proof.
  unfold Pooled.process_repo_checkout. unfold mbind at 1, Pooled.P_bind at 1.
  destruct (Pooled.acquire_checkout env repo s) as [[[[|]|]|] s1]; try done.
  cbn [negb]. unfold mbind, Pooled.P_bind.
  destruct (Pooled.scan_checkout env lib repo s1)
    as [[[[[D1 rules] [c1 m1]]|]|] s2] eqn:Hscan; try done.
  intros Hheal. exists rules.
  apply pooled_self_heal_result in Hheal as [[-> ->]|Hheal]; [|done].
  pose proof (pooled_scan_checkout_result repo s1 D1 rules (c1, m1)) as Hc.
  rewrite Hscan in Hc. by rewrite <- Hc.
Qed.

Lemma pooled_checkout_nothing (repo : Repo.t) (s : Pooled.state)
    (C : rule_table) :
  (Pooled.process_repo_checkout env lib repo s).1
    = Pooled.Done (Ok (Some ([], C))) →
  C = [].
Proof.
  intros (rules & ->)%pooled_checkout_compiled.
  destruct (get_compiled_test_rules rules []).1 as [|[pattern target] C] eqn:Hc;
    [done|].
  assert (target ∈ @nil string) as []%elem_of_nil.
  apply (compiled_targets_discovered rules [] pattern target).
  rewrite Hc. left.
Qed.

End PooledCompiled.

(** ** Nothing discovered, under the pool *)

(** The calls of a pass that has entered and whose checkout stage ends
    with nothing discovered: an empty create call, the diff-driven remove call with the
    truthy identifiers of all known packages and, once that call is over,
    the safeguard call with the same list. *)
Lemma pooled_nothing_discovered (env : collaborators) (lib : Pooled.library)
    (user : string) (repo : Repo.t) (s : Pooled.state) (C : rule_table) :
  let repo' := with_gerrit_url env user repo in
  let evs := Pooled.events_of (Pooled.process_repo env lib user repo) s in
  let K := Repo.packages repo in
  let n := S (Pooled.pool_calls s) in
  let h := S (Pooled.held s) in
  let request :=
    ("post", bulk_remove_endpoint (Repo.id repo), ids_payload (all_ids K)) in
  Pooled.enters lib user repo s →
  (Pooled.process_repo_checkout env lib repo' (Pooled.entered s)).1
    = Pooled.Done (Ok (Some ([], C))) →
  bulk_create_calls evs = [[]]
  ∧ (all_ids K = [] ∨ Pooled.permit lib n h = true →
     bulk_remove_calls evs
     = all_ids K :: (if nonempty K then [all_ids K] else []))
  ∧ (all_ids K ≠ [] → Pooled.permit lib n h = false →
     bulk_remove_calls evs = [all_ids K] ∧ requests evs = []
     ∧ (Pooled.process_repo env lib user repo s).1 = Pooled.Stalled)
  ∧ (all_ids K ≠ [] → Pooled.permit lib n h = true →
     requests evs
     = request :: (if Pooled.permit lib (S n) h then [request] else []))
  ∧ (all_ids K = [] → requests evs = []).
Proof.
  intros repo' evs K n h request Hadm Hck. subst n h request.
  pose proof (pooled_checkout_nothing env lib repo' _ C Hck) as ->.
  destruct (pooled_process_repo_events env lib user repo s Hadm)
    as (cks & Hcks & _ & Hp & Hh & Hcase).
  pose proof (pooled_process_repo_run env lib user repo s Hadm) as Hrun.
  cbv zeta in Hrun, Hcase. fold repo' evs in Hcase, Hrun, Hp, Hh.
  rewrite Hck in Hcase, Hrun.
  assert (Hb : Pooled.records_build env lib repo' [] [])
    by (split; intros x Hx; by apply elem_of_nil in Hx).
  destruct (pooled_events_of_process_repo_sync env lib repo' [] []
              (Pooled.process_repo_checkout env lib repo'
                 (Pooled.entered s)).2 Hb) as (Hev & Hres & _).
  rewrite Hp, Hh in Hev, Hres. rewrite Hev in Hcase.
  apply checkout_events_no_calls in Hcks as (Hc0 & Hr0 & Hq0).
  subst evs. rewrite Hcase.
  rewrite bulk_create_calls_app, bulk_remove_calls_app, requests_app,
    Hc0, Hr0, Hq0. cbn [app].
  assert (HK : Repo.packages repo' = K) by apply with_gerrit_url_packages.
  assert (Hid : Repo.id repo' = Repo.id repo) by apply with_gerrit_url_id.
  unfold Pooled.sync_calls in *.
  change (new_records env repo' [] []) with (@nil Pkg.t) in *.
  cbn [Repo.with_packages Repo.packages Repo.id nonempty negb andb] in *.
  rewrite app_nil_r, HK, Hid, vanished_ids_nil in *.
  cbn [app Pooled.calls_course] in *.
  destruct (all_ids K) as [|i ids] eqn:Hids.
  - cbn [nonempty] in *.
    destruct (nonempty K); cbn; repeat (split || intros); done.
  - cbn [nonempty] in *.
    assert (nonempty K = true) as -> by (destruct K; [done|done]).
    cbn [Pooled.calls_course] in *.
    destruct (Pooled.permit lib (S (Pooled.pool_calls s)) _).
    + destruct (Pooled.permit lib (S (S (Pooled.pool_calls s))) _); cbn;
        repeat (split || intros); done.
    + cbn [fst snd] in *. rewrite Hrun.
      destruct (Pooled.process_repo_sync env lib repo' [] [] _) as [c1 s1].
      cbn [fst] in Hres. subst c1. cbn. repeat (split || intros); try done.
      by destruct select (_ ∨ _).
Qed.

(** With something discovered the safeguard is not reached: the apply step
    makes at most the diff-driven remove call. *)
Lemma pooled_sync_one_remove_call (env : collaborators)
    (lib : Pooled.library) (repo : Repo.t) (f : string) (D : list string)
    (C : rule_table) (s : Pooled.state) :
  (length (bulk_remove_calls
             (Pooled.events_of
                (Pooled.process_repo_sync env lib repo (f :: D) C) s))
   ≤ 1)%nat.
Proof.
  unfold Pooled.process_repo_sync.
  destruct (Pooled.folders_loop env lib repo _ (f :: D) [] _) as [[n1 p1]|];
    [|rewrite (pooled_events_of_trace _ s []) by (by rewrite app_nil_r);
      simpl; lia].
  destruct (Pooled.rules_loop env lib repo _ C n1 p1) as [[n2 p2]|];
    [|rewrite (pooled_events_of_trace _ s []) by (by rewrite app_nil_r);
      simpl; lia].
  destruct (pooled_apply_diff_run env lib (Repo.with_packages p2 repo)
              (f :: D) n2 s) as (_ & Ht & _).
  rewrite (pooled_events_of_trace _ s _ Ht).
  unfold Pooled.sync_calls. cbn [nonempty negb andb app Pooled.calls_course].
  repeat (destruct (nonempty _); [destruct (Pooled.permit lib _ _)|]);
    cbn; lia.
Qed.

(** C4, as the code has it by design.  For a pass that has entered, by the
    way its checkout stage ends:
    - with nothing discovered, once the diff-driven remove call is over
      (its list is empty, or its request has had its permit), the
      safeguard - the second call of [bulk_remove_test_folders] - is made
      when the repository has known packages, with the truthy identifier of
      every known package: all N of them, in order, when all N packages
      carry one;
    - with something discovered, the safeguard is not made: there is at
      most the diff-driven call;
    - with an early return or an exception (a clone or re-clone that
      raised, an unreadable rule file), nothing is removed at all. *)
Theorem safeguard_removes_all_known (env : collaborators)
    (lib : Pooled.library) (user : string) (repo : Repo.t)
    (s : Pooled.state) :
  let repo' := with_gerrit_url env user repo in
  let evs := Pooled.events_of (Pooled.process_repo env lib user repo) s in
  let K := Repo.packages repo in
  Pooled.enters lib user repo s →
  match (Pooled.process_repo_checkout env lib repo' (Pooled.entered s)).1 with
  | Pooled.Done (Ok (Some ([], C))) =>
      all_ids K = []
      ∨ Pooled.permit lib (S (Pooled.pool_calls s)) (S (Pooled.held s))
        = true →
      bulk_remove_calls evs !! 1%nat
        = (if nonempty K then Some (all_ids K) else None)
      ∧ (∀ p z, p ∈ K → Pkg.id p = Some z → z ≠ 0%Z → z ∈ all_ids K)
      ∧ (Forall (λ p, truthy_int (Pkg.id p) = true) K →
         Some <$> all_ids K = Pkg.id <$> K
         ∧ length (all_ids K) = length K)
  | Pooled.Done (Ok (Some (_ :: _, C))) =>
      (length (bulk_remove_calls evs) ≤ 1)%nat
  | _ => bulk_remove_calls evs = []
  end.
Proof.
  intros repo' evs K Hadm.
  destruct (pooled_process_repo_events env lib user repo s Hadm)
    as (cks & Hcks & _ & _ & _ & Hcase).
  cbv zeta in Hcase. fold repo' evs in Hcase.
  pose proof (pooled_nothing_discovered env lib user repo s) as Hnone.
  cbv zeta in Hnone. fold repo' evs K in Hnone.
  apply checkout_events_no_calls in Hcks as (_ & Hr0 & _).
  destruct (Pooled.process_repo_checkout env lib repo' (Pooled.entered s)).1
    as [[[[[|f D] C]|]|]|].
  - intros Hgo. destruct (Hnone C Hadm eq_refl) as (_ & Hrm & _).
    rewrite (Hrm Hgo). split; [by destruct (nonempty K)|]. split.
    + intros p z Hp Hi Hz. apply elem_of_all_ids. by exists p.
    + intros HK. pose proof (all_ids_truthy K HK) as Hids.
      split; [done|].
      apply (f_equal length) in Hids. by rewrite !length_fmap in Hids.
  - rewrite Hcase, bulk_remove_calls_app, Hr0. apply pooled_sync_one_remove_call.
  - destruct Hcase as [-> _]. done.
  - destruct Hcase as [-> _]. done.
  - done.
Qed.

Lemma safeguard_removes_all_known_witness :
  let env := simple_env [GitReturns (Some (Dir []))] in
  let lib := Pooled.quiet (Pooled.sole_task 2) in
  let repo := rules_repo known_a_gamma in
  let evs :=
    Pooled.events_of (Pooled.process_repo env lib "" repo) Pooled.fresh in
  bulk_remove_calls evs !! 1%nat = Some [1%Z; 2%Z]
  ∧ (∀ p z, p ∈ known_a_gamma → Pkg.id p = Some z → z ≠ 0%Z →
            z ∈ [1%Z; 2%Z])
  ∧ (Forall (λ p, truthy_int (Pkg.id p) = true) known_a_gamma →
     Some <$> [1%Z; 2%Z] = Pkg.id <$> known_a_gamma
     ∧ length [1%Z; 2%Z] = length known_a_gamma).
Proof.
  intros env lib repo.
  exact (safeguard_removes_all_known env lib "" repo Pooled.fresh
           (conj eq_refl eq_refl) (or_intror eq_refl)).
Defined.

(** C4 as stated fails: the first discovery finds no folder, the rule file
    names a folder that is not there, the re-clone raises and the pass
    returns; the two known packages carry identifiers, and none of them is
    sent to [bulk_remove_test_folders]. *)
Lemma failed_reclone_schedules_nothing :
  let checkout := rules_only_checkout [("^zlib-.*", "test-z")] in
  let env := simple_env [GitReturns (Some checkout)] in
  let lib := Pooled.quiet Pooled.granting in
  let repo := rules_repo known_a_gamma in
  let pass := Pooled.process_repo env lib "" repo in
  discovered_on_disk env repo (Some checkout) = []
  ∧ Pkg.id <$> Repo.packages repo = [Some 1%Z; Some 2%Z]
  ∧ (pass Pooled.fresh).1 = Pooled.Done (Ok repo)
  ∧ Pooled.events_of pass Pooled.fresh
    = [EvClone "https://git.example.org/qa/tests.git"; EvGlob "tests/*";
       EvLoadRules; EvRmtree;
       EvClone "https://git.example.org/qa/tests.git"]
  ∧ ¬ ∃ ids, ids ∈ bulk_remove_calls (Pooled.events_of pass Pooled.fresh).
Proof.
  repeat (split; [reflexivity|]).
  intros (ids & Hids). vm_compute in Hids. by apply elem_of_nil in Hids.
Qed.

(** C10, as the code has it by design.  When the checkout stage of a
    pass that has entered ends with nothing discovered, the repository has known
    packages with identifiers, and the diff-driven removal request has had
    its permit, [bulk_remove_test_folders] is called twice in the pass with
    the same list: the diff-driven call already carries the identifier of
    every known package (no folder name is in the empty discovered list),
    and the safeguard gets that list again.  Nothing is created; the first
    call sends its request, and the second one does once it has a permit
    too. *)
Theorem empty_discovery_removes_twice (env : collaborators)
    (lib : Pooled.library) (user : string) (repo : Repo.t)
    (compiled : rule_table) (s : Pooled.state) :
  let repo' := with_gerrit_url env user repo in
  let evs := Pooled.events_of (Pooled.process_repo env lib user repo) s in
  let K := Repo.packages repo in
  let n := S (Pooled.pool_calls s) in
  let h := S (Pooled.held s) in
  let request :=
    ("post", bulk_remove_endpoint (Repo.id repo), ids_payload (all_ids K)) in
  Pooled.enters lib user repo s →
  (Pooled.process_repo_checkout env lib repo' (Pooled.entered s)).1
    = Pooled.Done (Ok (Some ([], compiled))) →
  all_ids K ≠ [] →
  Pooled.permit lib n h = true →
  vanished_ids K [] = all_ids K
  ∧ bulk_create_calls evs = [[]]
  ∧ bulk_remove_calls evs = [all_ids K; all_ids K]
  ∧ requests evs
    = request :: (if Pooled.permit lib (S n) h then [request] else []).
Proof.
  intros repo' evs K n h request Hadm Hck Hids Hp.
  destruct (pooled_nothing_discovered env lib user repo s compiled Hadm Hck)
    as (Hc & Hr & _ & Hq & _).
  fold evs K in Hc, Hr, Hq.
  split; [done|]. split; [done|]. split; [|by apply Hq].
  rewrite Hr by (by right).
  assert (nonempty K = true) as ->; [|done].
  rewrite <- (app_nil_r K). by apply all_ids_nonempty.
Qed.

Lemma empty_discovery_removes_twice_witness :
  let env := simple_env [GitReturns None] in
  let lib := Pooled.quiet (Pooled.sole_task 2) in
  let repo := rules_repo known_a_gamma in
  let evs :=
    Pooled.events_of (Pooled.process_repo env lib "" repo) Pooled.fresh in
  let request :=
    ("post", bulk_remove_endpoint 7, ids_payload [1%Z; 2%Z]) in
  vanished_ids known_a_gamma [] = [1%Z; 2%Z]
  ∧ bulk_create_calls evs = [[]]
  ∧ bulk_remove_calls evs = [[1%Z; 2%Z]; [1%Z; 2%Z]]
  ∧ requests evs = [request; request].
Proof.
  intros env lib repo.
  assert (Hids : all_ids known_a_gamma ≠ []) by (vm_compute; discriminate).
  exact (empty_discovery_removes_twice env lib "" repo [] Pooled.fresh
           (conj eq_refl eq_refl) eq_refl Hids eq_refl).
Defined.

(** C10 as stated fails: a pass pulls an existing checkout in which no
    folder is discovered while the rule file names [test-alpha]; the
    re-clone raises and the pass returns.  The known packages carry
    identifiers, and [bulk_remove_test_folders] is not called twice with
    one list - it is not called at all. *)
Lemma empty_discovery_without_remove_call :
  let checkout := rules_only_checkout [("^alpha-.*", "test-alpha")] in
  let env := simple_env [GitReturns (Some checkout)] in
  let lib := Pooled.quiet Pooled.granting in
  let repo := scenario_repo [known_alpha; known_gamma] in
  let s := Pooled.State (checked_out_world checkout) 0 0 in
  let evs := Pooled.events_of (Pooled.process_repo env lib "" repo) s in
  discovered_on_disk env repo (Some checkout) = []
  ∧ all_ids (Repo.packages repo) = [1%Z; 2%Z]
  ∧ evs = [EvPull; EvGlob "tests/*"; EvLoadRules; EvRmtree;
           EvClone "https://git.example.org/qa/scenario.git"]
  ∧ ¬ ∃ ids, bulk_remove_calls evs = [ids; ids].
Proof.
  repeat (split; [reflexivity|]).
  intros (ids & Hids). vm_compute in Hids. discriminate.
Qed.

(** The apply step makes no git or file system effect. *)
Lemma pooled_calls_course_not_checkout (lib : Pooled.library) (h n : nat)
    (repo : Repo.t) (D : list string) (news : list Pkg.t) :
  Forall (λ e, is_checkout_event e = false)
    (Pooled.calls_course lib h n (Pooled.sync_calls repo D news)).1.
Proof.
  assert (Hgen : ∀ calls n,
            Forall (λ c : event * event * bool,
                      is_checkout_event c.1.1 = false
                      ∧ is_checkout_event c.1.2 = false) calls →
            Forall (λ e, is_checkout_event e = false)
              (Pooled.calls_course lib h n calls).1).
  { intros calls. induction calls as [|[[call request] sends] calls IH];
      intros m Hc; [done|].
    apply Forall_cons in Hc as [[Hcall Hreq] Hc]. simpl in Hcall, Hreq.
    cbn [Pooled.calls_course].
    destruct sends; [destruct (Pooled.permit lib m h)|]; cbn [fst].
    - by repeat (apply Forall_cons; split; [done|]); apply IH.
    - by apply Forall_singleton.
    - by apply Forall_cons; split; [done|]; apply IH. }
  apply Hgen. unfold Pooled.sync_calls.
  apply Forall_app. split.
  - by repeat (apply Forall_cons; split; [done|]).
  - destruct (_ && _); [by apply Forall_singleton|done].
Qed.

(** ** A clone that leaves no directory *)

Lemma plain_layout_with_gerrit_url (env : collaborators) (user : string)
    (repo : Repo.t) :
  Pooled.plain_layout repo →
  Pooled.plain_layout (with_gerrit_url env user repo).
Proof. unfold with_gerrit_url. by destruct (str_contains _ _). Qed.

(** X9. In a repository of plain layout, a first clone that returns without
    raising and without leaving a directory is taken for an empty
    repository: nothing is discovered, the checkout is not repaired,
    nothing is created, and once the diff-driven remove call is over (its
    list is empty, or its request has had its permit) the identifiers of
    all known packages have gone to [bulk_remove_test_folders] - a second
    time too when there are known packages. *)
Theorem clone_without_directory_removes_all (env : collaborators)
    (lib : Pooled.library) (user : string) (repo : Repo.t)
    (s : Pooled.state) :
  let repo' := with_gerrit_url env user repo in
  let evs := Pooled.events_of (Pooled.process_repo env lib user repo) s in
  let K := Repo.packages repo in
  Pooled.enters lib user repo s →
  Pooled.plain_layout repo →
  disk (Pooled.world_of s) = None →
  git env (git_calls (Pooled.world_of s)) = GitReturns None →
  all_ids K = []
  ∨ Pooled.permit lib (S (Pooled.pool_calls s)) (S (Pooled.held s)) = true →
  (Pooled.process_repo_checkout env lib repo' (Pooled.entered s)).1
    = Pooled.Done (Ok (Some ([], [])))
  ∧ Pooled.events_of (Pooled.process_repo_checkout env lib repo')
      (Pooled.entered s)
    = [EvClone (Repo.url repo'); EvGlob (Repo.tests_dir repo' +:+ "*")]
  ∧ count_events is_rmtree evs = 0%nat
  ∧ bulk_create_calls evs = [[]]
  ∧ bulk_remove_calls evs =
      all_ids K :: (if nonempty K then [all_ids K] else []).
Proof.
  intros repo' evs K Hadm Hplain Hd Hg Hgo.
  apply (plain_layout_with_gerrit_url env user) in Hplain.
  fold repo' in Hplain. destruct Hplain as (Habs & Hsp & Hin).
  assert (Hck : Pooled.process_repo_checkout env lib repo' (Pooled.entered s)
                = (Pooled.Done (Ok (Some ([], []))),
                   Pooled.State
                     (log_event (EvGlob (Repo.tests_dir repo' +:+ "*"))
                        (set_disk None
                           (count_git
                              (log_event (EvClone (Repo.url repo'))
                                 (Pooled.world_of s)))))
                     (S (Pooled.pool_calls s)) (S (Pooled.held s)))).
  { unfold Pooled.process_repo_checkout, Pooled.acquire_checkout.
    unfold mbind at 1, Pooled.P_bind at 1, Pooled.lift at 1.
    cbn [Pooled.entered Pooled.world_of].
    rewrite acquire_checkout_run, Hd, Hg. cbn [fst snd negb].
    unfold Pooled.scan_checkout, Pooled.discover, Pooled.glob,
      Pooled.load_test_rules.
    unfold_pooled. cbn [Pooled.world_of Pooled.pool_calls Pooled.held].
    rewrite Habs, Hsp, Hin. by simpl. }
  assert (Hres : (Pooled.process_repo_checkout env lib repo'
                    (Pooled.entered s)).1
                 = Pooled.Done (Ok (Some ([], []))))
    by (by rewrite Hck).
  assert (Hcks : Pooled.events_of (Pooled.process_repo_checkout env lib repo')
                   (Pooled.entered s)
                 = [EvClone (Repo.url repo');
                    EvGlob (Repo.tests_dir repo' +:+ "*")]).
  { apply pooled_events_of_trace. rewrite Hck. simpl.
    by rewrite <- app_assoc. }
  split; [done|]. split; [done|].
  destruct (pooled_nothing_discovered env lib user repo s [] Hadm Hres)
    as (Hc & Hr & _).
  fold evs K in Hc, Hr. split; [|split; [done|by apply Hr]].
  destruct (pooled_process_repo_events env lib user repo s Hadm)
    as (cks & _ & Hev & Hp & Hh & Hcase).
  cbv zeta in Hcase, Hev, Hp, Hh. fold repo' evs in Hcase, Hev, Hp, Hh.
  rewrite Hres in Hcase. rewrite Hcks in Hev. subst cks.
  assert (Hb : Pooled.records_build env lib repo' [] [])
    by (split; intros x Hx; by apply elem_of_nil in Hx).
  destruct (pooled_events_of_process_repo_sync env lib repo' [] []
              (Pooled.process_repo_checkout env lib repo'
                 (Pooled.entered s)).2 Hb) as (Hsy & _).
  rewrite Hsy in Hcase. rewrite Hcase, count_events_app.
  rewrite (count_events_none _ (Pooled.calls_course _ _ _ _).1); [done|].
  eapply Forall_impl; [apply pooled_calls_course_not_checkout|].
  by intros [].
Qed.

Lemma clone_without_directory_removes_all_witness :
  let env := simple_env [GitReturns None] in
  let lib := Pooled.quiet (Pooled.sole_task 2) in
  let repo := rules_repo known_a_gamma in
  let evs :=
    Pooled.events_of (Pooled.process_repo env lib "" repo) Pooled.fresh in
  (Pooled.process_repo_checkout env lib repo (Pooled.entered Pooled.fresh)).1
    = Pooled.Done (Ok (Some ([], [])))
  ∧ Pooled.events_of (Pooled.process_repo_checkout env lib repo)
      (Pooled.entered Pooled.fresh)
    = [EvClone "https://git.example.org/qa/tests.git"; EvGlob "tests/*"]
  ∧ count_events is_rmtree evs = 0%nat
  ∧ bulk_create_calls evs = [[]]
  ∧ bulk_remove_calls evs = [[1%Z; 2%Z]; [1%Z; 2%Z]].
Proof.
  intros env lib repo.
  exact (clone_without_directory_removes_all env lib "" repo Pooled.fresh
           (conj eq_refl eq_refl) (conj eq_refl (conj eq_refl eq_refl))
           eq_refl eq_refl (or_intror eq_refl)).
Defined.

(** ** Folder discovery under the libraries' exceptions *)

(** C8, as the code has it.  With a tests root given as a relative path
    ending in ["/"], without character class, recursive wildcard or [..]
    part, and a pattern that [re] accepts, discovery returns the names of
    the immediate children of the tests root - directories and files
    alike - whose own name (the last part of the path) is matched by
    [re.search] with the pattern [^prefix], or [^(prefix|common_dir_name)]
    when a common folder name is configured. *)
Theorem discover_finds_matching_children (env : collaborators)
    (lib : Pooled.library) (repo : Repo.t) (t : string) (root : fsnode)
    (s : Pooled.state) :
  Repo.tests_dir repo = t +:+ "/" →
  Pooled.absolute (Repo.tests_dir repo +:+ "*") = false →
  Pooled.special (Repo.tests_dir repo +:+ "*") = false →
  Pooled.re_error lib (regex_pattern_of repo) = false →
  disk (Pooled.world_of s) = Some root →
  ∃ D,
    (Pooled.discover env lib repo (regex_pattern_of repo) s).1
      = Pooled.Done (Ok D)
    ∧ regex_pattern_of repo =
        (if truthy_str (Repo.common_test_dir_name repo)
         then "^(" +:+ tests_prefix_of repo +:+ "|"
                +:+ default "" (Repo.common_test_dir_name repo) +:+ ")"
         else "^" +:+ tests_prefix_of repo)
    ∧ ∀ name,
        name ∈ D ↔
        ∃ here es node,
          (here, Dir es)
            ∈ glob_from (path_parts (Repo.tests_dir repo)) [] root
          ∧ (name, node) ∈ es
          ∧ re_search env (regex_pattern_of repo) name = true.
Proof.
  intros Ht Habs Hsp Hre Hd. unfold Pooled.discover, Pooled.glob.
  unfold_pooled. rewrite Habs, Hsp, Hre, andb_false_r. cbn [fst snd].
  eexists. split; [done|]. split; [done|].
  intros name. rewrite Hd, Ht, path_parts_slash_star, discover_loop_spec.
  simpl. rewrite list_elem_of_fmap. split.
  - intros ([path node] & -> & [Hm Hx]%list_elem_of_filter).
    apply elem_of_glob_children in Hx as (here & es & nm & Hr & He & ->).
    simpl in *. rewrite path_name_snoc in *. by exists here, es, node.
  - intros (here & es & node & Hr & He & Hm).
    exists (here ++ [name], node). simpl. rewrite path_name_snoc.
    split; [done|]. apply list_elem_of_filter. simpl.
    rewrite path_name_snoc. split; [done|].
    apply elem_of_glob_children. by exists here, es, name.
Qed.

Lemma discover_finds_matching_children_witness :
  let env := simple_env [] in
  let lib := Pooled.quiet Pooled.granting in
  let repo := shared_repo [] in
  let s := Pooled.State (checked_out_world shared_checkout) 0 0 in
  ∃ D,
    (Pooled.discover env lib repo (regex_pattern_of repo) s).1
      = Pooled.Done (Ok D)
    ∧ regex_pattern_of repo = "^(test-|shared)"
    ∧ ∀ name,
        name ∈ D ↔
        ∃ here es node,
          (here, Dir es) ∈ glob_from ["qa"] [] shared_checkout
          ∧ (name, node) ∈ es
          ∧ re_search env "^(test-|shared)" name = true.
Proof.
  intros env lib repo s.
  exact (discover_finds_matching_children env lib repo "qa" shared_checkout s
           eq_refl eq_refl eq_refl eq_refl eq_refl).
Defined.

(** ** A pass that waits *)

(** X26. A pass needs two permits of the pool at once to send anything.
    When a pass that has entered has records to create and the permit
    for the create request never comes, the pass waits in
    [bulk_create_test_folders] for ever: it neither returns nor raises,
    sends no request, makes no remove call, and keeps the permit of line
    184.  With [requests_limit = 1] that is every pass that has something
    to send. *)
Theorem refused_request_stalls_the_pass (env : collaborators)
    (lib : Pooled.library) (user : string) (repo : Repo.t)
    (s : Pooled.state) (D : list string) (C : rule_table) :
  let repo' := with_gerrit_url env user repo in
  let pass := Pooled.process_repo env lib user repo in
  let evs := Pooled.events_of pass s in
  let news := new_records env repo' D C in
  Pooled.enters lib user repo s →
  (Pooled.process_repo_checkout env lib repo' (Pooled.entered s)).1
    = Pooled.Done (Ok (Some (D, C))) →
  Pooled.records_build env lib repo' D C →
  news ≠ [] →
  Pooled.permit lib (S (Pooled.pool_calls s)) (S (Pooled.held s)) = false →
  (pass s).1 = Pooled.Stalled
  ∧ evs = Pooled.events_of (Pooled.process_repo_checkout env lib repo')
            (Pooled.entered s)
          ++ [EvBulkCreate news (Repo.id repo)]
  ∧ requests evs = []
  ∧ bulk_remove_calls evs = []
  ∧ Pooled.held (pass s).2 = S (Pooled.held s).
Proof.
  intros repo' pass evs news Hadm Hck Hb Hnews Hp.
  destruct (pooled_process_repo_events env lib user repo s Hadm)
    as (cks & Hcks & Hev & Hpc & Hh & Hcase).
  pose proof (pooled_process_repo_run env lib user repo s Hadm) as Hrun.
  cbv zeta in Hrun, Hcase, Hev, Hpc, Hh.
  fold repo' pass evs in Hcase, Hrun, Hev, Hpc, Hh.
  rewrite Hck in Hcase, Hrun.
  destruct (pooled_events_of_process_repo_sync env lib repo' D C
              (Pooled.process_repo_checkout env lib repo'
                 (Pooled.entered s)).2 Hb) as (Hsy & Hres & _ & Hheld).
  rewrite Hpc, Hh in Hsy, Hres. rewrite Hh in Hheld.
  fold news in Hsy, Hres.
  assert (Hcourse :
            Pooled.calls_course lib (S (Pooled.held s))
              (S (Pooled.pool_calls s))
              (Pooled.sync_calls
                 (Repo.with_packages (Repo.packages repo' ++ news) repo')
                 D news)
            = ([EvBulkCreate news (Repo.id repo)], true)).
  { unfold Pooled.sync_calls. cbn [app Pooled.calls_course].
    assert (nonempty news = true) as -> by (by destruct news).
    rewrite Hp. cbn [Repo.id Repo.with_packages].
    assert (Hid : Repo.id repo' = Repo.id repo) by apply with_gerrit_url_id.
    by rewrite Hid. }
  rewrite Hcourse in Hsy, Hres. cbn [fst snd] in Hsy, Hres.
  rewrite Hsy in Hcase. rewrite Hev.
  apply checkout_events_no_calls in Hcks as (_ & Hr0 & Hq0).
  destruct (Pooled.process_repo_sync env lib repo' D C _) as [c1 s1].
  cbn [fst snd] in Hres, Hheld. subst c1. rewrite Hrun.
  split; [done|]. split; [done|].
  rewrite Hcase, requests_app, bulk_remove_calls_app, Hr0, Hq0.
  by repeat split.
Qed.

Lemma refused_request_stalls_the_pass_witness :
  let env :=
    simple_env
      [GitReturns (Some (scenario_checkout ["test-alpha"; "test-beta"]))] in
  let lib := Pooled.quiet (Pooled.sole_task 1) in
  let repo := scenario_repo [known_alpha] in
  let pass := Pooled.process_repo env lib "" repo in
  let evs := Pooled.events_of pass Pooled.fresh in
  let news :=
    [Pkg.Build None "test-beta" "beta"
       "https://git.example.org/qa/tests/test-beta" None] in
  (pass Pooled.fresh).1 = Pooled.Stalled
  ∧ evs = [EvClone "https://git.example.org/qa/scenario.git";
           EvGlob "tests/*"]
          ++ [EvBulkCreate news 3]
  ∧ requests evs = []
  ∧ bulk_remove_calls evs = []
  ∧ Pooled.held (pass Pooled.fresh).2 = 1%nat.
Proof.
  intros env lib repo.
  assert (Hnews : new_records env repo ["test-alpha"; "test-beta"] [] ≠ [])
    by (vm_compute; discriminate).
  assert (Hb : Pooled.records_build env lib repo
                 ["test-alpha"; "test-beta"] [])
    by (split; intros; reflexivity).
  exact (refused_request_stalls_the_pass env lib "" repo Pooled.fresh
           ["test-alpha"; "test-beta"] [] (conj eq_refl eq_refl) eq_refl
           Hb Hnews eq_refl).
Defined.

(** ** The sequential pass is the pooled pass with everything on its side *)

Section Agreement.
Context (env : collaborators) (lib : Pooled.library).
Hypothesis quiet : Pooled.never_raises lib.
Hypothesis granted : ∀ n h, (h < 2)%nat → Pooled.permit lib n h = true.

Lemma agrees_ret {A : Type} (h : nat) (a : A) :
  Pooled.agrees h (mret a) (mret a).
Proof. by intros s Hs. Qed.

Lemma agrees_lift {A : Type} (h : nat) (m : M A) :
  Pooled.agrees h (Pooled.lift m) m.
Proof. by intros s Hs. Qed.

Lemma agrees_bind {A B : Type} (h : nat) (p : Pooled.P A) (m : M A)
    (k : A → Pooled.P B) (k' : A → M B) :
  Pooled.agrees h p m → (∀ a, Pooled.agrees h (k a) (k' a)) →
  Pooled.agrees h (p ≫= k) (m ≫= k').
Proof.
  intros Hp Hk s Hs. unfold mbind, Pooled.P_bind, M_bind.
  destruct (Hp s Hs) as (Hr & Hw & Hh).
  destruct (p s) as [c s1], (m (Pooled.world_of s)) as [o w1].
  simpl in Hr, Hw, Hh. subst c w1.
  destruct o as [a|]; [|done]. by apply Hk.
Qed.

Lemma agrees_try {A : Type} (h : nat) (p : Pooled.P A) (m : M A) :
  Pooled.agrees h p m →
  Pooled.agrees h (Pooled.try_except p) (try_except m).
Proof.
  intros Hp s Hs. unfold Pooled.try_except, try_except.
  destruct (Hp s Hs) as (Hr & Hw & Hh).
  destruct (p s) as [c s1], (m (Pooled.world_of s)) as [o w1].
  simpl in Hr, Hw, Hh. subst c w1. by destruct o.
Qed.

Lemma agrees_make_request (method : string) (to : endpoint)
    (json : payload) :
  Pooled.agrees 1 (Pooled.make_request env lib method to json)
    (make_request env method to json).
Proof.
  intros s Hs. rewrite pooled_make_request_run, Hs.
  rewrite granted by lia. unfold make_request. simpl.
  by destruct (http_ok env _).
Qed.

Lemma agrees_bulk_remove (ids : list Z) (rid : Z) :
  Pooled.agrees 1 (Pooled.bulk_remove_test_folders env lib ids rid)
    (bulk_remove_test_folders env ids rid).
Proof.
  unfold Pooled.bulk_remove_test_folders, bulk_remove_test_folders.
  apply agrees_bind; [apply agrees_lift|]. intros _.
  destruct (negb (nonempty ids)); [apply agrees_ret|].
  apply agrees_bind; [|intros _; apply agrees_ret].
  apply agrees_try, agrees_make_request.
Qed.

Lemma agrees_bulk_create (fs : list Pkg.t) (rid : Z) :
  Pooled.agrees 1 (Pooled.bulk_create_test_folders env lib fs rid)
    (bulk_create_test_folders env fs rid).
Proof.
  unfold Pooled.bulk_create_test_folders, bulk_create_test_folders.
  apply agrees_bind; [apply agrees_lift|]. intros _.
  destruct (negb (nonempty fs)); [apply agrees_ret|].
  apply agrees_bind; [|intros _; apply agrees_ret].
  apply agrees_try, agrees_make_request.
Qed.

Lemma agrees_discover (h : nat) (repo : Repo.t) (regex_pattern : string) :
  Pooled.plain_layout repo →
  Pooled.agrees h (Pooled.discover env lib repo regex_pattern)
    (discover env repo regex_pattern).
Proof.
  intros (Habs & Hsp & _) s Hs.
  destruct quiet as (Hre & _).
  unfold Pooled.discover, Pooled.glob, discover, glob.
  unfold_pooled. unfold mbind, M_bind, mret, M_ret.
  rewrite Habs, Hsp. cbn [fst snd]. by rewrite Hre, andb_false_r.
Qed.

Lemma agrees_load_test_rules (h : nat) (repo : Repo.t) :
  Pooled.plain_layout repo →
  Pooled.agrees h (Pooled.load_test_rules lib repo)
    (load_test_rules (common_dir_of repo)).
Proof.
  intros (_ & _ & Hin) s Hs. unfold Pooled.load_test_rules, load_test_rules.
  rewrite Hin.
  by destruct (find_on_disk _ _) as [[[rules|]|es]|].
Qed.

Lemma agrees_scan_checkout (h : nat) (repo : Repo.t) :
  Pooled.plain_layout repo →
  Pooled.agrees h (Pooled.scan_checkout env lib repo)
    (scan_checkout env repo).
Proof.
  intros Hplain. unfold Pooled.scan_checkout, scan_checkout.
  apply agrees_bind; [by apply agrees_discover|]. intros D.
  apply agrees_bind; [by apply agrees_load_test_rules|]. intros rules.
  apply agrees_ret.
Qed.

Lemma agrees_self_heal (h : nat) (repo : Repo.t) (rules c1 : rule_table)
    (D1 m1 : list string) :
  Pooled.plain_layout repo →
  Pooled.agrees h (Pooled.self_heal env lib repo rules D1 c1 m1)
    (self_heal env repo rules D1 c1 m1).
Proof.
  intros Hplain. unfold Pooled.self_heal, self_heal.
  destruct (nonempty m1); [|apply agrees_ret].
  apply agrees_bind; [apply agrees_lift|]. intros _.
  apply agrees_bind; [apply agrees_try, agrees_lift|].
  intros [[]|]; [|apply agrees_ret].
  apply agrees_bind; [by apply agrees_discover|]. intros D2.
  destruct (get_compiled_test_rules rules D2). apply agrees_ret.
Qed.

Lemma agrees_process_repo_checkout (h : nat) (repo : Repo.t) :
  Pooled.plain_layout repo →
  Pooled.agrees h (Pooled.process_repo_checkout env lib repo)
    (process_repo_checkout env repo).
Proof.
  intros Hplain. unfold Pooled.process_repo_checkout, process_repo_checkout.
  apply agrees_bind; [apply agrees_lift|]. intros [|]; simpl;
    [|apply agrees_ret].
  apply agrees_bind; [by apply agrees_scan_checkout|].
  intros [[D rules] [c m]]. by apply agrees_self_heal.
Qed.

Lemma records_always_build (repo : Repo.t) (D : list string)
    (C : rule_table) :
  Pooled.records_build env lib repo D C.
Proof.
  destruct quiet as (Hre & Hurl & _ & Hrec).
  unfold Pooled.records_build, Pooled.folder_record_error,
    Pooled.rule_record_error.
  split; intros; by rewrite ?Hre, ?Hurl, ?Hrec.
Qed.

Lemma agrees_process_repo_sync (repo : Repo.t) (D : list string)
    (C : rule_table) :
  Pooled.agrees 1 (Pooled.process_repo_sync env lib repo D C)
    (process_repo_sync env repo D C).
Proof.
  intros s Hs.
  rewrite (pooled_process_repo_sync_steps env lib repo D C s)
    by apply records_always_build.
  unfold process_repo_sync. rewrite folders_loop_spec, rules_loop_spec.
  cbn [app]. rewrite <- app_assoc.
  change (new_from_folders env repo (Repo.packages repo) D
          ++ new_from_rules env repo (Repo.packages repo) C)
    with (new_records env repo D C).
  revert s Hs. unfold Pooled.apply_diff.
  apply agrees_bind; [apply agrees_bulk_create|]. intros _.
  apply agrees_bind; [apply agrees_bulk_remove|]. intros _.
  apply agrees_bind; [|intros _; apply agrees_ret].
  destruct (_ && _); [apply agrees_bulk_remove|apply agrees_ret].
Qed.

End Agreement.

(** X27. The sequential pass of the first part is the pooled pass with
    everything on its side: for a repository of plain layout, when no
    library function raises and a pass that holds fewer than two permits
    is granted the next one (a pool of two or more permits that no other
    task draws on), a pass ends as the sequential pass does - same result,
    same effects in the same order, same disk - and has given back every
    permit. *)
Theorem granted_pass_is_the_sequential_pass (env : collaborators)
    (lib : Pooled.library) (user : string) (repo : Repo.t)
    (s : Pooled.state) :
  let r := Pooled.process_repo env lib user repo s in
  let q := process_repo env user repo (Pooled.world_of s) in
  Pooled.plain_layout repo →
  Pooled.never_raises lib →
  (∀ n h, (h < 2)%nat → Pooled.permit lib n h = true) →
  Pooled.held s = 0%nat →
  r.1 = Pooled.Done q.1
  ∧ Pooled.world_of r.2 = q.2
  ∧ Pooled.held r.2 = 0%nat.
Proof.
  intros r q Hplain Hquiet Hgranted Hs. subst r q.
  assert (Hbody : Pooled.agrees 1
                    (Pooled.process_repo_body env lib user repo)
                    (process_repo env user repo)).
  { unfold Pooled.process_repo_body, process_repo.
    destruct Hquiet as (Hre & Hurl & Hger & Hrec).
    rewrite Hger, andb_false_r.
    apply agrees_bind.
    - apply agrees_process_repo_checkout; [done|].
      by apply plain_layout_with_gerrit_url.
    - intros [[D C]|]; [|apply agrees_ret].
      by apply agrees_process_repo_sync. }
  unfold Pooled.process_repo, Pooled.with_permit.
  rewrite Hs, Hgranted by lia.
  destruct (Hbody (Pooled.State (Pooled.world_of s)
                     (S (Pooled.pool_calls s)) 1) eq_refl)
    as (Hr & Hw & Hh).
  destruct (Pooled.process_repo_body env lib user repo _) as [c s1].
  cbn [fst snd Pooled.world_of] in Hr, Hw, Hh. subst c.
  cbn [fst snd Pooled.world_of Pooled.held]. by rewrite Hh.
Qed.

Lemma granted_pass_is_the_sequential_pass_witness :
  let env := simple_env [GitReturns (Some rules_checkout)] in
  let lib := Pooled.quiet (Pooled.sole_task 2) in
  let repo := rules_repo known_a_gamma in
  let r := Pooled.process_repo env lib "" repo Pooled.fresh in
  let q := process_repo env "" repo fresh_world in
  r.1 = Pooled.Done q.1
  ∧ Pooled.world_of r.2 = q.2
  ∧ Pooled.held r.2 = 0%nat.
Proof.
  intros env lib repo.
  apply (granted_pass_is_the_sequential_pass env lib "" repo Pooled.fresh).
  - repeat split.
  - repeat split.
  - intros n h Hh. unfold lib, Pooled.quiet, Pooled.sole_task. simpl.
    destruct h as [|[|h]]; [done|done|lia].
  - reflexivity.
Defined.

(** ** Discovery that raises *)

Section DiscoveryRaises.
Context (env : collaborators) (lib : Pooled.library) (user : string).

Lemma pooled_discover_state (repo : Repo.t) (regex_pattern : string)
    (s : Pooled.state) :
  let r := Pooled.discover env lib repo regex_pattern s in
  trace (Pooled.world_of r.2)
    = trace (Pooled.world_of s) ++ [EvGlob (Repo.tests_dir repo +:+ "*")]
  ∧ Pooled.held r.2 = Pooled.held s.
Proof.
  unfold Pooled.discover, Pooled.glob. unfold_pooled.
  destruct (Pooled.absolute _); [done|].
  destruct (Pooled.special _).
  - destruct (Pooled.pathlib_glob lib _ _) as [found|]; [|done].
    cbn [fst snd]. by destruct (_ && _).
  - cbn [fst snd]. by destruct (_ && _).
Qed.

(** Nothing catches an exception of the first discovery: the pass ends
    there, with the permit of line 184 given back. *)
Lemma pooled_discovery_raises_ends_pass (repo : Repo.t) (s : Pooled.state) :
  let repo' := with_gerrit_url env user repo in
  let pass := Pooled.process_repo env lib user repo in
  let evs := Pooled.events_of pass s in
  let acquire := Pooled.acquire_checkout env repo' in
  Pooled.enters lib user repo s →
  (acquire (Pooled.entered s)).1 = Pooled.Done (Ok true) →
  (Pooled.discover env lib repo' (regex_pattern_of repo')
     (acquire (Pooled.entered s)).2).1 = Pooled.Done Exn →
  (pass s).1 = Pooled.Done Exn
  ∧ evs = Pooled.events_of acquire (Pooled.entered s)
          ++ [EvGlob (Repo.tests_dir repo' +:+ "*")]
  ∧ count_events is_load_rules evs = 0%nat
  ∧ bulk_create_calls evs = [] ∧ bulk_remove_calls evs = []
  ∧ requests evs = []
  ∧ Pooled.held (pass s).2 = Pooled.held s.
Proof.
  intros repo' pass evs acquire Hadm Hacq Hdis.
  pose proof (pooled_process_repo_run env lib user repo s Hadm) as Hrun.
  cbv zeta in Hrun. fold repo' pass in Hrun.
  destruct (pooled_discover_state repo' (regex_pattern_of repo')
              (acquire (Pooled.entered s)).2) as (Htr & Hheld).
  assert (Hck : Pooled.process_repo_checkout env lib repo' (Pooled.entered s)
                = (Pooled.Done Exn,
                   (Pooled.discover env lib repo' (regex_pattern_of repo')
                      (acquire (Pooled.entered s)).2).2)).
  { unfold Pooled.process_repo_checkout. fold acquire.
    unfold mbind at 1, Pooled.P_bind at 1.
    destruct (acquire (Pooled.entered s)) as [c s1]. simpl in Hacq. subst c.
    cbn [negb fst snd] in *. unfold Pooled.scan_checkout.
    unfold mbind, Pooled.P_bind.
    destruct (Pooled.discover env lib repo' _ s1) as [c s2].
    simpl in Hdis. by subst c. }
  rewrite Hck in Hrun. cbn [fst snd] in Hrun.
  destruct (pooled_checkout_only_lift (acquire_checkout env repo')
              (acquire_checkout_effects env repo') (Pooled.entered s))
    as (aevs & Hat & Hae & _ & Hah & _).
  change (Pooled.lift (acquire_checkout env repo')) with acquire in Hat, Hah.
  assert (Hevs : evs = aevs ++ [EvGlob (Repo.tests_dir repo' +:+ "*")]).
  { apply pooled_events_of_trace. fold pass. rewrite Hrun.
    cbn [fst snd Pooled.world_of]. rewrite Htr, Hat.
    by rewrite <- app_assoc. }
  rewrite (pooled_events_of_trace acquire (Pooled.entered s) aevs Hat).
  split; [fold pass; by rewrite Hrun|]. split; [done|].
  apply checkout_events_no_calls in Hae as (Hc0 & Hr0 & Hq0).
  rewrite Hevs, count_events_app, bulk_create_calls_app,
    bulk_remove_calls_app, requests_app, Hc0, Hr0, Hq0.
  fold pass. rewrite Hrun. cbn [fst snd Pooled.held].
  rewrite Hheld, Hah. cbn [Pooled.entered Pooled.held pred].
  repeat split; try done.
  fold acquire in Hat.
  destruct (acquire_checkout_events env repo'
              (Pooled.world_of (Pooled.entered s))) as [Ha|Ha].
  - assert (aevs = [EvClone (Repo.url repo')]) as ->; [|done].
    rewrite <- Ha. symmetry. apply events_of_trace.
    unfold acquire, Pooled.acquire_checkout, Pooled.lift in Hat.
    by simpl in Hat.
  - assert (aevs = [EvPull]) as ->; [|done].
    rewrite <- Ha. symmetry. apply events_of_trace.
    unfold acquire, Pooled.acquire_checkout, Pooled.lift in Hat.
    by simpl in Hat.
Qed.

End DiscoveryRaises.

Lemma with_gerrit_url_layout (env : collaborators) (user : string)
    (repo : Repo.t) :
  Repo.tests_dir (with_gerrit_url env user repo) = Repo.tests_dir repo
  ∧ regex_pattern_of (with_gerrit_url env user repo) = regex_pattern_of repo.
Proof. unfold with_gerrit_url. by destruct (str_contains _ _). Qed.

Lemma absolute_pattern (t : string) :
  Pooled.absolute t = true → Pooled.absolute (t +:+ "*") = true.
Proof. by destruct t. Qed.

(** X28. A tests root configured as an absolute path makes the glob
    pattern absolute, which [Path.glob] refuses: once the checkout is
    there, the exception leaves [process_repo] at the first discovery -
    no rule file is read, nothing is created or removed, no request is
    sent - and the permit of line 184 goes back. *)
Theorem absolute_tests_dir_raises (env : collaborators)
    (lib : Pooled.library) (user : string) (repo : Repo.t)
    (s : Pooled.state) :
  let repo' := with_gerrit_url env user repo in
  let pass := Pooled.process_repo env lib user repo in
  let evs := Pooled.events_of pass s in
  let acquire := Pooled.acquire_checkout env repo' in
  Pooled.enters lib user repo s →
  Pooled.absolute (Repo.tests_dir repo) = true →
  (acquire (Pooled.entered s)).1 = Pooled.Done (Ok true) →
  (pass s).1 = Pooled.Done Exn
  ∧ evs = Pooled.events_of acquire (Pooled.entered s)
          ++ [EvGlob (Repo.tests_dir repo +:+ "*")]
  ∧ count_events is_load_rules evs = 0%nat
  ∧ bulk_create_calls evs = [] ∧ bulk_remove_calls evs = []
  ∧ requests evs = []
  ∧ Pooled.held (pass s).2 = Pooled.held s.
Proof.
  intros repo' pass evs acquire Hadm Habs Hacq.
  destruct (with_gerrit_url_layout env user repo) as [Hdir _].
  fold repo' in Hdir. rewrite <- Hdir.
  apply (pooled_discovery_raises_ends_pass env lib user repo s Hadm Hacq).
  fold repo' acquire.
  unfold Pooled.discover, Pooled.glob. unfold_pooled.
  by rewrite Hdir, (absolute_pattern _ Habs).
Qed.

Lemma absolute_tests_dir_raises_witness :
  let env := simple_env [GitReturns (Some rules_checkout)] in
  let lib := Pooled.quiet Pooled.granting in
  let repo :=
    Repo.Build 7 "qa" "https://git.example.org/qa/tests.git" "/tests/"
      (Some "test-") None known_a_gamma in
  let pass := Pooled.process_repo env lib "" repo in
  let evs := Pooled.events_of pass Pooled.fresh in
  (pass Pooled.fresh).1 = Pooled.Done Exn
  ∧ evs = [EvClone "https://git.example.org/qa/tests.git"]
          ++ [EvGlob "/tests/*"]
  ∧ count_events is_load_rules evs = 0%nat
  ∧ bulk_create_calls evs = [] ∧ bulk_remove_calls evs = []
  ∧ requests evs = []
  ∧ Pooled.held (pass Pooled.fresh).2 = 0%nat.
Proof.
  intros env lib repo.
  exact (absolute_tests_dir_raises env lib "" repo Pooled.fresh
           (conj eq_refl eq_refl) eq_refl eq_refl).
Defined.

(** X29. A prefix that makes a pattern [re] rejects goes unnoticed until
    the glob yields an entry: then [re.search] raises, and the exception
    leaves [process_repo] at the first discovery - no rule file is read,
    nothing is created or removed, no request is sent - and the permit of
    line 184 goes back. *)
Theorem rejected_pattern_ends_pass (env : collaborators)
    (lib : Pooled.library) (user : string) (repo : Repo.t)
    (s : Pooled.state) (root : fsnode) :
  let repo' := with_gerrit_url env user repo in
  let pass := Pooled.process_repo env lib user repo in
  let evs := Pooled.events_of pass s in
  let acquire := Pooled.acquire_checkout env repo' in
  Pooled.enters lib user repo s →
  Pooled.absolute (Repo.tests_dir repo +:+ "*") = false →
  Pooled.special (Repo.tests_dir repo +:+ "*") = false →
  Pooled.re_error lib (regex_pattern_of repo) = true →
  (acquire (Pooled.entered s)).1 = Pooled.Done (Ok true) →
  disk (Pooled.world_of (acquire (Pooled.entered s)).2) = Some root →
  glob_from (path_parts (Repo.tests_dir repo +:+ "*")) [] root ≠ [] →
  (pass s).1 = Pooled.Done Exn
  ∧ evs = Pooled.events_of acquire (Pooled.entered s)
          ++ [EvGlob (Repo.tests_dir repo +:+ "*")]
  ∧ count_events is_load_rules evs = 0%nat
  ∧ bulk_create_calls evs = [] ∧ bulk_remove_calls evs = []
  ∧ requests evs = []
  ∧ Pooled.held (pass s).2 = Pooled.held s.
Proof.
  intros repo' pass evs acquire Hadm Habs Hsp Hre Hacq Hd Hfound.
  destruct (with_gerrit_url_layout env user repo) as [Hdir Hpat].
  fold repo' in Hdir, Hpat. rewrite <- Hdir.
  apply (pooled_discovery_raises_ends_pass env lib user repo s Hadm Hacq).
  fold repo' acquire.
  unfold Pooled.discover, Pooled.glob. unfold_pooled.
  rewrite Hdir, Hpat, Habs, Hsp, Hd, Hre. cbn [fst snd].
  by destruct (glob_from _ [] root).
Qed.

Lemma rejected_pattern_ends_pass_witness :
  let env := simple_env [GitReturns (Some rules_checkout)] in
  let lib :=
    Pooled.Library Pooled.granting (λ p, bool_decide (p = "^test-("))
      (λ _ _, false) (λ _ _, false) (λ _, false) (λ _ _, Ok [])
      (λ _ _, None) in
  let repo :=
    Repo.Build 7 "qa" "https://git.example.org/qa/tests.git" "tests/"
      (Some "test-(") None known_a_gamma in
  let pass := Pooled.process_repo env lib "" repo in
  let evs := Pooled.events_of pass Pooled.fresh in
  (pass Pooled.fresh).1 = Pooled.Done Exn
  ∧ evs = [EvClone "https://git.example.org/qa/tests.git"]
          ++ [EvGlob "tests/*"]
  ∧ count_events is_load_rules evs = 0%nat
  ∧ bulk_create_calls evs = [] ∧ bulk_remove_calls evs = []
  ∧ requests evs = []
  ∧ Pooled.held (pass Pooled.fresh).2 = 0%nat.
Proof.
  intros env lib repo.
  assert (Hfound : glob_from (path_parts "tests/*") [] rules_checkout ≠ [])
    by (vm_compute; discriminate).
  exact (rejected_pattern_ends_pass env lib "" repo Pooled.fresh
           rules_checkout (conj eq_refl eq_refl) eq_refl eq_refl eq_refl
           eq_refl eq_refl Hfound).
Defined.
